(** * LSDRasterModel: the solvers and the run loop of the landscape model

    A shallow embedding of the parts of [LSDRasterModel.cpp] that advance the
    elevation grid: Airy isostasy, uplift, the fastscape fluvial step, the
    hillslope steps around their linear solve, the adaptive creep step and
    the steady-state and hung-run checks of the run loop.

    Conventions of the embedding.
    - A C++ [float] is an exact rational ([Q]); rounding, infinities and NaN
      are not represented, and [x / 0] is [0] as in [Qdiv].  Equalities
      between computed values are therefore stated with [==] ([Qeq]).
    - A C++ [int] or [short] is a [Z]; the grids are far from the 32-bit
      limits, so no wrap-around is written out for row and column counters.
    - [Array2D<float>] is a list of rows.  The TNT container does not check
      bounds; here a read outside the array yields [0] and a write outside
      the array is dropped.
    - Library routines that the translation unit only calls ([pow], [sin],
      the MTL/ITL sparse solver, the [LSDFlowInfo] flow network) are
      section variables or explicit arguments. *)

From Stdlib Require Import String Ascii.
From Stdlib Require Import ZArith QArith Qabs Qround List Bool Lia Lqa FinFun.
Import ListNotations.

Local Open Scope Z_scope.
Local Open Scope Q_scope.

(** ** Dense two-dimensional arrays *)

Definition Array2D : Type := list (list Q).

Fixpoint list_set {A : Type} (l : list A) (k : nat) (v : A) : list A :=
  match l, k with
  | nil, _ => nil
  | _ :: t, O => v :: t
  | h :: t, S k' => h :: list_set t k' v
  end.

(** [a[i][j]] as an r-value. *)
Definition aget (a : Array2D) (i j : Z) : Q :=
  if ((i <? 0) || (j <? 0))%Z then 0
  else nth (Z.to_nat j) (nth (Z.to_nat i) a nil) 0.

(** [a[i][j] = v]. *)
Definition aset (a : Array2D) (i j : Z) (v : Q) : Array2D :=
  if ((i <? 0) || (j <? 0))%Z then a
  else list_set a (Z.to_nat i)
         (list_set (nth (Z.to_nat i) a nil) (Z.to_nat j) v).

(** [Array2D<float>(nr, nc, v)]. *)
Definition make_array (nr nc : Z) (v : Q) : Array2D :=
  repeat (repeat v (Z.to_nat nc)) (Z.to_nat nr).

(** The array has [nr] rows of [nc] columns each. *)
Definition has_dims (a : Array2D) (nr nc : Z) : Prop :=
  Z.of_nat (length a) = nr /\
  Forall (fun r => Z.of_nat (length r) = nc) a.

(** A cell is inside the array. *)
Definition inside (a : Array2D) (i j : Z) : Prop :=
  (0 <= i < Z.of_nat (length a))%Z /\
  (0 <= j < Z.of_nat (length (nth (Z.to_nat i) a nil)))%Z.

(** [for (k = 0; k < n; ++k)]. *)
Definition zseq (n : Z) : list Z := map Z.of_nat (seq 0 (Z.to_nat n)).

(** [for (k = lo; k <= hi; ++k)]. *)
Definition zrange (lo hi : Z) : list Z :=
  map (fun k => (lo + Z.of_nat k)%Z) (seq 0 (Z.to_nat (hi - lo + 1))).

(** The row-major double loop over an [nr] by [nc] grid. *)
Definition cells (nr nc : Z) : list (Z * Z) :=
  flat_map (fun i => map (fun j => (i, j)) (zseq nc)) (zseq nr).

Definition Qlt_bool (a b : Q) : bool := negb (Qle_bool b a).

(** ** The model object *)

(** The exponents [m] and [n] of the stream-power law are the fields
    [m_exp] and [n_exp]. *)
Record LSDRasterModel : Type := mkModel {
  NRows : Z;
  NCols : Z;
  DataResolution : Q;
  NoDataValue : Q;
  RasterData : Array2D;
  steady_state : bool;
  initial_steady_state : bool;
  cycle_steady_check : bool;
  boundary_conditions : list string;
  current_time : Q;
  time_delay : Q;
  timeStep : Q;
  endTime : Q;
  endTime_mode : Z;
  uplift_field : Array2D;
  uplift_mode : Z;
  max_uplift : Q;
  steady_state_tolerance : Q;
  steady_state_limit : Q;
  m_exp : Q;
  n_exp : Q;
  K_fluv : Q;
  K_soil : Q;
  S_c : Q;
  root_depth : Array2D;
  erosion_cycle_record : list Q;
  zeta_old : Array2D;
  K_mode : Z;
  D_mode : Z;
  period_mode : Z;
  K_amplitude : Q;
  D_amplitude : Q;
  periodicity : Q;
  periodicity_2 : Q;
  cycle_number : Z;
  p_weight : Q;
  switch_time : Q;
  switch_delay : Q;
  zeta_last_iter : Array2D;
  zeta_last_timestep : Array2D;
  zeta_this_iter : Array2D
}.

Definition set_RasterData (md : LSDRasterModel) (v : Array2D) : LSDRasterModel :=
  mkModel (NRows md) (NCols md) (DataResolution md) (NoDataValue md) v
    (steady_state md) (initial_steady_state md) (cycle_steady_check md)
    (boundary_conditions md) (current_time md) (time_delay md) (timeStep md)
    (endTime md) (endTime_mode md) (uplift_field md) (uplift_mode md)
    (max_uplift md) (steady_state_tolerance md) (steady_state_limit md)
    (m_exp md) (n_exp md) (K_fluv md) (K_soil md) (S_c md) (root_depth md)
    (erosion_cycle_record md) (zeta_old md) (K_mode md) (D_mode md)
    (period_mode md) (K_amplitude md) (D_amplitude md) (periodicity md)
    (periodicity_2 md) (cycle_number md) (p_weight md) (switch_time md)
    (switch_delay md) (zeta_last_iter md) (zeta_last_timestep md)
    (zeta_this_iter md).

Definition set_root_depth (md : LSDRasterModel) (v : Array2D) : LSDRasterModel :=
  mkModel (NRows md) (NCols md) (DataResolution md) (NoDataValue md)
    (RasterData md) (steady_state md) (initial_steady_state md)
    (cycle_steady_check md) (boundary_conditions md) (current_time md)
    (time_delay md) (timeStep md) (endTime md) (endTime_mode md)
    (uplift_field md) (uplift_mode md) (max_uplift md)
    (steady_state_tolerance md) (steady_state_limit md) (m_exp md) (n_exp
    md) (K_fluv md) (K_soil md) (S_c md) v (erosion_cycle_record md)
    (zeta_old md) (K_mode md) (D_mode md) (period_mode md) (K_amplitude md)
    (D_amplitude md) (periodicity md) (periodicity_2 md) (cycle_number md)
    (p_weight md) (switch_time md) (switch_delay md) (zeta_last_iter md)
    (zeta_last_timestep md) (zeta_this_iter md).

Definition set_zeta_old (md : LSDRasterModel) (v : Array2D) : LSDRasterModel :=
  mkModel (NRows md) (NCols md) (DataResolution md) (NoDataValue md)
    (RasterData md) (steady_state md) (initial_steady_state md)
    (cycle_steady_check md) (boundary_conditions md) (current_time md)
    (time_delay md) (timeStep md) (endTime md) (endTime_mode md)
    (uplift_field md) (uplift_mode md) (max_uplift md)
    (steady_state_tolerance md) (steady_state_limit md) (m_exp md) (n_exp
    md) (K_fluv md) (K_soil md) (S_c md) (root_depth md)
    (erosion_cycle_record md) v (K_mode md) (D_mode md) (period_mode md)
    (K_amplitude md) (D_amplitude md) (periodicity md) (periodicity_2 md)
    (cycle_number md) (p_weight md) (switch_time md) (switch_delay md)
    (zeta_last_iter md) (zeta_last_timestep md) (zeta_this_iter md).

Definition set_steady_state (md : LSDRasterModel) (v : bool) : LSDRasterModel :=
  mkModel (NRows md) (NCols md) (DataResolution md) (NoDataValue md)
    (RasterData md) v (initial_steady_state md) (cycle_steady_check md)
    (boundary_conditions md) (current_time md) (time_delay md) (timeStep md)
    (endTime md) (endTime_mode md) (uplift_field md) (uplift_mode md)
    (max_uplift md) (steady_state_tolerance md) (steady_state_limit md)
    (m_exp md) (n_exp md) (K_fluv md) (K_soil md) (S_c md) (root_depth md)
    (erosion_cycle_record md) (zeta_old md) (K_mode md) (D_mode md)
    (period_mode md) (K_amplitude md) (D_amplitude md) (periodicity md)
    (periodicity_2 md) (cycle_number md) (p_weight md) (switch_time md)
    (switch_delay md) (zeta_last_iter md) (zeta_last_timestep md)
    (zeta_this_iter md).

Definition set_initial_steady_state (md : LSDRasterModel) (v : bool) : LSDRasterModel :=
  mkModel (NRows md) (NCols md) (DataResolution md) (NoDataValue md)
    (RasterData md) (steady_state md) v (cycle_steady_check md)
    (boundary_conditions md) (current_time md) (time_delay md) (timeStep md)
    (endTime md) (endTime_mode md) (uplift_field md) (uplift_mode md)
    (max_uplift md) (steady_state_tolerance md) (steady_state_limit md)
    (m_exp md) (n_exp md) (K_fluv md) (K_soil md) (S_c md) (root_depth md)
    (erosion_cycle_record md) (zeta_old md) (K_mode md) (D_mode md)
    (period_mode md) (K_amplitude md) (D_amplitude md) (periodicity md)
    (periodicity_2 md) (cycle_number md) (p_weight md) (switch_time md)
    (switch_delay md) (zeta_last_iter md) (zeta_last_timestep md)
    (zeta_this_iter md).

Definition set_time_delay (md : LSDRasterModel) (v : Q) : LSDRasterModel :=
  mkModel (NRows md) (NCols md) (DataResolution md) (NoDataValue md)
    (RasterData md) (steady_state md) (initial_steady_state md)
    (cycle_steady_check md) (boundary_conditions md) (current_time md) v
    (timeStep md) (endTime md) (endTime_mode md) (uplift_field md)
    (uplift_mode md) (max_uplift md) (steady_state_tolerance md)
    (steady_state_limit md) (m_exp md) (n_exp md) (K_fluv md) (K_soil md)
    (S_c md) (root_depth md) (erosion_cycle_record md) (zeta_old md) (K_mode
    md) (D_mode md) (period_mode md) (K_amplitude md) (D_amplitude md)
    (periodicity md) (periodicity_2 md) (cycle_number md) (p_weight md)
    (switch_time md) (switch_delay md) (zeta_last_iter md)
    (zeta_last_timestep md) (zeta_this_iter md).

Definition set_endTime (md : LSDRasterModel) (v : Q) : LSDRasterModel :=
  mkModel (NRows md) (NCols md) (DataResolution md) (NoDataValue md)
    (RasterData md) (steady_state md) (initial_steady_state md)
    (cycle_steady_check md) (boundary_conditions md) (current_time md)
    (time_delay md) (timeStep md) v (endTime_mode md) (uplift_field md)
    (uplift_mode md) (max_uplift md) (steady_state_tolerance md)
    (steady_state_limit md) (m_exp md) (n_exp md) (K_fluv md) (K_soil md)
    (S_c md) (root_depth md) (erosion_cycle_record md) (zeta_old md) (K_mode
    md) (D_mode md) (period_mode md) (K_amplitude md) (D_amplitude md)
    (periodicity md) (periodicity_2 md) (cycle_number md) (p_weight md)
    (switch_time md) (switch_delay md) (zeta_last_iter md)
    (zeta_last_timestep md) (zeta_this_iter md).

Definition set_current_time (md : LSDRasterModel) (v : Q) : LSDRasterModel :=
  mkModel (NRows md) (NCols md) (DataResolution md) (NoDataValue md)
    (RasterData md) (steady_state md) (initial_steady_state md)
    (cycle_steady_check md) (boundary_conditions md) v (time_delay md)
    (timeStep md) (endTime md) (endTime_mode md) (uplift_field md)
    (uplift_mode md) (max_uplift md) (steady_state_tolerance md)
    (steady_state_limit md) (m_exp md) (n_exp md) (K_fluv md) (K_soil md)
    (S_c md) (root_depth md) (erosion_cycle_record md) (zeta_old md) (K_mode
    md) (D_mode md) (period_mode md) (K_amplitude md) (D_amplitude md)
    (periodicity md) (periodicity_2 md) (cycle_number md) (p_weight md)
    (switch_time md) (switch_delay md) (zeta_last_iter md)
    (zeta_last_timestep md) (zeta_this_iter md).

Definition set_timeStep (md : LSDRasterModel) (v : Q) : LSDRasterModel :=
  mkModel (NRows md) (NCols md) (DataResolution md) (NoDataValue md)
    (RasterData md) (steady_state md) (initial_steady_state md)
    (cycle_steady_check md) (boundary_conditions md) (current_time md)
    (time_delay md) v (endTime md) (endTime_mode md) (uplift_field md)
    (uplift_mode md) (max_uplift md) (steady_state_tolerance md)
    (steady_state_limit md) (m_exp md) (n_exp md) (K_fluv md) (K_soil md)
    (S_c md) (root_depth md) (erosion_cycle_record md) (zeta_old md) (K_mode
    md) (D_mode md) (period_mode md) (K_amplitude md) (D_amplitude md)
    (periodicity md) (periodicity_2 md) (cycle_number md) (p_weight md)
    (switch_time md) (switch_delay md) (zeta_last_iter md)
    (zeta_last_timestep md) (zeta_this_iter md).

Definition set_periodicity (md : LSDRasterModel) (v : Q) : LSDRasterModel :=
  mkModel (NRows md) (NCols md) (DataResolution md) (NoDataValue md)
    (RasterData md) (steady_state md) (initial_steady_state md)
    (cycle_steady_check md) (boundary_conditions md) (current_time md)
    (time_delay md) (timeStep md) (endTime md) (endTime_mode md)
    (uplift_field md) (uplift_mode md) (max_uplift md)
    (steady_state_tolerance md) (steady_state_limit md) (m_exp md) (n_exp
    md) (K_fluv md) (K_soil md) (S_c md) (root_depth md)
    (erosion_cycle_record md) (zeta_old md) (K_mode md) (D_mode md)
    (period_mode md) (K_amplitude md) (D_amplitude md) v (periodicity_2 md)
    (cycle_number md) (p_weight md) (switch_time md) (switch_delay md)
    (zeta_last_iter md) (zeta_last_timestep md) (zeta_this_iter md).

Definition set_periodicity_2 (md : LSDRasterModel) (v : Q) : LSDRasterModel :=
  mkModel (NRows md) (NCols md) (DataResolution md) (NoDataValue md)
    (RasterData md) (steady_state md) (initial_steady_state md)
    (cycle_steady_check md) (boundary_conditions md) (current_time md)
    (time_delay md) (timeStep md) (endTime md) (endTime_mode md)
    (uplift_field md) (uplift_mode md) (max_uplift md)
    (steady_state_tolerance md) (steady_state_limit md) (m_exp md) (n_exp
    md) (K_fluv md) (K_soil md) (S_c md) (root_depth md)
    (erosion_cycle_record md) (zeta_old md) (K_mode md) (D_mode md)
    (period_mode md) (K_amplitude md) (D_amplitude md) (periodicity md) v
    (cycle_number md) (p_weight md) (switch_time md) (switch_delay md)
    (zeta_last_iter md) (zeta_last_timestep md) (zeta_this_iter md).

Definition set_switch_delay (md : LSDRasterModel) (v : Q) : LSDRasterModel :=
  mkModel (NRows md) (NCols md) (DataResolution md) (NoDataValue md)
    (RasterData md) (steady_state md) (initial_steady_state md)
    (cycle_steady_check md) (boundary_conditions md) (current_time md)
    (time_delay md) (timeStep md) (endTime md) (endTime_mode md)
    (uplift_field md) (uplift_mode md) (max_uplift md)
    (steady_state_tolerance md) (steady_state_limit md) (m_exp md) (n_exp
    md) (K_fluv md) (K_soil md) (S_c md) (root_depth md)
    (erosion_cycle_record md) (zeta_old md) (K_mode md) (D_mode md)
    (period_mode md) (K_amplitude md) (D_amplitude md) (periodicity md)
    (periodicity_2 md) (cycle_number md) (p_weight md) (switch_time md) v
    (zeta_last_iter md) (zeta_last_timestep md) (zeta_this_iter md).

Definition set_cycle_number (md : LSDRasterModel) (v : Z) : LSDRasterModel :=
  mkModel (NRows md) (NCols md) (DataResolution md) (NoDataValue md)
    (RasterData md) (steady_state md) (initial_steady_state md)
    (cycle_steady_check md) (boundary_conditions md) (current_time md)
    (time_delay md) (timeStep md) (endTime md) (endTime_mode md)
    (uplift_field md) (uplift_mode md) (max_uplift md)
    (steady_state_tolerance md) (steady_state_limit md) (m_exp md) (n_exp
    md) (K_fluv md) (K_soil md) (S_c md) (root_depth md)
    (erosion_cycle_record md) (zeta_old md) (K_mode md) (D_mode md)
    (period_mode md) (K_amplitude md) (D_amplitude md) (periodicity md)
    (periodicity_2 md) v (p_weight md) (switch_time md) (switch_delay md)
    (zeta_last_iter md) (zeta_last_timestep md) (zeta_this_iter md).

Definition set_zeta_last_iter (md : LSDRasterModel) (v : Array2D) : LSDRasterModel :=
  mkModel (NRows md) (NCols md) (DataResolution md) (NoDataValue md)
    (RasterData md) (steady_state md) (initial_steady_state md)
    (cycle_steady_check md) (boundary_conditions md) (current_time md)
    (time_delay md) (timeStep md) (endTime md) (endTime_mode md)
    (uplift_field md) (uplift_mode md) (max_uplift md)
    (steady_state_tolerance md) (steady_state_limit md) (m_exp md) (n_exp
    md) (K_fluv md) (K_soil md) (S_c md) (root_depth md)
    (erosion_cycle_record md) (zeta_old md) (K_mode md) (D_mode md)
    (period_mode md) (K_amplitude md) (D_amplitude md) (periodicity md)
    (periodicity_2 md) (cycle_number md) (p_weight md) (switch_time md)
    (switch_delay md) v (zeta_last_timestep md) (zeta_this_iter md).

Definition set_zeta_last_timestep (md : LSDRasterModel) (v : Array2D) : LSDRasterModel :=
  mkModel (NRows md) (NCols md) (DataResolution md) (NoDataValue md)
    (RasterData md) (steady_state md) (initial_steady_state md)
    (cycle_steady_check md) (boundary_conditions md) (current_time md)
    (time_delay md) (timeStep md) (endTime md) (endTime_mode md)
    (uplift_field md) (uplift_mode md) (max_uplift md)
    (steady_state_tolerance md) (steady_state_limit md) (m_exp md) (n_exp
    md) (K_fluv md) (K_soil md) (S_c md) (root_depth md)
    (erosion_cycle_record md) (zeta_old md) (K_mode md) (D_mode md)
    (period_mode md) (K_amplitude md) (D_amplitude md) (periodicity md)
    (periodicity_2 md) (cycle_number md) (p_weight md) (switch_time md)
    (switch_delay md) (zeta_last_iter md) v (zeta_this_iter md).

Definition set_zeta_this_iter (md : LSDRasterModel) (v : Array2D) : LSDRasterModel :=
  mkModel (NRows md) (NCols md) (DataResolution md) (NoDataValue md)
    (RasterData md) (steady_state md) (initial_steady_state md)
    (cycle_steady_check md) (boundary_conditions md) (current_time md)
    (time_delay md) (timeStep md) (endTime md) (endTime_mode md)
    (uplift_field md) (uplift_mode md) (max_uplift md)
    (steady_state_tolerance md) (steady_state_limit md) (m_exp md) (n_exp
    md) (K_fluv md) (K_soil md) (S_c md) (root_depth md)
    (erosion_cycle_record md) (zeta_old md) (K_mode md) (D_mode md)
    (period_mode md) (K_amplitude md) (D_amplitude md) (periodicity md)
    (periodicity_2 md) (cycle_number md) (p_weight md) (switch_time md)
    (switch_delay md) (zeta_last_iter md) (zeta_last_timestep md) v.

Definition set_cycle_steady_check (md : LSDRasterModel) (v : bool) : LSDRasterModel :=
  mkModel (NRows md) (NCols md) (DataResolution md) (NoDataValue md)
    (RasterData md) (steady_state md) (initial_steady_state md) v
    (boundary_conditions md) (current_time md) (time_delay md) (timeStep md)
    (endTime md) (endTime_mode md) (uplift_field md) (uplift_mode md)
    (max_uplift md) (steady_state_tolerance md) (steady_state_limit md)
    (m_exp md) (n_exp md) (K_fluv md) (K_soil md) (S_c md) (root_depth md)
    (erosion_cycle_record md) (zeta_old md) (K_mode md) (D_mode md)
    (period_mode md) (K_amplitude md) (D_amplitude md) (periodicity md)
    (periodicity_2 md) (cycle_number md) (p_weight md) (switch_time md)
    (switch_delay md) (zeta_last_iter md) (zeta_last_timestep md)
    (zeta_this_iter md).

Definition set_steady_state_tolerance (md : LSDRasterModel) (v : Q) : LSDRasterModel :=
  mkModel (NRows md) (NCols md) (DataResolution md) (NoDataValue md)
    (RasterData md) (steady_state md) (initial_steady_state md)
    (cycle_steady_check md) (boundary_conditions md) (current_time md)
    (time_delay md) (timeStep md) (endTime md) (endTime_mode md)
    (uplift_field md) (uplift_mode md) (max_uplift md) v (steady_state_limit
    md) (m_exp md) (n_exp md) (K_fluv md) (K_soil md) (S_c md) (root_depth
    md) (erosion_cycle_record md) (zeta_old md) (K_mode md) (D_mode md)
    (period_mode md) (K_amplitude md) (D_amplitude md) (periodicity md)
    (periodicity_2 md) (cycle_number md) (p_weight md) (switch_time md)
    (switch_delay md) (zeta_last_iter md) (zeta_last_timestep md)
    (zeta_this_iter md).

Definition set_boundary_conditions (md : LSDRasterModel) (v : list string) : LSDRasterModel :=
  mkModel (NRows md) (NCols md) (DataResolution md) (NoDataValue md)
    (RasterData md) (steady_state md) (initial_steady_state md)
    (cycle_steady_check md) v (current_time md) (time_delay md) (timeStep
    md) (endTime md) (endTime_mode md) (uplift_field md) (uplift_mode md)
    (max_uplift md) (steady_state_tolerance md) (steady_state_limit md)
    (m_exp md) (n_exp md) (K_fluv md) (K_soil md) (S_c md) (root_depth md)
    (erosion_cycle_record md) (zeta_old md) (K_mode md) (D_mode md)
    (period_mode md) (K_amplitude md) (D_amplitude md) (periodicity md)
    (periodicity_2 md) (cycle_number md) (p_weight md) (switch_time md)
    (switch_delay md) (zeta_last_iter md) (zeta_last_timestep md)
    (zeta_this_iter md).

Definition set_endTime_mode (md : LSDRasterModel) (v : Z) : LSDRasterModel :=
  mkModel (NRows md) (NCols md) (DataResolution md) (NoDataValue md)
    (RasterData md) (steady_state md) (initial_steady_state md)
    (cycle_steady_check md) (boundary_conditions md) (current_time md)
    (time_delay md) (timeStep md) (endTime md) v (uplift_field md)
    (uplift_mode md) (max_uplift md) (steady_state_tolerance md)
    (steady_state_limit md) (m_exp md) (n_exp md) (K_fluv md) (K_soil md)
    (S_c md) (root_depth md) (erosion_cycle_record md) (zeta_old md) (K_mode
    md) (D_mode md) (period_mode md) (K_amplitude md) (D_amplitude md)
    (periodicity md) (periodicity_2 md) (cycle_number md) (p_weight md)
    (switch_time md) (switch_delay md) (zeta_last_iter md)
    (zeta_last_timestep md) (zeta_this_iter md).

Definition set_n_exp (md : LSDRasterModel) (v : Q) : LSDRasterModel :=
  mkModel (NRows md) (NCols md) (DataResolution md) (NoDataValue md)
    (RasterData md) (steady_state md) (initial_steady_state md)
    (cycle_steady_check md) (boundary_conditions md) (current_time md)
    (time_delay md) (timeStep md) (endTime md) (endTime_mode md)
    (uplift_field md) (uplift_mode md) (max_uplift md)
    (steady_state_tolerance md) (steady_state_limit md) (m_exp md) v (K_fluv
    md) (K_soil md) (S_c md) (root_depth md) (erosion_cycle_record md)
    (zeta_old md) (K_mode md) (D_mode md) (period_mode md) (K_amplitude md)
    (D_amplitude md) (periodicity md) (periodicity_2 md) (cycle_number md)
    (p_weight md) (switch_time md) (switch_delay md) (zeta_last_iter md)
    (zeta_last_timestep md) (zeta_this_iter md).

Definition set_m_exp (md : LSDRasterModel) (v : Q) : LSDRasterModel :=
  mkModel (NRows md) (NCols md) (DataResolution md) (NoDataValue md)
    (RasterData md) (steady_state md) (initial_steady_state md)
    (cycle_steady_check md) (boundary_conditions md) (current_time md)
    (time_delay md) (timeStep md) (endTime md) (endTime_mode md)
    (uplift_field md) (uplift_mode md) (max_uplift md)
    (steady_state_tolerance md) (steady_state_limit md) v (n_exp md) (K_fluv
    md) (K_soil md) (S_c md) (root_depth md) (erosion_cycle_record md)
    (zeta_old md) (K_mode md) (D_mode md) (period_mode md) (K_amplitude md)
    (D_amplitude md) (periodicity md) (periodicity_2 md) (cycle_number md)
    (p_weight md) (switch_time md) (switch_delay md) (zeta_last_iter md)
    (zeta_last_timestep md) (zeta_this_iter md).

Definition set_K_fluv (md : LSDRasterModel) (v : Q) : LSDRasterModel :=
  mkModel (NRows md) (NCols md) (DataResolution md) (NoDataValue md)
    (RasterData md) (steady_state md) (initial_steady_state md)
    (cycle_steady_check md) (boundary_conditions md) (current_time md)
    (time_delay md) (timeStep md) (endTime md) (endTime_mode md)
    (uplift_field md) (uplift_mode md) (max_uplift md)
    (steady_state_tolerance md) (steady_state_limit md) (m_exp md) (n_exp
    md) v (K_soil md) (S_c md) (root_depth md) (erosion_cycle_record md)
    (zeta_old md) (K_mode md) (D_mode md) (period_mode md) (K_amplitude md)
    (D_amplitude md) (periodicity md) (periodicity_2 md) (cycle_number md)
    (p_weight md) (switch_time md) (switch_delay md) (zeta_last_iter md)
    (zeta_last_timestep md) (zeta_this_iter md).

Definition set_erosion_cycle_record (md : LSDRasterModel) (v : list Q) : LSDRasterModel :=
  mkModel (NRows md) (NCols md) (DataResolution md) (NoDataValue md)
    (RasterData md) (steady_state md) (initial_steady_state md)
    (cycle_steady_check md) (boundary_conditions md) (current_time md)
    (time_delay md) (timeStep md) (endTime md) (endTime_mode md)
    (uplift_field md) (uplift_mode md) (max_uplift md)
    (steady_state_tolerance md) (steady_state_limit md) (m_exp md) (n_exp
    md) (K_fluv md) (K_soil md) (S_c md) (root_depth md) v (zeta_old md)
    (K_mode md) (D_mode md) (period_mode md) (K_amplitude md) (D_amplitude
    md) (periodicity md) (periodicity_2 md) (cycle_number md) (p_weight md)
    (switch_time md) (switch_delay md) (zeta_last_iter md)
    (zeta_last_timestep md) (zeta_this_iter md).

Definition set_DataResolution (md : LSDRasterModel) (v : Q) : LSDRasterModel :=
  mkModel (NRows md) (NCols md) v (NoDataValue md) (RasterData md)
    (steady_state md) (initial_steady_state md) (cycle_steady_check md)
    (boundary_conditions md) (current_time md) (time_delay md) (timeStep md)
    (endTime md) (endTime_mode md) (uplift_field md) (uplift_mode md)
    (max_uplift md) (steady_state_tolerance md) (steady_state_limit md)
    (m_exp md) (n_exp md) (K_fluv md) (K_soil md) (S_c md) (root_depth md)
    (erosion_cycle_record md) (zeta_old md) (K_mode md) (D_mode md)
    (period_mode md) (K_amplitude md) (D_amplitude md) (periodicity md)
    (periodicity_2 md) (cycle_number md) (p_weight md) (switch_time md)
    (switch_delay md) (zeta_last_iter md) (zeta_last_timestep md)
    (zeta_this_iter md).

(** The class invariant established by [create]: the three grids the solvers
    index have [NRows] rows and [NCols] columns. *)
Definition well_sized (md : LSDRasterModel) : Prop :=
  has_dims (RasterData md) (NRows md) (NCols md) /\
  has_dims (root_depth md) (NRows md) (NCols md).

(** ** Airy isostasy *)

Definition rho_c : Q := 2650.
Definition rho_m : Q := 3300.
Definition zeta_root : Q := (rho_m - rho_c) / rho_c.

(** The body of the double loop of [Airy_isostasy]; the state is
    [(RasterData, root_depth)]. *)
Definition Airy_cell (st : Array2D * Array2D) (c : Z * Z) : Array2D * Array2D :=
  let '(zeta, root) := st in
  let '(i, j) := c in
  let load := aget zeta i j + aget root i j in
  let root' := aset root i j (load / (1 + zeta_root)) in
  (aset zeta i j (load - aget root' i j), root').

Definition Airy_isostasy (md : LSDRasterModel) : LSDRasterModel :=
  let st := fold_left Airy_cell (cells (NRows md) (NCols md))
              (RasterData md, root_depth md) in
  set_root_depth (set_RasterData md (fst st)) (snd st).

(** ** Boundary codes *)

(** [boundary_conditions[k][0]]; the first character of an empty string is
    the terminating null. *)
Definition bc_code (md : LSDRasterModel) (k : Z) : ascii :=
  match nth (Z.to_nat k) (boundary_conditions md) EmptyString with
  | String c _ => c
  | EmptyString => Ascii.zero
  end.

Definition is_b (c : ascii) : bool := Ascii.eqb c "b"%char.
Definition is_p (c : ascii) : bool := Ascii.eqb c "p"%char.

Definition is_base_level (md : LSDRasterModel) (i j : Z) : bool :=
  if (i =? 0)%Z && is_b (bc_code md 0) then true
  else if (j =? 0)%Z && is_b (bc_code md 3) then true
  else if (i =? NRows md - 1)%Z && is_b (bc_code md 2) then true
  else if (j =? NCols md - 1)%Z && is_b (bc_code md 1) then true
  else false.

(** The reference parameters [dimension], [periodic] and [size] are returned
    as a triple.  [periodic] is only assigned when one of the two cross
    edges is periodic, so the value the caller's variable held before the
    call, [periodic0], is an input. *)
Definition interpret_boundary (md : LSDRasterModel) (periodic0 : bool)
  : Z * bool * Z :=
  let dimension :=
    fold_left (fun d i => if is_b (bc_code md i) then Z.rem i 2 else d)
              (zseq 4) 0%Z in
  let periodic :=
    if is_p (bc_code md (1 - dimension)) || is_p (bc_code md (3 - dimension))
    then true else periodic0 in
  let size :=
    if (dimension =? 0)%Z then ((NRows md - 2) * NCols md)%Z
    else (NRows md * (NCols md - 2))%Z in
  (dimension, periodic, size).

(** Conversion of a [float] to an [int]: truncation toward zero. *)
Definition Qtrunc (q : Q) : Z := Z.quot (Qnum q) (Zpos (Qden q)).

(** ** Steady state, end of run, hung runs *)

Definition cycle_unsteady (md : LSDRasterModel) (i : nat) : bool :=
  let r := erosion_cycle_record md in
  Qeq_bool (nth i r 0) (-99) ||
  Qlt_bool (steady_state_tolerance md) (Qabs (nth i r 0 - nth (S i) r 0)).

Definition cell_unsteady (md : LSDRasterModel) (c : Z * Z) : bool :=
  Qlt_bool (steady_state_tolerance md)
    (Qabs (aget (RasterData md) (fst c) (snd c) -
           aget (zeta_old md) (fst c) (snd c))).

(** The two scanning loops leave through [steady_state = false; return;] at
    the first offending entry, which is what [existsb] decides. *)
Definition check_steady_state (md : LSDRasterModel) : LSDRasterModel :=
  let md := set_steady_state md true in
  let unsteady :=
    if cycle_steady_check md then existsb (cycle_unsteady md) (seq 0 4)
    else if Qlt_bool (steady_state_limit md) 0 ||
            Qlt_bool (current_time md) (steady_state_limit md)
    then existsb (cell_unsteady md) (cells (NRows md) (NCols md))
    else false in
  if unsteady then set_steady_state md false
  else if negb (initial_steady_state md) then
    let md := set_initial_steady_state md true in
    let md := set_time_delay md (current_time md) in
    if (endTime_mode md =? 1)%Z || (endTime_mode md =? 3)%Z
    then set_endTime md (endTime md + time_delay md)
    else md
  else md.

(** The result and the object, whose [endTime] mode 3 overwrites. *)
Definition check_end_condition (md : LSDRasterModel) : bool * LSDRasterModel :=
  let num_cycles :=
    if negb (K_mode md =? 0)%Z || negb (D_mode md =? 0)%Z
    then (cycle_number md - 1)%Z
    else Qtrunc ((current_time md - time_delay md) / periodicity md) in
  if (endTime_mode md =? 1)%Z then
    (negb (negb (initial_steady_state md) ||
           Qle_bool (current_time md) (endTime md + timeStep md)), md)
  else if (endTime_mode md =? 2)%Z then
    (negb (negb (initial_steady_state md) ||
           Qle_bool (inject_Z num_cycles) (endTime md)), md)
  else if (endTime_mode md =? 3)%Z then
    let c := inject_Z (Qceiling ((endTime md - time_delay md) / periodicity md)) in
    let endTime_adjusted :=
      if Qeq_bool c 1 then (1 + c) * periodicity md + time_delay md
      else c * periodicity md + time_delay md in
    let md := set_endTime md endTime_adjusted in
    (negb (negb (initial_steady_state md) ||
           Qlt_bool (current_time md) (endTime_adjusted + timeStep md)), md)
  else (Qle_bool (endTime md) (current_time md), md).

Definition check_periodicity_switch (md : LSDRasterModel) : LSDRasterModel :=
  if ((K_mode md =? 0)%Z && (D_mode md =? 0)%Z) ||
     (negb (initial_steady_state md) && negb (cycle_steady_check md))
  then md
  else if (period_mode md =? 2)%Z || (period_mode md =? 4)%Z then
    let p := periodicity md in
    let t :=
      if (endTime_mode md =? 2)%Z then switch_time md * p
      else if (endTime_mode md =? 3)%Z
      then inject_Z (Qceiling (switch_time md / p)) * p
      else switch_time md in
    if Qlt_bool (t + switch_delay md) (current_time md - time_delay md) then
      let swap := periodicity md in
      let md := set_periodicity md (periodicity_2 md) in
      let md := set_periodicity_2 md swap in
      set_switch_delay md (current_time md - time_delay md - timeStep md)
    else md
  else md.

(** The [switch] that follows the unconditional [return false;] in
    [check_if_hung].  No execution reaches it. *)
Definition check_if_hung_unreached (md : LSDRasterModel) (num_cycles : Z) : bool :=
  if (endTime_mode md =? 1)%Z then
    negb (initial_steady_state md) &&
    Qlt_bool (endTime md * 100) (current_time md)
  else if (endTime_mode md =? 2)%Z then
    negb (initial_steady_state md) &&
    Qlt_bool (endTime md * 100) (inject_Z num_cycles)
  else if (endTime_mode md =? 3)%Z then
    negb (initial_steady_state md) &&
    Qlt_bool (endTime md * 100) (current_time md)
  else false.

(** [num_cycles] is computed, then the function returns [false]. *)
Definition check_if_hung (md : LSDRasterModel) : bool :=
  let num_cycles := Qtrunc (current_time md / periodicity md) in
  false.

(** How the [do ... while] of [run_components] was left. *)
Inductive loop_exit : Type :=
| HungBreak          (* the [break] under [check_if_hung()] *)
| EndCondition.      (* [check_end_condition()] returned true *)

Section RunLoop.

(** The active components of one pass (hillslope, wash-out, fluvial,
    isostasy, uplift) followed by [write_report]. *)
Variable run_processes : LSDRasterModel -> LSDRasterModel.

(** One pass of the loop body after the hung check. *)
Definition run_pass (md : LSDRasterModel) : LSDRasterModel :=
  let md := check_periodicity_switch md in
  let md := set_zeta_old md (RasterData md) in
  let md := run_processes md in
  let md := set_current_time md (current_time md + timeStep md) in
  check_steady_state md.

(** The loop has no bound of its own; [fuel] counts passes and [None]
    means the fuel ran out. *)
Fixpoint run_loop (fuel : nat) (md : LSDRasterModel)
  : option (loop_exit * LSDRasterModel) :=
  match fuel with
  | O => None
  | S fuel' =>
      if check_if_hung md then Some (HungBreak, md)
      else
        let md := run_pass md in
        let '(stop, md) := check_end_condition md in
        if stop then Some (EndCondition, md) else run_loop fuel' md
  end.

Definition run_components (fuel : nat) (md : LSDRasterModel)
  : option (loop_exit * LSDRasterModel) :=
  let md := set_cycle_number md 1 in
  let md := set_switch_delay md 0 in
  let md := set_time_delay md 0 in
  run_loop fuel md.

End RunLoop.

(** ** The process steps *)

(** The flow network the fluvial step builds with
    [LSDFlowInfo flow(boundary_conditions, temp)], seen through the
    accessors the step calls.  The reference parameters of an accessor are
    returned as a tuple. *)
Record LSDFlowInfo : Type := mkFlow {
  get_SVector : list Z;
  retrieve_current_row_and_col : Z -> Z * Z;
  retrieve_receiver_information : Z -> Z * Z * Z;
  retrieve_contributing_pixels_of_node : Z -> Z;
  retrieve_flow_length_code_of_node : Z -> Z
}.

Definition node_cell (flow : LSDFlowInfo) (node : Z) : Z * Z :=
  retrieve_current_row_and_col flow node.

Definition receiver_of (flow : LSDFlowInfo) (node : Z) : Z :=
  fst (fst (retrieve_receiver_information flow node)).

Definition receiver_cell (flow : LSDFlowInfo) (node : Z) : Z * Z :=
  let '(_, receiver_row, receiver_col) := retrieve_receiver_information flow node in
  (receiver_row, receiver_col).

(** Modelled from the spec: the visiting order of the flow network, whose
    class [LSDFlowInfo] is implemented outside this translation unit.  The
    receiver of a node is the node itself or stands earlier in the list
    ([seen] holds the nodes already passed). *)
Fixpoint receivers_first (flow : LSDFlowInfo) (seen nodeList : list Z) : Prop :=
  match nodeList with
  | nil => True
  | node :: rest =>
      (receiver_of flow node = node \/ In (receiver_of flow node) seen) /\
      receivers_first flow (node :: seen) rest
  end.

(** Modelled from the spec: what the flow network hands to the fluvial
    step.  The nodes of the stack are distinct cells of the grid, the
    receiver row and column are those of the receiver node, and the stack
    is in topological order. *)
Record flow_fits (md : LSDRasterModel) (flow : LSDFlowInfo) : Prop := {
  fits_cells : NoDup (map (node_cell flow) (get_SVector flow));
  fits_range : forall node, In node (get_SVector flow) ->
      (0 <= fst (node_cell flow node) < NRows md)%Z /\
      (0 <= snd (node_cell flow node) < NCols md)%Z;
  fits_receiver : forall node, In node (get_SVector flow) ->
      receiver_cell flow node = node_cell flow (receiver_of flow node);
  fits_order : receivers_first flow nil (get_SVector flow)
}.

(** Modelled from the spec: the flow network is built with the boundary
    codes of the object, and its base-level nodes are their own receivers.
    A stack node on a base-level cell of the object is its own receiver. *)
Definition base_level_nodes (md : LSDRasterModel) (flow : LSDFlowInfo) : Prop :=
  forall node, In node (get_SVector flow) ->
    is_base_level md (fst (node_cell flow node)) (snd (node_cell flow node)) = true ->
    receiver_of flow node = node.

(** The fixed-elevation edges lie on one axis only: north and south, or
    east and west. *)
Definition base_level_on_one_axis (md : LSDRasterModel) : bool :=
  negb ((is_b (bc_code md 0) || is_b (bc_code md 2)) &&
        (is_b (bc_code md 1) || is_b (bc_code md 3))).

Definition PI : Q := 314159265358 # 100000000000.

Section Processes.

(** [pow] and [sin] of the C library. *)
Variable pow : Q -> Q -> Q.
Variable sin : Q -> Q.

(** The readers of the forcing files [.K_file_<name>] and [D_file]. *)
Variable stream_K_fluv : LSDRasterModel -> Q.
Variable stream_K_soil : LSDRasterModel -> Q.

(** The vector [output] that [itl::bicgstab] leaves for the system of
    [generate_fd_matrix] and [build_fd_vector], respectively of
    [generate_fv_matrix] and [build_fv_vector], assembled from the object
    with the given [dimension], [size] and [periodic]. *)
Variable fd_solution : LSDRasterModel -> Z -> Z -> bool -> list Q.
Variable fv_solution : LSDRasterModel -> Z -> Z -> bool -> list Q.

(** The grid [zeta_this_iter] that [DAVE_solve_assembler_matrix] leaves:
    the solution of the system [DAVE_assemble_matrix] builds from the
    object (its [timeStep], [zeta_last_iter] and [zeta_last_timestep]),
    the uplift and fluvial erosion rates, the four coefficients
    [(inv_dx_S_c_squared, inv_dy_S_c_squared, dx_front_term,
    dy_front_term)] and the south and north boundary elevations. *)
Variable assembler_solution :
  LSDRasterModel -> Array2D -> Array2D -> Q * Q * Q * Q -> Q -> Q -> Array2D.

(** *** Forcing parameters *)

Definition periodic_parameter (md : LSDRasterModel) (base_param amplitude : Q) : Q :=
  let t := current_time md - time_delay md - switch_delay md in
  if (period_mode md =? 3)%Z || (period_mode md =? 4)%Z then
    p_weight md * sin (t * 2 * PI / periodicity md) * amplitude +
    (1 - p_weight md) * sin (t * 2 * PI / periodicity_2 md) * amplitude +
    base_param
  else sin (t * 2 * PI / periodicity md) * amplitude + base_param.

Definition square_wave_parameter (md : LSDRasterModel) (base_param amplitude : Q) : Q :=
  let wave :=
    Qtrunc ((current_time md - time_delay md - switch_delay md) /
            (periodicity md / 2)) in
  let wave := if (Z.rem wave 2 =? 0)%Z then 1%Z else (-1)%Z in
  base_param + inject_Z wave * amplitude.

Definition get_K (md : LSDRasterModel) : Q :=
  if (K_mode md =? 1)%Z then
    if initial_steady_state md || cycle_steady_check md
    then periodic_parameter md (K_fluv md) (K_amplitude md) else K_fluv md
  else if (K_mode md =? 2)%Z then
    if initial_steady_state md
    then square_wave_parameter md (K_fluv md) (K_amplitude md) else K_fluv md
  else if (K_mode md =? 3)%Z then
    if initial_steady_state md then stream_K_fluv md else K_fluv md
  else K_fluv md.

Definition get_D (md : LSDRasterModel) : Q :=
  if (D_mode md =? 1)%Z then
    if initial_steady_state md
    then periodic_parameter md (K_soil md) (D_amplitude md) else K_soil md
  else if (D_mode md =? 2)%Z then
    if initial_steady_state md
    then square_wave_parameter md (K_soil md) (D_amplitude md) else K_soil md
  else if (D_mode md =? 3)%Z then
    if initial_steady_state md then stream_K_soil md else K_soil md
  else K_soil md.

Definition get_max_uplift (md : LSDRasterModel) : Q := max_uplift md.

(** *** Uplift *)

Definition get_uplift_at_cell (md : LSDRasterModel) (i j : Z) : Q :=
  let mu_i := Z.quot (NRows md) 2 in
  let mu_j := Z.quot (NCols md) 2 in
  let sigma_i := inject_Z (Z.quot (NRows md) 10) in
  let sigma_j := inject_Z (Z.quot (NCols md) 10) in
  if is_base_level md i j then 0
  else
    let result :=
      if (uplift_mode md =? 1)%Z then
        inject_Z (NRows md - i - 1) * get_max_uplift md /
        (inject_Z (NRows md) - 1)
      else if (uplift_mode md =? 2)%Z then
        get_max_uplift md *
        pow (11 # 10)
            (- (inject_Z ((i - mu_i) * (i - mu_i)) / (2 * sigma_i * sigma_i) +
                inject_Z ((j - mu_j) * (j - mu_j)) / (2 * sigma_j * sigma_j)))
      else if (uplift_mode md =? 3)%Z then
        let r :=
          get_max_uplift md *
          (- pow (2 * inject_Z i / inject_Z (NRows md - 1) - 1) 2
           - pow (2 * inject_Z j / inject_Z (NCols md - 1) - 1) 2 + 1) in
        if Qlt_bool r 0 then 0 else r
      else get_max_uplift md in
    result * timeStep md.

(** [get_data_element(row, col)] of the base raster class is
    [RasterData[row][col]]. *)
Definition uplift_cell (md : LSDRasterModel) (zeta : Array2D) (c : Z * Z) : Array2D :=
  let '(row, col) := c in
  if is_base_level md row col then zeta
  else if negb (Qeq_bool (aget zeta row col) (NoDataValue md))
  then aset zeta row col (aget zeta row col + get_uplift_at_cell md row col)
  else zeta.

Definition uplift_surface (md : LSDRasterModel) : LSDRasterModel :=
  set_RasterData md
    (fold_left (uplift_cell md) (cells (NRows md) (NCols md)) (RasterData md)).

(** *** Hillslope diffusion: writing the solution back *)

(** The loop body of [repack_vector]; the state is the grid and the
    position [p] in the vector. *)
Definition repack_cell (data_vector : list Q) (st : Array2D * Z) (c : Z * Z)
  : Array2D * Z :=
  let '(zeta, p) := st in
  (aset zeta (fst c) (snd c) (nth (Z.to_nat p) data_vector 0), (p + 1)%Z).

(** The cells [repack_vector] visits, in its order. *)
Definition repack_cells (md : LSDRasterModel) (dimension : Z) : list (Z * Z) :=
  let '(start_i, end_i, start_j, end_j) :=
    if (dimension =? 0)%Z
    then (1, NRows md - 2, 0, NCols md - 1)%Z
    else (0, NRows md - 1, 1, NCols md - 2)%Z in
  flat_map (fun i => map (fun j => (i, j)) (zrange start_j end_j))
           (zrange start_i end_i).

Definition repack_vector (md : LSDRasterModel) (data_vector : list Q)
           (dimension : Z) : LSDRasterModel :=
  set_RasterData md
    (fst (fold_left (repack_cell data_vector) (repack_cells md dimension)
                    (RasterData md, 0%Z))).

Definition soil_diffusion_fd_linear (md : LSDRasterModel) (periodic0 : bool)
  : LSDRasterModel :=
  let '(dimension, periodic, size) := interpret_boundary md periodic0 in
  let output := fd_solution md dimension size periodic in
  repack_vector md output dimension.

(** The scan that sets [max_diff] after each solve. *)
Definition max_diff_cell (zeta last_iteration : Array2D) (max_diff : Q)
           (c : Z * Z) : Q :=
  let d := aget zeta (fst c) (snd c) - aget last_iteration (fst c) (snd c) in
  if Qlt_bool max_diff (Qabs d) then d else max_diff.

(** One pass of the body of the [do ... while] loop of
    [soil_diffusion_fv_nonlinear]: the solve, the write-back and the scan.
    The result is the object and [max_diff]. *)
Definition fv_nonlinear_pass (dimension size : Z) (periodic : bool)
           (md : LSDRasterModel) : LSDRasterModel * Q :=
  let last_iteration := RasterData md in
  let output := fv_solution md dimension size periodic in
  let md := repack_vector md output dimension in
  let max_diff :=
    fold_left (max_diff_cell (RasterData md) last_iteration)
              (cells (NRows md) (NCols md)) 0 in
  (md, max_diff).

(** The [do ... while (max_diff > epsilon && iter < max_iter)] loop.  The
    body declares an [itl::basic_iteration] named [iter], which hides the
    counter [int iter] up to the end of the block: the [++iter] that closes
    the body increments that object, and the [int iter] the condition tests
    stays 0.  With [max_iter] 200 the second conjunct always holds, so the loop
    has no bound; [fuel] counts the passes of the model and [None] means the
    fuel ran out. *)
Fixpoint fv_nonlinear_loop (fuel : nat) (dimension size : Z) (periodic : bool)
         (md : LSDRasterModel) : option LSDRasterModel :=
  match fuel with
  | O => None
  | S fuel' =>
      let max_iter := 200%Z in
      let iter := 0%Z in
      let epsilon := 1 # 100000 in
      let '(md, max_diff) := fv_nonlinear_pass dimension size periodic md in
      if Qlt_bool epsilon max_diff && (iter <? max_iter)%Z
      then fv_nonlinear_loop fuel' dimension size periodic md
      else Some md
  end.

(** The object after [k] passes of the loop body. *)
Fixpoint fv_nonlinear_passes (k : nat) (dimension size : Z) (periodic : bool)
         (md : LSDRasterModel) : LSDRasterModel :=
  match k with
  | O => md
  | S k' =>
      fv_nonlinear_passes k' dimension size periodic
        (fst (fv_nonlinear_pass dimension size periodic md))
  end.

Definition soil_diffusion_fv_nonlinear (fuel : nat) (md : LSDRasterModel)
           (periodic0 : bool) : option LSDRasterModel :=
  let '(dimension, periodic, size) := interpret_boundary md periodic0 in
  fv_nonlinear_loop fuel dimension size periodic md.

(** *** Fluvial incision *)

(** [dx] as the [switch] on the flow length code leaves it. *)
Definition flow_dx (md : LSDRasterModel) (flow : LSDFlowInfo) (node : Z) : Q :=
  let root_2 := pow 2 (1 # 2) in
  let code := retrieve_flow_length_code_of_node flow node in
  if (code =? 0)%Z then -99
  else if (code =? 1)%Z then DataResolution md
  else if (code =? 2)%Z then DataResolution md * root_2
  else -99.

Definition drainage_area (md : LSDRasterModel) (flow : LSDFlowInfo) (node : Z) : Q :=
  inject_Z (retrieve_contributing_pixels_of_node flow node) *
  DataResolution md * DataResolution md.

(** The correction [epsilon] of one Newton pass at [new_zeta]. *)
Definition newton_epsilon (n_ streamPowerFactor dx zeta_receiver
                           old_zeta new_zeta : Q) : Q :=
  let slope := (new_zeta - zeta_receiver) / dx in
  (new_zeta - old_zeta + streamPowerFactor * pow slope n_) /
  (1 + streamPowerFactor * (n_ / dx) * pow slope (n_ - 1)).

(** The [do ... while (abs(epsilon > 0.001))] loop.  The argument of [abs]
    is the comparison itself, so the loop goes on exactly while
    [epsilon > 0.001].  The loop has no counter; [fuel] bounds the passes
    of the model and [None] means the fuel ran out.  The result is the
    final [new_zeta]. *)
Fixpoint newton_loop (fuel : nat) (n_ streamPowerFactor dx zeta_receiver
                      old_zeta new_zeta : Q) : option Q :=
  match fuel with
  | O => None
  | S fuel' =>
      let epsilon :=
        newton_epsilon n_ streamPowerFactor dx zeta_receiver old_zeta new_zeta in
      let new_zeta := new_zeta - epsilon in
      if Qlt_bool (1 # 1000) epsilon
      then newton_loop fuel' n_ streamPowerFactor dx zeta_receiver old_zeta new_zeta
      else Some new_zeta
  end.

(** [new_zeta] after [k] passes of the loop body. *)
Fixpoint newton_iterate (k : nat) (n_ streamPowerFactor dx zeta_receiver
                         old_zeta new_zeta : Q) : Q :=
  match k with
  | O => new_zeta
  | S k' =>
      newton_iterate k' n_ streamPowerFactor dx zeta_receiver old_zeta
        (new_zeta -
         newton_epsilon n_ streamPowerFactor dx zeta_receiver old_zeta new_zeta)
  end.

(** The [new_zeta] the non-linear branch computes for [node] on the
    working grid [zeta]. *)
Definition newton_new_zeta (fuel : nat) (md : LSDRasterModel) (flow : LSDFlowInfo)
           (K : Q) (zeta : Array2D) (node : Z) : option Q :=
  let '(row, col) := retrieve_current_row_and_col flow node in
  let '(receiver, receiver_row, receiver_col) :=
    retrieve_receiver_information flow node in
  let streamPowerFactor :=
    K * pow (drainage_area md flow node) (m_exp md) * timeStep md in
  newton_loop fuel (n_exp md) streamPowerFactor (flow_dx md flow node)
              (aget zeta receiver_row receiver_col)
              (aget zeta row col) (aget zeta row col).

(** Whether the step takes the branch [abs(n - 1) < 0.0001]. *)
Definition linear_exponent (md : LSDRasterModel) : bool :=
  Qlt_bool (Qabs (n_exp md - 1)) (1 # 10000).

(** One pass of the loop over [nodeList]; [None] when the Newton loop of
    the node ran out of fuel. *)
Definition fluvial_node (fuel : nat) (md : LSDRasterModel) (flow : LSDFlowInfo)
           (K : Q) (zeta : Array2D) (node : Z) : option Array2D :=
  let '(row, col) := retrieve_current_row_and_col flow node in
  let '(receiver, receiver_row, receiver_col) :=
    retrieve_receiver_information flow node in
  let drainageArea := drainage_area md flow node in
  let dx := flow_dx md flow node in
  if linear_exponent md then
    if Qeq_bool dx (-99) then Some zeta
    else if negb (node =? receiver)%Z then
      let streamPowerFactor :=
        K * pow drainageArea (m_exp md) * (timeStep md / dx) in
      Some (aset zeta row col
              ((aget zeta row col +
                aget zeta receiver_row receiver_col * streamPowerFactor) /
               (1 + streamPowerFactor)))
    else Some zeta
  else
    if Qeq_bool dx (-99) then Some zeta
    else
      match newton_new_zeta fuel md flow K zeta node with
      | Some new_zeta => Some zeta
      | None => None
      end.

Fixpoint fluvial_nodes (fuel : nat) (md : LSDRasterModel) (flow : LSDFlowInfo)
         (K : Q) (nodeList : list Z) (zeta : Array2D) : option Array2D :=
  match nodeList with
  | nil => Some zeta
  | node :: rest =>
      match fluvial_node fuel md flow K zeta node with
      | Some zeta' => fluvial_nodes fuel md flow K rest zeta'
      | None => None
      end
  end.

(** [flow] is the network built from the boundary codes and a copy of the
    grid at the head of the function. *)
Definition fluvial_incision (fuel : nat) (md : LSDRasterModel) (flow : LSDFlowInfo)
  : option LSDRasterModel :=
  let zeta := RasterData md in
  let K := get_K md in
  match fluvial_nodes fuel md flow K (get_SVector flow) zeta with
  | Some zeta' => Some (set_RasterData md zeta')
  | None => None
  end.

(** *** The adaptive creep step *)

(** The four coefficients [DAVE_initiate_assembler_matrix] assigns through
    its reference parameters.  The problem dimension and the index vectors
    it also fills depend on [NRows] and [NCols] only. *)
Definition DAVE_initiate_assembler_matrix (md : LSDRasterModel) : Q * Q * Q * Q :=
  let dx := DataResolution md in
  let dy := DataResolution md in
  let D_nl := get_D md in
  (1 / (dx * dx * S_c md * S_c md),
   1 / (dy * dy * S_c md * S_c md),
   timeStep md * D_nl / (dx * dx),
   timeStep md * D_nl / (dy * dy)).

Definition max_iterations : Z := 10.

(** [residual = sqrt(d * d)], the absolute value of the change of the
    cell between two iterates. *)
Definition residual_cell (this_iter last_iter : Array2D) (max_residual : Q)
           (c : Z * Z) : Q :=
  let residual := Qabs (aget this_iter (fst c) (snd c) -
                        aget last_iter (fst c) (snd c)) in
  if Qlt_bool max_residual residual then residual else max_residual.

Section Creep.

Variables uplift_rate fluvial_erosion_rate : Array2D.
Variable iteration_tolerance : Q.
Variables South_boundary_elevation North_boundary_elevation : Q.

(** The inner [while ((max_residual > iteration_tolerance) &&
    (n_iterations <= max_iterations))].  [k] is at least
    [max_iterations + 1 - n_iterations], the number of passes after
    which the second conjunct fails. *)
Fixpoint creep_inner (k : nat) (coeffs : Q * Q * Q * Q) (md : LSDRasterModel)
         (max_residual : Q) (n_iterations : Z) : LSDRasterModel * Q * Z :=
  match k with
  | O => (md, max_residual, n_iterations)
  | S k' =>
      if Qlt_bool iteration_tolerance max_residual &&
         (n_iterations <=? max_iterations)%Z
      then
        let md := set_zeta_this_iter md
                    (assembler_solution md uplift_rate fluvial_erosion_rate
                       coeffs South_boundary_elevation
                       North_boundary_elevation) in
        let max_residual :=
          fold_left (residual_cell (zeta_this_iter md) (zeta_last_iter md))
                    (cells (NRows md) (NCols md)) 0 in
        let md := set_zeta_last_iter md (zeta_this_iter md) in
        creep_inner k' coeffs md max_residual (n_iterations + 1)%Z
      else (md, max_residual, n_iterations)
  end.

(** The state the outer loop carries: the object, the coefficient
    locals and [max_residual] ([n_iterations] is 0 at the head of every
    pass). *)
Definition creep_state : Type := (LSDRasterModel * (Q * Q * Q * Q) * Q)%type.

(** The iteration count the inner loop of a pass ends with. *)
Definition creep_iterations (st : creep_state) : Z :=
  let '(md, coeffs, max_residual) := st in
  let md := set_zeta_last_iter md (RasterData md) in
  let md := set_zeta_last_timestep md (RasterData md) in
  snd (creep_inner (Z.to_nat (max_iterations + 1)) coeffs md max_residual 0%Z).

(** One pass of [while (continue_switch == false)]; the boolean is
    [continue_switch] at the end of the pass. *)
Definition creep_attempt (st : creep_state) : creep_state * bool :=
  let '(md, coeffs, max_residual) := st in
  let md := set_zeta_last_iter md (RasterData md) in
  let md := set_zeta_last_timestep md (RasterData md) in
  let '(md, max_residual, n_iterations) :=
    creep_inner (Z.to_nat (max_iterations + 1)) coeffs md max_residual 0%Z in
  if (n_iterations =? 1)%Z then
    let dt_new := timeStep md * 2 in
    let md := set_timeStep md dt_new in
    ((md, DAVE_initiate_assembler_matrix md, max_residual), true)
  else if (n_iterations >=? max_iterations)%Z then
    let dt_new := timeStep md / 10 in
    let md := set_zeta_last_iter md (RasterData md) in
    let md := set_timeStep md dt_new in
    ((md, DAVE_initiate_assembler_matrix md, max_residual), false)
  else ((md, coeffs, max_residual), true).

(** The outer loop has no bound; [fuel] counts its passes. *)
Fixpoint creep_outer (fuel : nat) (st : creep_state) : option creep_state :=
  match fuel with
  | O => None
  | S fuel' =>
      let '(st', continue_switch) := creep_attempt st in
      if continue_switch then Some st' else creep_outer fuel' st'
  end.

Definition DAVE_nonlinear_creep_timestep (fuel : nat) (md : LSDRasterModel)
           (coeffs : Q * Q * Q * Q) : option LSDRasterModel :=
  let dt_old := timeStep md in
  match creep_outer fuel (md, coeffs, iteration_tolerance + 1) with
  | Some (md', _, _) =>
      let md' := set_RasterData md' (zeta_this_iter md') in
      Some (set_timeStep md' dt_old)
  | None => None
  end.

End Creep.

(** [find_max_boundary(0)]: the largest elevation of row 0, at least 0. *)
Definition find_max_boundary_0 (md : LSDRasterModel) : Q :=
  fold_left (fun max_val j =>
               if Qlt_bool max_val (aget (RasterData md) 0 j)
               then aget (RasterData md) 0 j else max_val)
            (zseq (NCols md)) 0.

Definition DAVE_wrapper (fuel : nat) (md : LSDRasterModel) : option LSDRasterModel :=
  let South := 0 in
  let North := find_max_boundary_0 md in
  let iteration_tolerance := 1 # 100000 in
  let fluvial_temp := make_array (NRows md) (NCols md) 0 in
  DAVE_nonlinear_creep_timestep (uplift_field md) fluvial_temp iteration_tolerance
    South North fuel md (DAVE_initiate_assembler_matrix md).

End Processes.

(** ** Further members of the class *)

(** A loop whose body assigns [a[i][j]] a value that does not depend on the
    array being filled, or passes the cell over ([None]). *)
Definition write_cells (w : Z * Z -> option Q) (l : list (Z * Z)) (a : Array2D)
  : Array2D :=
  fold_left (fun a c => match w c with
                        | Some v => aset a (fst c) (snd c) v
                        | None => a
                        end) l a.

(** A loop whose body replaces [a[i][j]] by a value computed from the cell's
    own content, or passes the cell over. *)
Definition update_cells (g : Z * Z -> Q -> option Q) (l : list (Z * Z))
           (a : Array2D) : Array2D :=
  fold_left (fun a c => match g c (aget a (fst c) (snd c)) with
                        | Some v => aset a (fst c) (snd c) v
                        | None => a
                        end) l a.

(** A sequence of assignments [a[i][j] = v] with the values fixed
    beforehand. *)
Definition apply_writes (l : list (Z * Z * Q)) (a : Array2D) : Array2D :=
  fold_left (fun a w => aset a (fst (fst w)) (snd (fst w)) (snd w)) l a.

(** *** Airy root of the present topography *)

Definition calculate_airy (md : LSDRasterModel) : Array2D :=
  write_cells
    (fun c => Some (aget (RasterData md) (fst c) (snd c) * rho_c / (rho_m - rho_c)))
    (cells (NRows md) (NCols md))
    (make_array (NRows md) (NCols md) 0).

(** *** Uniform and prescribed uplift

    The two overloads return a new raster; the functions below give its
    data array. *)

Definition uplift_surface_uniform (md : LSDRasterModel) (UpliftRate dt : Q)
  : Array2D :=
  update_cells
    (fun c z => if negb (Qeq_bool (aget (RasterData md) (fst c) (snd c))
                                  (NoDataValue md))
                then Some (z + UpliftRate * dt) else None)
    (cells (NRows md) (NCols md)) (RasterData md).

Definition uplift_surface_field (md : LSDRasterModel) (UpliftRate : Array2D)
           (dt : Q) : Array2D :=
  update_cells
    (fun c z => if negb (Qeq_bool (aget (RasterData md) (fst c) (snd c))
                                  (NoDataValue md))
                then Some (z + aget UpliftRate (fst c) (snd c) * dt) else None)
    (cells (NRows md) (NCols md)) (RasterData md).

(** *** Boundary maximum *)

(** [find_max_boundary(boundary_number)]; a remainder other than 0 or 1
    (a negative odd argument) matches no [case] and leaves 0. *)
Definition find_max_boundary (md : LSDRasterModel) (boundary_number : Z) : Q :=
  let scan (l : list (Z * Z)) :=
    fold_left (fun max_val c =>
                 if Qlt_bool max_val (aget (RasterData md) (fst c) (snd c))
                 then aget (RasterData md) (fst c) (snd c) else max_val) l 0 in
  if (Z.rem boundary_number 2 =? 0)%Z then
    let i := if (boundary_number =? 0)%Z then 0%Z else (NRows md - 1)%Z in
    scan (map (fun j => (i, j)) (zseq (NCols md)))
  else if (Z.rem boundary_number 2 =? 1)%Z then
    let j := if (boundary_number =? 1)%Z then (NCols md - 1)%Z else 0%Z in
    scan (map (fun i => (i, j)) (zseq (NRows md)))
  else 0.

(** *** Periodicity snapped to the time step *)


(** *** Buffered surfaces

    Both functions return a raster of [NRows + 2] by [NCols + 2] cells; the
    functions below give its data array.  The buffer is declared without an
    initial value; it starts here from zeros. *)

Definition create_buffered_surf (md : LSDRasterModel) (b_type : Z) : Array2D :=
  let surf := RasterData md in
  let nr := NRows md in
  let nc := NCols md in
  apply_writes
    ([(0, 0, aget surf 0 0);
      (nr + 1, 0, aget surf (nr - 1) 0);
      (0, nc + 1, aget surf 0 (nc - 1));
      (nr + 1, nc + 1, aget surf (nr - 1) (nc - 1))]%Z ++
     flat_map (fun row => [((row + 1)%Z, 0%Z, aget surf row (nc - 1));
                           ((row + 1)%Z, (nc + 1)%Z, aget surf row 0)])
              (zseq nr) ++
     flat_map (fun col => [(0%Z, (col + 1)%Z, aget surf 0 col);
                           ((nr + 1)%Z, (col + 1)%Z, aget surf (nr - 1) col)])
              (zseq nc) ++
     map (fun c => ((fst c + 1)%Z, (snd c + 1)%Z, aget surf (fst c) (snd c)))
         (cells nr nc))
    (make_array (nr + 2) (nc + 2) 0).

Definition create_buffered_surf_fixed (md : LSDRasterModel)
           (South_boundary_elevation North_boundary_elevation : Q) : Array2D :=
  let surf := RasterData md in
  let nr := NRows md in
  let nc := NCols md in
  apply_writes
    (flat_map (fun row => [((row + 1)%Z, 0%Z, aget surf row (nc - 1));
                           ((row + 1)%Z, (nc + 1)%Z, aget surf row 0)])
              (zseq nr) ++
     flat_map (fun col => [(0%Z, col, South_boundary_elevation);
                           ((nr + 1)%Z, col, North_boundary_elevation)])
              (zseq (nc + 2)) ++
     map (fun c => ((fst c + 1)%Z, (snd c + 1)%Z, aget surf (fst c) (snd c)))
         (cells nr nc))
    (make_array (nr + 2) (nc + 2) 0).

(** *** Index vectors of the assembly matrix *)

(** The five vectors [k_value_i_j], [k_value_ip1_j], [k_value_im1_j],
    [k_value_i_jp1] and [k_value_i_jm1]. *)
Definition k_vectors : Type :=
  (list Z * list Z * list Z * list Z * list Z)%type.

(** The body of the double loop of [calculate_k_values_for_assembly_matrix];
    the state is the five vectors and [counter]. *)
Definition k_values_step (NCols : Z) (st : k_vectors * Z) (c : Z * Z)
  : k_vectors * Z :=
  let '(k_i_j, k_ip1_j, k_im1_j, k_i_jp1, k_i_jm1, counter) := st in
  let '(row, col) := c in
  let n := Z.to_nat counter in
  let k_ip1_j := list_set k_ip1_j n (NCols * (row + 2) + col)%Z in
  let k_im1_j := list_set k_im1_j n (NCols * row + col)%Z in
  let k_i_j := list_set k_i_j n (NCols * (row + 1) + col)%Z in
  if (col =? 0)%Z then
    (k_i_j, k_ip1_j, k_im1_j,
     list_set k_i_jp1 n (NCols * (row + 1) + col + 1)%Z,
     list_set k_i_jm1 n (NCols * (row + 1) + NCols - 1)%Z, (counter + 1)%Z)
  else if (col =? NCols - 1)%Z then
    (k_i_j, k_ip1_j, k_im1_j,
     list_set k_i_jp1 n (NCols * (row + 1))%Z,
     list_set k_i_jm1 n (NCols * (row + 1) + col - 1)%Z, (counter + 1)%Z)
  else
    (k_i_j, k_ip1_j, k_im1_j,
     list_set k_i_jp1 n (NCols * (row + 1) + col + 1)%Z,
     list_set k_i_jm1 n (NCols * (row + 1) + col - 1)%Z, (counter + 1)%Z).

Definition calculate_k_values_for_assembly_matrix (NRows NCols : Z) : k_vectors :=
  let empty_vec := repeat 0%Z (Z.to_nat (NRows * NCols)) in
  fst (fold_left (k_values_step NCols) (cells NRows NCols)
                 (empty_vec, empty_vec, empty_vec, empty_vec, empty_vec, 0%Z)).

(** The body of the double loop of
    [DAVE_calculate_k_values_for_assembly_matrix]. *)
Definition DAVE_k_values_step (NCols : Z) (st : k_vectors * Z) (c : Z * Z)
  : k_vectors * Z :=
  let '(k_i_j, k_ip1_j, k_im1_j, k_i_jp1, k_i_jm1, counter) := st in
  let '(row, col) := c in
  let n := Z.to_nat counter in
  let k_ip1_j := list_set k_ip1_j n (NCols * (row + 1) + col)%Z in
  let k_im1_j := list_set k_im1_j n (NCols * (row - 1) + col)%Z in
  let k_i_j := list_set k_i_j n (NCols * row + col)%Z in
  if (col =? 0)%Z then
    (k_i_j, k_ip1_j, k_im1_j,
     list_set k_i_jp1 n (NCols * row + col + 1)%Z,
     list_set k_i_jm1 n (NCols * row + NCols - 1)%Z, (counter + 1)%Z)
  else if (col =? NCols - 1)%Z then
    (k_i_j, k_ip1_j, k_im1_j,
     list_set k_i_jp1 n (NCols * row)%Z,
     list_set k_i_jm1 n (NCols * row + col - 1)%Z, (counter + 1)%Z)
  else
    (k_i_j, k_ip1_j, k_im1_j,
     list_set k_i_jp1 n (NCols * row + col + 1)%Z,
     list_set k_i_jm1 n (NCols * row + col - 1)%Z, (counter + 1)%Z).

(** The loop runs over rows 1 to [NRows - 2] of the raster. *)
Definition DAVE_calculate_k_values_for_assembly_matrix (NRows NCols : Z)
  : k_vectors :=
  let empty_vec := repeat 0%Z (Z.to_nat ((NRows - 2) * NCols)) in
  fst (fold_left (DAVE_k_values_step NCols)
                 (flat_map (fun i => map (fun j => (i, j)) (zseq NCols))
                           (zrange 1 (NRows - 2)))
                 (empty_vec, empty_vec, empty_vec, empty_vec, empty_vec, 0%Z)).

Section FurtherProcesses.

Variable pow : Q -> Q -> Q.
Variable sin : Q -> Q.
Variable stream_K_soil : LSDRasterModel -> Q.

(** *** Erosion rates of the last step *)



(** The arguments [mode] and [max_uplift] are not read by the body. *)
Definition generate_uplift_field (md : LSDRasterModel) (mode : Z) (max_uplift : Q)
  : Array2D :=
  write_cells (fun c => Some (get_uplift_at_cell pow md (fst c) (snd c)))
              (cells (NRows md) (NCols md))
              (make_array (NRows md) (NCols md) 0).

(** The cell is assigned the rate and then 0 if the rate is negative; the
    value the cell is left with is given in one step. *)
Definition calculate_fluvial_erosion_rate (md : LSDRasterModel)
           (ChannelWidth Q_w TopoDivergence : Array2D) (K n_ m_ eros_thresh : Q)
  : Array2D :=
  write_cells
    (fun c =>
       let rate :=
         K * (aget ChannelWidth (fst c) (snd c) / DataResolution md) *
         pow (aget TopoDivergence (fst c) (snd c)) n_ *
         pow (aget Q_w (fst c) (snd c)) m_ - eros_thresh in
       Some (if Qlt_bool rate 0 then 0 else rate))
    (cells (NRows md) (NCols md))
    (make_array (NRows md) (NCols md) 0).

(** *** The right-hand side of the linear hillslope system *)

(** [push_val] of [build_fd_vector] at cell [(i, j)]; the second test of
    the north-south case compares [j] with [NRows - 2], as the source
    does. *)
Definition fd_push_val (md : LSDRasterModel) (dimension : Z) (c : Z * Z) : Q :=
  let r := get_D sin stream_K_soil md * timeStep md /
           (DataResolution md * DataResolution md) in
  let '(i, j) := c in
  let push_val := aget (RasterData md) i j in
  if (dimension =? 0)%Z then
    if (i =? 1)%Z then push_val + aget (RasterData md) 0 j * r
    else if (j =? NRows md - 2)%Z
    then push_val + aget (RasterData md) (NRows md - 1) j * r
    else push_val
  else if (dimension =? 1)%Z then
    if (j =? 1)%Z then push_val + aget (RasterData md) i 0 * r
    else if (j =? NCols md - 2)%Z
    then push_val + aget (RasterData md) i (NCols md - 1) * r
    else push_val
  else push_val.

(** The vector is declared with [size] entries and no initial value (zeros
    here) and filled at [vector_pos] over the cells [repack_vector] visits. *)
Definition build_fd_vector (md : LSDRasterModel) (dimension size : Z) : list Q :=
  fst (fold_left
         (fun st c => (list_set (fst st) (Z.to_nat (snd st))
                                (fd_push_val md dimension c),
                       (snd st + 1)%Z))
         (repack_cells md dimension)
         (repeat 0 (Z.to_nat size), 0%Z)).

(** *** Fluvial erosion rate without moving the surface *)

(** One pass of the loop of [fluvial_erosion_rate] over the stack; the
    state is [erosionRate].  The working copy [zeta] is never assigned, so
    it is the grid of the object throughout.  This function does not pass
    over nodes whose [dx] is -99. *)
Definition fluvial_erosion_rate_node (fuel : nat) (md : LSDRasterModel)
           (flow : LSDFlowInfo) (timestep K m_ n_ : Q)
           (erosionRate : Array2D) (node : Z) : option Array2D :=
  let '(row, col) := retrieve_current_row_and_col flow node in
  let '(receiver, receiver_row, receiver_col) :=
    retrieve_receiver_information flow node in
  let drainageArea := drainage_area md flow node in
  let dx := flow_dx pow md flow node in
  let zeta := RasterData md in
  if Qlt_bool (Qabs (n_ - 1)) (1 # 10000) then
    if (node =? receiver)%Z then Some (aset erosionRate row col 0)
    else
      let streamPowerFactor := K * pow drainageArea m_ * (timestep / dx) in
      Some (aset erosionRate row col
              (((aget zeta row col +
                 aget zeta receiver_row receiver_col * streamPowerFactor) /
                (1 + streamPowerFactor) - aget zeta row col) / timestep))
  else
    let old_zeta := aget zeta row col in
    let streamPowerFactor := K * pow drainageArea m_ * timestep in
    match newton_loop pow fuel n_ streamPowerFactor dx
            (aget zeta receiver_row receiver_col) old_zeta old_zeta with
    | Some new_zeta =>
        Some (aset erosionRate row col ((new_zeta - old_zeta) / timestep))
    | None => None
    end.

Fixpoint fluvial_erosion_rate_nodes (fuel : nat) (md : LSDRasterModel)
         (flow : LSDFlowInfo) (timestep K m_ n_ : Q) (nodes : list Z)
         (erosionRate : Array2D) : option Array2D :=
  match nodes with
  | nil => Some erosionRate
  | node :: rest =>
      match fluvial_erosion_rate_node fuel md flow timestep K m_ n_
              erosionRate node with
      | Some e => fluvial_erosion_rate_nodes fuel md flow timestep K m_ n_ rest e
      | None => None
      end
  end.

(** The loop runs from the last node of the stack to the first; [flow] is
    the network built from [boundary] and the raster. *)
Definition fluvial_erosion_rate (fuel : nat) (md : LSDRasterModel)
           (flow : LSDFlowInfo) (timestep K m_ n_ : Q) : option Array2D :=
  fluvial_erosion_rate_nodes fuel md flow timestep K m_ n_
    (rev (get_SVector flow))
    (make_array (NRows md) (NCols md) (NoDataValue md)).

End FurtherProcesses.

(** A vector filled at a running counter, one entry per element of [l]:
    the pattern of [build_fd_vector] and of each index vector. *)
Definition counter_fill {A B : Type} (f : A -> B) (l : list A) (vec : list B)
           (counter : Z) : list B * Z :=
  fold_left (fun st c => (list_set (fst st) (Z.to_nat (snd st)) (f c),
                          (snd st + 1)%Z))
            l (vec, counter).

(** *** Passes of the adaptive time-step loop *)

Section CreepPasses.

Variable assembler_solution :
  LSDRasterModel -> Array2D -> Array2D -> Q * Q * Q * Q -> Q -> Q -> Array2D.
Variables uplift_rate fluvial_erosion_rate : Array2D.
Variable iteration_tolerance : Q.
Variables South_boundary_elevation North_boundary_elevation : Q.

(** The object and [max_residual] the inner loop of a pass of
    [DAVE_nonlinear_creep_timestep] ends with. *)
Definition creep_pass_result (st : creep_state) : LSDRasterModel * Q :=
  let '(md, coeffs, max_residual) := st in
  let md := set_zeta_last_iter md (RasterData md) in
  let md := set_zeta_last_timestep md (RasterData md) in
  fst (creep_inner assembler_solution uplift_rate fluvial_erosion_rate
         iteration_tolerance South_boundary_elevation North_boundary_elevation
         (Z.to_nat (max_iterations + 1)) coeffs md max_residual 0%Z).

End CreepPasses.

(** ** Sample objects

    Small concrete grids and objects on which the statements below are
    evaluated. *)

(** A sample object on a grid of the given size filled with [z0], with a
    cell size of 10.  The boundary codes, time step, end time, uplift,
    exponents, erodibility, diffusivity, periods, weights, amplitudes and
    steady-state settings are those [default_parameters] assigns.  [S_c] is
    not: the source stores the tangent of 30 degrees, the sample the
    rational 30.  The members [default_parameters] leaves alone are 0, 1 for
    [cycle_number], or empty. *)
Definition default_model (nr nc : Z) (z0 : Q) : LSDRasterModel :=
  {| NRows := nr; NCols := nc; DataResolution := 10; NoDataValue := -99;
     RasterData := make_array nr nc z0;
     steady_state := false; initial_steady_state := false;
     cycle_steady_check := false;
     boundary_conditions := ["b"; "p"; "b"; "p"]%string;
     current_time := 0; time_delay := 0; timeStep := 100; endTime := 10000;
     endTime_mode := 0; uplift_field := make_array nr nc 0;
     uplift_mode := 0; max_uplift := 5 # 10000;
     steady_state_tolerance := 1 # 10000; steady_state_limit := -1;
     m_exp := 1 # 2; n_exp := 1; K_fluv := 2 # 10000; K_soil := 2 # 100;
     S_c := 30; root_depth := make_array nr nc 0;
     erosion_cycle_record := [];
     zeta_old := make_array nr nc z0;
     K_mode := 0; D_mode := 0; period_mode := 1;
     K_amplitude := 1 # 1000; D_amplitude := 1 # 1000;
     periodicity := 10000; periodicity_2 := 20000; cycle_number := 1;
     p_weight := 8 # 10; switch_time := 5000; switch_delay := 0;
     zeta_last_iter := []; zeta_last_timestep := []; zeta_this_iter := [] |}.

(** Stand-ins for the library routines on the samples: a power that is
    exact at integral exponents (the samples raise to no other exponent on
    a path they take), a zero sine and constant forcing files. *)
Definition pow_sample (x y : Q) : Q := Qpower x (Qtrunc y).
Definition sin_sample (x : Q) : Q := 0.
Definition stream_sample (md : LSDRasterModel) : Q := 0.

(** A 2 by 2 grid with a root under three of its cells. *)
Definition airy_sample : LSDRasterModel :=
  set_root_depth
    (set_RasterData (default_model 2 2 0) [[100; 250]; [-99; 7 # 2]])
    [[10; 0]; [3; 1 # 2]].

(** Objects whose grid equals the snapshot of the previous step: with the
    default settings; in cycle mode, with the cycle record as [cycle_report]
    first fills it (five entries of -99); and with a negative tolerance. *)
Definition still_sample : LSDRasterModel := default_model 2 2 (7 # 2).
Definition still_cycle_sample : LSDRasterModel :=
  set_erosion_cycle_record (set_cycle_steady_check still_sample true)
    [-99; -99; -99; -99; -99].
Definition still_negative_sample : LSDRasterModel :=
  set_steady_state_tolerance still_sample (-1).

(** A run in end-time mode 1 that is at 200 times its end time without
    having reached steady state. *)
Definition hung_sample : LSDRasterModel :=
  set_current_time (set_endTime_mode (default_model 2 2 0) 1) 2000000.

(** A single column of three cells draining north: node 0 on row 0 is the
    outlet and its own receiver, node 1 drains into node 0 and node 2 into
    node 1, one cell apart. *)
Definition column_flow : LSDFlowInfo :=
  {| get_SVector := [0; 1; 2]%Z;
     retrieve_current_row_and_col := fun node => (node, 0%Z);
     retrieve_receiver_information := fun node =>
       if (node =? 0)%Z then (0, 0, 0)%Z else (node - 1, node - 1, 0)%Z;
     retrieve_contributing_pixels_of_node := fun node => (3 - node)%Z;
     retrieve_flow_length_code_of_node := fun node =>
       if (node =? 0)%Z then 0%Z else 1%Z |}.

(** The column with elevations 0, 10 and 25, a fixed northern edge and
    [m = 1]; then with [K = 0], and with [n = 2]. *)
Definition column_sample : LSDRasterModel :=
  set_m_exp
    (set_boundary_conditions
       (set_RasterData (default_model 3 1 0) [[0]; [10]; [25]])
       ["b"; "n"; "n"; "n"]%string)
    1.
Definition column_K0_sample : LSDRasterModel := set_K_fluv column_sample 0.
Definition column_n2_sample : LSDRasterModel := set_n_exp column_sample 2.

(** A 3 by 3 grid at elevation 10 with all four edges fixed, and a solver
    result that lowers every unknown to 9. *)
Definition four_fixed_sample : LSDRasterModel :=
  set_boundary_conditions (default_model 3 3 10) ["b"; "b"; "b"; "b"]%string.
Definition lowered_solution (md : LSDRasterModel) (dimension size : Z)
           (periodic : bool) : list Q :=
  repeat 9 (Z.to_nat size).

(** Two results of the assembled creep system.  On a flat grid at elevation
    0 with no uplift and boundary elevations 0 the system has the zero grid,
    which is the previous iterate, as its solution: [settled_solution].
    [drifting_solution] lifts the previous iterate by 1 at every solve, as a
    solve that does not settle. *)
Definition settled_solution (md : LSDRasterModel) (uplift_rate fluvial : Array2D)
           (coeffs : Q * Q * Q * Q) (South North : Q) : Array2D :=
  zeta_last_iter md.
Definition drifting_solution (md : LSDRasterModel) (uplift_rate fluvial : Array2D)
           (coeffs : Q * Q * Q * Q) (South North : Q) : Array2D :=
  map (map (Qplus 1)) (zeta_last_iter md).

Definition flat_sample : LSDRasterModel := default_model 3 3 0.

(** A family of starting elevations for the Newton loop: the cell stands at
    [9 ^ bound], its receiver at elevation 0 one unit of distance away, with
    [n = 2] and a stream-power factor of 1. *)
Fixpoint triple_pow (k : nat) : Q :=
  match k with
  | O => 1
  | S k' => 3 * triple_pow k'
  end.
Definition long_newton_start (bound : nat) : Q :=
  triple_pow bound * triple_pow bound.

(** Two cells, the second draining into the first, which is the outlet; and
    the grid with the outlet at elevation 0 and the other cell at
    [long_newton_start bound], with unit cell size, time step and
    erodibility, [m = 1] and [n = 2]. *)
Definition outlet_pair_flow : LSDFlowInfo :=
  {| get_SVector := [0; 1]%Z;
     retrieve_current_row_and_col := fun node => (node, 0%Z);
     retrieve_receiver_information := fun node => (0, 0, 0)%Z;
     retrieve_contributing_pixels_of_node := fun node => (2 - node)%Z;
     retrieve_flow_length_code_of_node := fun node => node |}.
Definition long_run_sample (bound : nat) : LSDRasterModel :=
  set_RasterData
    (set_timeStep
       (set_K_fluv
          (set_n_exp (set_m_exp (set_DataResolution (default_model 2 1 0) 1) 1) 2)
          1)
       1)
    [[0]; [long_newton_start bound]].

(** ** Further sample objects *)

(** A 3 by 3 grid with one no-data cell, fixed north and south edges. *)
Definition patch_sample : LSDRasterModel :=
  set_RasterData (default_model 3 3 0) [[1; 2; 3]; [4; -99; 6]; [7; 8; 9]].


(** A single-cell run in end-time mode 1 whose only process lifts the cell
    by 1 in every pass, so that no pass leaves the grid steady. *)
Definition rising_processes (md : LSDRasterModel) : LSDRasterModel :=
  set_RasterData md (map (map (Qplus 1)) (RasterData md)).
Definition rising_sample : LSDRasterModel :=
  set_endTime_mode (default_model 1 1 0) 1.
Definition rising_run (md : LSDRasterModel) : Prop :=
  initial_steady_state md = false /\ endTime_mode md = 1%Z /\
  cycle_steady_check md = false /\
  steady_state_tolerance md = 1 # 10000 /\ steady_state_limit md = -1 /\
  NRows md = 1%Z /\ NCols md = 1%Z /\ K_mode md = 0%Z /\ D_mode md = 0%Z /\
  exists z, RasterData md = [[z]].


(** A solve that halves the previous iterate, on a single cell at elevation
    1024: the change between iterates first drops to 1 at the tenth solve. *)
Definition halving_solution (md : LSDRasterModel) (uplift_rate fluvial : Array2D)
           (coeffs : Q * Q * Q * Q) (South North : Q) : Array2D :=
  map (map (fun z => z / 2)) (zeta_last_iter md).
Definition peak_sample : LSDRasterModel := default_model 1 1 1024.

(** The sample object on a 2 by 2 grid, past its initial steady state with
    a sine-wave erodibility and two periods to alternate between
    ([period_mode] 2), 6000 years into the run: the first switch, due after
    [switch_time] = 5000, is pending. *)
Definition switching_sample : LSDRasterModel :=
  {| NRows := 2; NCols := 2; DataResolution := 10; NoDataValue := -99;
     RasterData := make_array 2 2 0;
     steady_state := false; initial_steady_state := true;
     cycle_steady_check := false;
     boundary_conditions := ["b"; "p"; "b"; "p"]%string;
     current_time := 6000; time_delay := 0; timeStep := 100; endTime := 10000;
     endTime_mode := 0; uplift_field := make_array 2 2 0;
     uplift_mode := 0; max_uplift := 5 # 10000;
     steady_state_tolerance := 1 # 10000; steady_state_limit := -1;
     m_exp := 1 # 2; n_exp := 1; K_fluv := 2 # 10000; K_soil := 2 # 100;
     S_c := 30; root_depth := make_array 2 2 0;
     erosion_cycle_record := [];
     zeta_old := make_array 2 2 0;
     K_mode := 1; D_mode := 0; period_mode := 2;
     K_amplitude := 1 # 1000; D_amplitude := 1 # 1000;
     periodicity := 10000; periodicity_2 := 20000; cycle_number := 1;
     p_weight := 8 # 10; switch_time := 5000; switch_delay := 0;
     zeta_last_iter := []; zeta_last_timestep := []; zeta_this_iter := [] |}.

(** * Properties *)

(** ** Lists and arrays *)

Lemma list_set_length {A : Type} (l : list A) (k : nat) (v : A) :
  length (list_set l k v) = length l.
Proof.
  revert k; induction l as [|h t IH]; intros [|k]; simpl; auto.
Qed.

Lemma list_set_beyond {A : Type} (l : list A) (k : nat) (v : A) :
  (length l <= k)%nat -> list_set l k v = l.
Proof.
  revert k; induction l as [|h t IH]; intros [|k] H; simpl in *; auto; try lia.
  f_equal; apply IH; lia.
Qed.

Lemma nth_list_set_same {A : Type} (l : list A) (k : nat) (v d : A) :
  (k < length l)%nat -> nth k (list_set l k v) d = v.
Proof.
  revert k; induction l as [|h t IH]; intros [|k] H; simpl in *; auto; try lia.
  apply IH; lia.
Qed.

Lemma nth_list_set_other {A : Type} (l : list A) (k k' : nat) (v d : A) :
  k <> k' -> nth k' (list_set l k v) d = nth k' l d.
Proof.
  revert k k'; induction l as [|h t IH]; intros [|k] [|k'] H; simpl; auto.
  congruence.
Qed.

Lemma has_dims_inside a nr nc i j :
  has_dims a nr nc -> (0 <= i < nr)%Z -> (0 <= j < nc)%Z -> inside a i j.
Proof.
  intros [Hr Hc] Hi Hj. split; [lia|].
  rewrite Forall_forall in Hc.
  rewrite (Hc (nth (Z.to_nat i) a nil)); [lia|].
  apply nth_In. lia.
Qed.

Lemma aget_aset_same a i j v :
  inside a i j -> aget (aset a i j v) i j = v.
Proof.
  intros [Hi Hj]. unfold aget, aset.
  destruct (i <? 0)%Z eqn:Ei; [apply Z.ltb_lt in Ei; lia|].
  destruct (j <? 0)%Z eqn:Ej; [apply Z.ltb_lt in Ej; lia|].
  simpl. rewrite nth_list_set_same by lia.
  apply nth_list_set_same. lia.
Qed.

Lemma aget_aset_other a i j v i' j' :
  (i, j) <> (i', j') -> aget (aset a i j v) i' j' = aget a i' j'.
Proof.
  intros Hne. unfold aget, aset.
  destruct ((i <? 0)%Z || (j <? 0)%Z) eqn:E; [reflexivity|].
  destruct ((i' <? 0)%Z || (j' <? 0)%Z) eqn:E'; [reflexivity|].
  apply orb_false_iff in E as [Ei Ej]. apply orb_false_iff in E' as [Ei' Ej'].
  apply Z.ltb_ge in Ei, Ej, Ei', Ej'.
  destruct (Z.eq_dec i i') as [->|Hi].
  - assert (Hj : j <> j') by congruence.
    destruct (Nat.lt_ge_cases (Z.to_nat i') (length a)) as [Hin|Hout].
    + rewrite nth_list_set_same by assumption.
      apply nth_list_set_other. lia.
    + rewrite list_set_beyond by assumption. reflexivity.
  - rewrite nth_list_set_other by lia. reflexivity.
Qed.

(** A write either lands on the cell read afterwards or leaves it alone. *)
Lemma aget_aset_cases a i j v i' j' :
  (i = i' /\ j = j' /\ aget (aset a i j v) i' j' = v) \/
  aget (aset a i j v) i' j' = aget a i' j'.
Proof.
  destruct (Z.eq_dec i i') as [->|Hi];
    [destruct (Z.eq_dec j j') as [->|Hj]|].
  - unfold aget, aset.
    destruct ((i' <? 0)%Z || (j' <? 0)%Z) eqn:E; [right; reflexivity|].
    apply orb_false_iff in E as [Ei Ej]. apply Z.ltb_ge in Ei, Ej.
    destruct (Nat.lt_ge_cases (Z.to_nat i') (length a)) as [Hin|Hout].
    + rewrite nth_list_set_same by assumption.
      destruct (Nat.lt_ge_cases (Z.to_nat j')
                  (length (nth (Z.to_nat i') a nil))) as [Hjn|Hjo].
      * left. rewrite nth_list_set_same by assumption. auto.
      * right. rewrite list_set_beyond by assumption. reflexivity.
    + right. rewrite list_set_beyond by assumption. reflexivity.
  - right. apply aget_aset_other. congruence.
  - right. apply aget_aset_other. congruence.
Qed.

Lemma has_dims_aset a nr nc i j v :
  has_dims a nr nc -> has_dims (aset a i j v) nr nc.
Proof.
  intros [Hr Hc]. unfold aset.
  destruct ((i <? 0)%Z || (j <? 0)%Z); [split; assumption|].
  split; [rewrite list_set_length; assumption|].
  rewrite Forall_forall in *. intros r Hin.
  apply In_nth with (d := nil) in Hin as (k & Hk & <-).
  rewrite list_set_length in Hk.
  destruct (Nat.eq_dec (Z.to_nat i) k) as [<-|Hne].
  - rewrite nth_list_set_same by assumption. rewrite list_set_length.
    apply Hc. apply nth_In. assumption.
  - rewrite nth_list_set_other by assumption. apply Hc. apply nth_In. assumption.
Qed.

Lemma In_zseq k n : In k (zseq n) <-> (0 <= k < n)%Z.
Proof.
  unfold zseq. rewrite in_map_iff. split.
  - intros (x & <- & Hx). apply in_seq in Hx. lia.
  - intros H. exists (Z.to_nat k). split; [lia|]. apply in_seq. lia.
Qed.

Lemma NoDup_zseq n : NoDup (zseq n).
Proof.
  unfold zseq. apply Injective_map_NoDup; [|apply seq_NoDup].
  intros x y H. lia.
Qed.

Lemma In_zrange k lo hi : In k (zrange lo hi) <-> (lo <= k <= hi)%Z.
Proof.
  unfold zrange. rewrite in_map_iff. split.
  - intros (x & <- & Hx). apply in_seq in Hx. lia.
  - intros H. exists (Z.to_nat (k - lo)). split; [lia|]. apply in_seq. lia.
Qed.

Lemma In_grid (rows cols : list Z) i j :
  In (i, j) (flat_map (fun i => map (fun j => (i, j)) cols) rows) <->
  In i rows /\ In j cols.
Proof.
  rewrite in_flat_map. split.
  - intros (x & Hx & Hin). apply in_map_iff in Hin as (y & Heq & Hy).
    inversion Heq; subst. auto.
  - intros [Hi Hj]. exists i. split; [assumption|].
    apply in_map_iff. exists j. auto.
Qed.

Lemma NoDup_grid (rows cols : list Z) :
  NoDup rows -> NoDup cols ->
  NoDup (flat_map (fun i => map (fun j => (i, j)) cols) rows).
Proof.
  intros Hr Hc. induction Hr as [|r rows Hnot Hr IH]; simpl; [constructor|].
  apply NoDup_app.
  - apply Injective_map_NoDup; [|assumption].
    intros x y H; congruence.
  - assumption.
  - intros [i j] H1 H2.
    apply in_map_iff in H1 as (y & Heq & _). inversion Heq; subst.
    apply In_grid in H2 as [H2 _]. contradiction.
Qed.

Lemma In_cells i j nr nc :
  In (i, j) (cells nr nc) <-> (0 <= i < nr)%Z /\ (0 <= j < nc)%Z.
Proof. unfold cells. rewrite In_grid, !In_zseq. reflexivity. Qed.

Lemma NoDup_cells nr nc : NoDup (cells nr nc).
Proof. apply NoDup_grid; apply NoDup_zseq. Qed.

(** ** Airy isostasy *)

Lemma Airy_fold_spec nr nc : forall l z r,
  NoDup l -> has_dims z nr nc -> has_dims r nr nc ->
  (forall i j, In (i, j) l -> (0 <= i < nr)%Z /\ (0 <= j < nc)%Z) ->
  let st := fold_left Airy_cell l (z, r) in
  has_dims (fst st) nr nc /\ has_dims (snd st) nr nc /\
  forall i j,
    (In (i, j) l ->
     aget (snd st) i j = (aget z i j + aget r i j) / (1 + zeta_root) /\
     aget (fst st) i j =
       (aget z i j + aget r i j) - (aget z i j + aget r i j) / (1 + zeta_root)) /\
    (~ In (i, j) l ->
     aget (fst st) i j = aget z i j /\ aget (snd st) i j = aget r i j).
Proof.
  induction l as [|[a b] l IH]; intros z r Hnd Hz Hr Hin; simpl.
  - split; [assumption|]. split; [assumption|].
    intros i j. split; [contradiction | auto].
  - inversion Hnd as [|? ? Hnot Hnd']; subst.
    destruct (Hin a b (or_introl eq_refl)) as [Ha Hb].
    set (load := aget z a b + aget r a b).
    set (r1 := aset r a b (load / (1 + zeta_root))).
    set (z1 := aset z a b (load - aget r1 a b)).
    assert (Hr1 : aget r1 a b = load / (1 + zeta_root)).
    { apply aget_aset_same. eapply has_dims_inside; eauto. }
    assert (Hz1 : aget z1 a b = load - load / (1 + zeta_root)).
    { unfold z1. rewrite aget_aset_same, Hr1; [reflexivity|].
      eapply has_dims_inside; eauto. }
    destruct (IH z1 r1 Hnd') as (Hd1 & Hd2 & Hcells).
    + apply has_dims_aset; assumption.
    + apply has_dims_aset; assumption.
    + intros i j H. apply Hin. right; assumption.
    + split; [assumption|]. split; [assumption|].
      intros i j. destruct (Hcells i j) as [Hvis Hnot'].
      split.
      * intros [Heq|Hl].
        -- inversion Heq; subst i j.
           destruct (Hnot' Hnot) as [E1 E2]. rewrite E1, E2, Hz1, Hr1. auto.
        -- assert (Hne : (a, b) <> (i, j)) by (intros E; rewrite E in Hnot; auto).
           destruct (Hvis Hl) as [E1 E2]. rewrite E1, E2.
           unfold z1, r1. rewrite !aget_aset_other by assumption. auto.
      * intros Hn.
        assert (Hne : (a, b) <> (i, j)) by (intros E; apply Hn; left; assumption).
        destruct Hnot' as [E1 E2]; [intros H; apply Hn; right; assumption|].
        rewrite E1, E2. unfold z1, r1.
        rewrite !aget_aset_other by assumption. auto.
Qed.

Lemma Airy_isostasy_cell md i j :
  well_sized md -> (0 <= i < NRows md)%Z -> (0 <= j < NCols md)%Z ->
  let load := aget (RasterData md) i j + aget (root_depth md) i j in
  aget (root_depth (Airy_isostasy md)) i j = load / (1 + zeta_root) /\
  aget (RasterData (Airy_isostasy md)) i j = load - load / (1 + zeta_root).
Proof.
  intros [Hz Hr] Hi Hj.
  destruct (Airy_fold_spec (NRows md) (NCols md) (cells (NRows md) (NCols md))
              (RasterData md) (root_depth md)) as (_ & _ & Hcells);
    auto using NoDup_cells.
  - intros a b H. apply In_cells in H. assumption.
  - destruct (Hcells i j) as [Hvis _].
    destruct Hvis as [E1 E2]; [apply In_cells; auto|].
    unfold Airy_isostasy; simpl. auto.
Qed.

Lemma Airy_isostasy_well_sized md :
  well_sized md -> well_sized (Airy_isostasy md).
Proof.
  intros [Hz Hr].
  destruct (Airy_fold_spec (NRows md) (NCols md) (cells (NRows md) (NCols md))
              (RasterData md) (root_depth md)) as (H1 & H2 & _);
    auto using NoDup_cells.
  - intros a b H. apply In_cells in H. assumption.
  - split; unfold Airy_isostasy; simpl; assumption.
Qed.

(** C10. One application of [Airy_isostasy] keeps, at every cell of the
    grid, the sum of elevation and root depth: the sum after the call equals
    the sum before it.  No cell is exempted, base-level and no-data cells
    included, since the loop tests neither. *)
Theorem Airy_isostasy_conserves_load md i j :
  well_sized md -> (0 <= i < NRows md)%Z -> (0 <= j < NCols md)%Z ->
  aget (RasterData (Airy_isostasy md)) i j +
  aget (root_depth (Airy_isostasy md)) i j ==
  aget (RasterData md) i j + aget (root_depth md) i j.
Proof.
  intros Hw Hi Hj.
  destruct (Airy_isostasy_cell md i j Hw Hi Hj) as [Er Ez].
  rewrite Er, Ez. ring.
Qed.

(** C8. [Airy_isostasy] is idempotent: after a second application, with
    nothing changed in between, the per-cell sum of elevation and root depth
    is the one left by the first application; so are the elevation and the
    root depth themselves. *)
Theorem Airy_isostasy_idempotent md i j :
  well_sized md -> (0 <= i < NRows md)%Z -> (0 <= j < NCols md)%Z ->
  let once := Airy_isostasy md in
  let twice := Airy_isostasy once in
  aget (RasterData twice) i j + aget (root_depth twice) i j ==
  aget (RasterData once) i j + aget (root_depth once) i j /\
  aget (RasterData twice) i j == aget (RasterData once) i j /\
  aget (root_depth twice) i j == aget (root_depth once) i j.
Proof.
  intros Hw Hi Hj once twice.
  destruct (Airy_isostasy_cell md i j Hw Hi Hj) as [Er Ez].
  destruct (Airy_isostasy_cell once i j (Airy_isostasy_well_sized md Hw) Hi Hj)
    as [Er2 Ez2].
  fold once in Er, Ez. fold twice in Er2, Ez2.
  rewrite Er2, Ez2, Er, Ez.
  assert (Hc : ~ 1 + zeta_root == 0) by (vm_compute; discriminate).
  repeat split; field; assumption.
Qed.

Ltac sized := repeat split; try reflexivity; repeat constructor.

Lemma Airy_isostasy_conserves_load_witness :
  well_sized airy_sample /\
  (0 <= 1 < NRows airy_sample)%Z /\ (0 <= 0 < NCols airy_sample)%Z /\
  aget (RasterData (Airy_isostasy airy_sample)) 1 0 +
  aget (root_depth (Airy_isostasy airy_sample)) 1 0 ==
  aget (RasterData airy_sample) 1 0 + aget (root_depth airy_sample) 1 0.
Proof.
  assert (Hw : well_sized airy_sample) by sized.
  assert (Hi : (0 <= 1 < NRows airy_sample)%Z) by (simpl; lia).
  assert (Hj : (0 <= 0 < NCols airy_sample)%Z) by (simpl; lia).
  split; [exact Hw|]. split; [exact Hi|]. split; [exact Hj|].
  apply (Airy_isostasy_conserves_load airy_sample 1 0 Hw Hi Hj).
Defined.

Lemma Airy_isostasy_idempotent_witness :
  well_sized airy_sample /\
  (0 <= 0 < NRows airy_sample)%Z /\ (0 <= 0 < NCols airy_sample)%Z /\
  aget (RasterData (Airy_isostasy (Airy_isostasy airy_sample))) 0 0 +
  aget (root_depth (Airy_isostasy (Airy_isostasy airy_sample))) 0 0 ==
  aget (RasterData (Airy_isostasy airy_sample)) 0 0 +
  aget (root_depth (Airy_isostasy airy_sample)) 0 0.
Proof.
  assert (Hw : well_sized airy_sample) by sized.
  assert (Hi : (0 <= 0 < NRows airy_sample)%Z) by (simpl; lia).
  assert (Hj : (0 <= 0 < NCols airy_sample)%Z) by (simpl; lia).
  split; [exact Hw|]. split; [exact Hi|]. split; [exact Hj|].
  apply (Airy_isostasy_idempotent airy_sample 0 0 Hw Hi Hj).
Defined.

(** ** Steady state *)

Lemma Qlt_bool_false a b : Qlt_bool a b = false <-> b <= a.
Proof.
  unfold Qlt_bool. rewrite negb_false_iff. apply Qle_bool_iff.
Qed.

Lemma Qlt_bool_true a b : Qlt_bool a b = true <-> a < b.
Proof.
  unfold Qlt_bool. rewrite negb_true_iff. split.
  - intros H. apply Qnot_le_lt. intros Hle.
    apply Qle_bool_iff in Hle. congruence.
  - intros H. destruct (Qle_bool b a) eqn:E; [|reflexivity].
    apply Qle_bool_iff in E. exfalso. apply (Qlt_not_le _ _ H E).
Qed.

(** C5, as the spec states it, fails on two objects whose grid equals the
    previous-step snapshot cell for cell: one checks steady state from
    cycle to cycle and has no cycle on record yet, the other has a negative
    tolerance.  Both are left with the flag false. *)
Lemma check_steady_state_equal_grids_not_steady :
  (RasterData still_cycle_sample = zeta_old still_cycle_sample /\
   steady_state (check_steady_state still_cycle_sample) = false) /\
  (RasterData still_negative_sample = zeta_old still_negative_sample /\
   steady_state (check_steady_state still_negative_sample) = false).
Proof. repeat split. Qed.

(** C5, amended.  When steady state is not checked from cycle to cycle and
    the tolerance is not negative, a grid that equals the previous-step
    snapshot at every cell makes [check_steady_state] set the flag. *)
Theorem check_steady_state_equal_grids md :
  cycle_steady_check md = false ->
  0 <= steady_state_tolerance md ->
  (forall i j, (0 <= i < NRows md)%Z -> (0 <= j < NCols md)%Z ->
               aget (RasterData md) i j == aget (zeta_old md) i j) ->
  steady_state (check_steady_state md) = true.
Proof.
  intros Hcyc Htol Heq.
  assert (Hscan : existsb (cell_unsteady (set_steady_state md true))
                    (cells (NRows md) (NCols md)) = false).
  { apply not_true_is_false. intros H.
    apply existsb_exists in H as ([i j] & Hin & Hun).
    apply In_cells in Hin as [Hi Hj].
    unfold cell_unsteady in Hun; simpl in Hun.
    apply Qlt_bool_true in Hun.
    assert (Hz : Qabs (aget (RasterData md) i j - aget (zeta_old md) i j) == 0).
    { rewrite (Heq i j Hi Hj). setoid_replace
        (aget (zeta_old md) i j - aget (zeta_old md) i j) with 0 by ring.
      reflexivity. }
    rewrite Hz in Hun. apply (Qlt_not_le _ _ Hun Htol). }
  unfold check_steady_state. simpl. rewrite Hcyc.
  simpl in Hscan. rewrite Hscan.
  destruct (Qlt_bool (steady_state_limit md) 0 ||
            Qlt_bool (current_time md) (steady_state_limit md));
    destruct (initial_steady_state md); simpl;
    try reflexivity;
    destruct ((endTime_mode md =? 1)%Z || (endTime_mode md =? 3)%Z);
    reflexivity.
Qed.

Lemma check_steady_state_equal_grids_witness :
  cycle_steady_check still_sample = false /\
  0 <= steady_state_tolerance still_sample /\
  steady_state (check_steady_state still_sample) = true.
Proof.
  assert (Hc : cycle_steady_check still_sample = false) by reflexivity.
  assert (Ht : 0 <= steady_state_tolerance still_sample)
    by (simpl; unfold Qle; simpl; lia).
  split; [exact Hc|]. split; [exact Ht|].
  apply (check_steady_state_equal_grids still_sample Hc Ht).
  intros i j _ _. reflexivity.
Defined.

(** ** Hung runs *)

Lemma check_if_hung_false md : check_if_hung md = false.
Proof. reflexivity. Qed.

(** The loop of [run_components] is never left through the hung-run
    [break]. *)
Lemma run_loop_never_hung run_processes fuel md r :
  run_loop run_processes fuel md = Some r -> fst r = EndCondition.
Proof.
  revert md; induction fuel as [|fuel IH]; intros md; simpl; [discriminate|].
  destruct (check_end_condition (run_pass run_processes md)) as [stop md'].
  destruct stop; [intros H; inversion H; reflexivity | apply IH].
Qed.

(** C4.  On a run in end-time mode 1 that has not reached steady state and
    whose clock is past 100 times its end time, the test written after the
    [return false;] holds, yet [check_if_hung] returns false, and the loop
    of [run_components] goes on into the next pass instead of breaking. *)
Theorem check_if_hung_misses_hung_run :
  initial_steady_state hung_sample = false /\
  endTime hung_sample * 100 < current_time hung_sample /\
  check_if_hung_unreached hung_sample
    (Qtrunc (current_time hung_sample / periodicity hung_sample)) = true /\
  check_if_hung hung_sample = false /\
  forall run_processes fuel,
    run_loop run_processes (S fuel) hung_sample =
    (let '(stop, md) := check_end_condition (run_pass run_processes hung_sample) in
     if stop then Some (EndCondition, md) else run_loop run_processes fuel md).
Proof. repeat split. Qed.

(** ** Fluvial incision *)

Section FluvialFacts.

Variable pow : Q -> Q -> Q.
Variable fuel : nat.
Variable md : LSDRasterModel.
Variable flow : LSDFlowInfo.
Variable K : Q.

(** The stream-power factor of the linear branch at a node. *)
Let F (node : Z) : Q :=
  K * pow (drainage_area md flow node) (m_exp md) *
  (timeStep md / flow_dx pow md flow node).

Lemma fluvial_node_other_cell zeta zeta' node i j :
  fluvial_node pow fuel md flow K zeta node = Some zeta' ->
  node_cell flow node <> (i, j) ->
  aget zeta' i j = aget zeta i j.
Proof.
  unfold fluvial_node, node_cell.
  destruct (retrieve_current_row_and_col flow node) as [row col].
  destruct (retrieve_receiver_information flow node) as [[receiver rr] rc].
  intros H Hne.
  destruct (linear_exponent md);
    destruct (Qeq_bool (flow_dx pow md flow node) (-99));
    try (inversion H; subst; reflexivity).
  - destruct (negb (node =? receiver)%Z); inversion H; subst;
      [apply aget_aset_other; assumption | reflexivity].
  - destruct (newton_new_zeta pow fuel md flow K zeta node);
      inversion H; subst; reflexivity.
Qed.

Lemma fluvial_node_self_receiver zeta zeta' node :
  fluvial_node pow fuel md flow K zeta node = Some zeta' ->
  receiver_of flow node = node ->
  zeta' = zeta.
Proof.
  unfold fluvial_node, receiver_of.
  destruct (retrieve_current_row_and_col flow node) as [row col].
  destruct (retrieve_receiver_information flow node) as [[receiver rr] rc].
  simpl. intros H ->.
  rewrite Z.eqb_refl in H. simpl in H.
  destruct (linear_exponent md);
    destruct (Qeq_bool (flow_dx pow md flow node) (-99));
    try (inversion H; subst; reflexivity).
  destruct (newton_new_zeta pow fuel md flow K zeta node);
    inversion H; subst; reflexivity.
Qed.

Lemma fluvial_node_nonlinear zeta zeta' node :
  linear_exponent md = false ->
  fluvial_node pow fuel md flow K zeta node = Some zeta' ->
  zeta' = zeta.
Proof.
  unfold fluvial_node. intros Hn.
  destruct (retrieve_current_row_and_col flow node) as [row col].
  destruct (retrieve_receiver_information flow node) as [[receiver rr] rc].
  rewrite Hn. intros H.
  destruct (Qeq_bool (flow_dx pow md flow node) (-99));
    [inversion H; reflexivity|].
  destruct (newton_new_zeta pow fuel md flow K zeta node);
    inversion H; reflexivity.
Qed.

Lemma fluvial_node_has_dims zeta zeta' node nr nc :
  fluvial_node pow fuel md flow K zeta node = Some zeta' ->
  has_dims zeta nr nc -> has_dims zeta' nr nc.
Proof.
  unfold fluvial_node.
  destruct (retrieve_current_row_and_col flow node) as [row col].
  destruct (retrieve_receiver_information flow node) as [[receiver rr] rc].
  intros H Hd.
  destruct (linear_exponent md);
    destruct (Qeq_bool (flow_dx pow md flow node) (-99));
    try (inversion H; subst; assumption).
  - destruct (negb (node =? receiver)%Z); inversion H; subst;
      [apply has_dims_aset; assumption | assumption].
  - destruct (newton_new_zeta pow fuel md flow K zeta node);
      inversion H; subst; assumption.
Qed.

(** What the linear branch writes at a node that has a receiver other
    than itself and a defined [dx]. *)
Lemma fluvial_node_linear_update zeta node :
  linear_exponent md = true ->
  receiver_of flow node <> node ->
  Qeq_bool (flow_dx pow md flow node) (-99) = false ->
  fluvial_node pow fuel md flow K zeta node =
  Some (aset zeta (fst (node_cell flow node)) (snd (node_cell flow node))
          ((aget zeta (fst (node_cell flow node)) (snd (node_cell flow node)) +
            aget zeta (fst (receiver_cell flow node))
                      (snd (receiver_cell flow node)) * F node) /
           (1 + F node))).
Proof.
  unfold fluvial_node, node_cell, receiver_of, receiver_cell, F.
  destruct (retrieve_current_row_and_col flow node) as [row col].
  destruct (retrieve_receiver_information flow node) as [[receiver rr] rc].
  simpl. intros -> Hr ->.
  destruct (node =? receiver)%Z eqn:E; [apply Z.eqb_eq in E; congruence|].
  reflexivity.
Qed.

Lemma fluvial_node_linear_total zeta node :
  linear_exponent md = true ->
  exists zeta', fluvial_node pow fuel md flow K zeta node = Some zeta'.
Proof.
  unfold fluvial_node. intros ->.
  destruct (retrieve_current_row_and_col flow node) as [row col].
  destruct (retrieve_receiver_information flow node) as [[receiver rr] rc].
  destruct (Qeq_bool (flow_dx pow md flow node) (-99)); [eauto|].
  destruct (negb (node =? receiver)%Z); eauto.
Qed.

Lemma fluvial_nodes_linear_total l : forall zeta,
  linear_exponent md = true ->
  exists zeta', fluvial_nodes pow fuel md flow K l zeta = Some zeta'.
Proof.
  induction l as [|node l IH]; intros zeta Hlin; simpl; [eauto|].
  destruct (fluvial_node_linear_total zeta node Hlin) as [z1 ->].
  apply IH; assumption.
Qed.

Lemma fluvial_nodes_other_cells l : forall zeta zeta' i j,
  fluvial_nodes pow fuel md flow K l zeta = Some zeta' ->
  (forall node, In node l ->
     node_cell flow node <> (i, j) \/ receiver_of flow node = node) ->
  aget zeta' i j = aget zeta i j.
Proof.
  induction l as [|node l IH]; intros zeta zeta' i j H Hout; simpl in H.
  - inversion H; reflexivity.
  - destruct (fluvial_node pow fuel md flow K zeta node) as [z1|] eqn:E;
      [|discriminate].
    rewrite (IH z1 zeta' i j H) by (intros n Hn; apply Hout; right; assumption).
    destruct (Hout node (or_introl eq_refl)) as [Hne|Hself].
    + eapply fluvial_node_other_cell; eassumption.
    + rewrite (fluvial_node_self_receiver _ _ _ E Hself). reflexivity.
Qed.

Lemma fluvial_nodes_nonlinear l : forall zeta zeta',
  linear_exponent md = false ->
  fluvial_nodes pow fuel md flow K l zeta = Some zeta' ->
  zeta' = zeta.
Proof.
  induction l as [|node l IH]; intros zeta zeta' Hn H; simpl in H.
  - inversion H; reflexivity.
  - destruct (fluvial_node pow fuel md flow K zeta node) as [z1|] eqn:E;
      [|discriminate].
    rewrite (IH z1 zeta' Hn H).
    eapply fluvial_node_nonlinear; eassumption.
Qed.

(** The invariant of the pass over the stack in the linear branch. *)
Lemma fluvial_nodes_linear_spec nr nc :
  linear_exponent md = true ->
  forall l seen zeta zeta',
  has_dims zeta nr nc ->
  NoDup (map (node_cell flow) l) ->
  (forall node, In node l ->
     (0 <= fst (node_cell flow node) < nr)%Z /\
     (0 <= snd (node_cell flow node) < nc)%Z) ->
  (forall node, In node l ->
     receiver_cell flow node = node_cell flow (receiver_of flow node)) ->
  receivers_first flow seen l ->
  (forall s node, In s seen -> In node l ->
     node_cell flow s <> node_cell flow node) ->
  fluvial_nodes pow fuel md flow K l zeta = Some zeta' ->
  forall node, In node l ->
  receiver_of flow node <> node ->
  Qeq_bool (flow_dx pow md flow node) (-99) = false ->
  aget zeta' (fst (node_cell flow node)) (snd (node_cell flow node)) =
  (aget zeta (fst (node_cell flow node)) (snd (node_cell flow node)) +
   aget zeta' (fst (receiver_cell flow node)) (snd (receiver_cell flow node)) *
   F node) / (1 + F node).
Proof.
  intros Hlin.
  induction l as [|h l IH];
    intros seen zeta zeta' Hd Hnd Hrange Hrecv Hord Hsep Hrun node Hin Hr Hdx;
    [contradiction|].
  simpl in Hrun.
  destruct (fluvial_node pow fuel md flow K zeta h) as [z1|] eqn:E;
    [|discriminate].
  simpl in Hnd. inversion Hnd as [|? ? Hh Hnd']; subst.
  destruct Hord as [Hhrecv Hord'].
  assert (Hrest : forall x, In x l -> node_cell flow h <> node_cell flow x).
  { intros x Hx Heq. apply Hh. rewrite Heq. apply in_map. assumption. }
  destruct Hin as [->|Hin].
  - (* the head of the stack *)
    rewrite (fluvial_node_linear_update zeta node Hlin Hr Hdx) in E.
    inversion E; subst z1; clear E.
    destruct Hhrecv as [Hself|Hseen]; [contradiction|].
    set (c := node_cell flow node) in *.
    set (rcell := receiver_cell flow node) in *.
    assert (Hrc : rcell = node_cell flow (receiver_of flow node))
      by (apply Hrecv; left; reflexivity).
    assert (Hrne : node_cell flow (receiver_of flow node) <> c)
      by (apply Hsep; [assumption | left; reflexivity]).
    rewrite (fluvial_nodes_other_cells l _ zeta' (fst c) (snd c) Hrun).
    2: { intros x Hx. left. rewrite <- surjective_pairing.
         intros Heq. apply (Hrest x Hx). symmetry; exact Heq. }
    rewrite (fluvial_nodes_other_cells l _ zeta' (fst rcell) (snd rcell) Hrun).
    2: { intros x Hx. left. rewrite <- surjective_pairing, Hrc.
         intros Heq. apply (Hsep (receiver_of flow node) x Hseen).
         - right; assumption.
         - symmetry; exact Heq. }
    rewrite aget_aset_same.
    2: { eapply has_dims_inside; [eassumption| |];
         apply (Hrange node (or_introl eq_refl)). }
    rewrite aget_aset_other; [reflexivity|].
    rewrite <- !surjective_pairing, Hrc. intros Heq. apply Hrne.
    symmetry; exact Heq.
  - (* a node further down the stack *)
    assert (Hz1 : aget z1 (fst (node_cell flow node)) (snd (node_cell flow node)) =
                  aget zeta (fst (node_cell flow node)) (snd (node_cell flow node))).
    { apply (fluvial_node_other_cell zeta z1 h _ _ E).
      rewrite <- surjective_pairing. apply Hrest; assumption. }
    rewrite <- Hz1.
    apply (IH (h :: seen) z1 zeta'); try assumption.
    + eapply fluvial_node_has_dims; eassumption.
    + intros x Hx. apply Hrange. right; assumption.
    + intros x Hx. apply Hrecv. right; assumption.
    + intros s x [<-|Hs] Hx; [apply Hrest; assumption|].
      apply Hsep; [assumption | right; assumption].
Qed.

End FluvialFacts.

(** C1.  With slope exponent [n = 1] the step makes one pass over the stack
    of the flow network.  When that stack is in topological order (each
    receiver before its donors), every node that is not its own receiver
    and whose flow length code is 1 or 2 ends the step with the elevation
    [(z_old + z_receiver * F) / (1 + F)], where [z_receiver] is the
    elevation of the receiver after the step and [F = K * A^m * dt / dx]
    with [A] the drainage area of the node, its number of contributing
    pixels times the cell area, and [dx] the flow distance to the receiver,
    the cell size for code 1 and the cell size times the square root of 2
    for code 2.  The source passes over a node whose [dx] equals its marker
    -99 for an undefined distance. *)
Theorem fluvial_incision_linear_blend pow sin stream_K_fluv fuel md flow node :
  linear_exponent md = true ->
  has_dims (RasterData md) (NRows md) (NCols md) ->
  flow_fits md flow ->
  In node (get_SVector flow) ->
  receiver_of flow node <> node ->
  let code := retrieve_flow_length_code_of_node flow node in
  let A := inject_Z (retrieve_contributing_pixels_of_node flow node) *
           DataResolution md * DataResolution md in
  let dx := if (code =? 1)%Z then DataResolution md
            else DataResolution md * pow 2 (1 # 2) in
  code = 1%Z \/ code = 2%Z ->
  Qeq_bool dx (-99) = false ->
  exists md',
    fluvial_incision pow sin stream_K_fluv fuel md flow = Some md' /\
    let F := get_K sin stream_K_fluv md * pow A (m_exp md) *
             (timeStep md / dx) in
    aget (RasterData md') (fst (node_cell flow node)) (snd (node_cell flow node)) =
    (aget (RasterData md) (fst (node_cell flow node)) (snd (node_cell flow node)) +
     aget (RasterData md') (fst (receiver_cell flow node))
                           (snd (receiver_cell flow node)) * F) / (1 + F).
Proof.
  intros Hlin Hd [Hcells Hrange Hrecv Hord] Hin Hr code A dx Hcode Hdx.
  assert (Hflow : flow_dx pow md flow node = dx).
  { unfold flow_dx, dx. fold code.
    destruct Hcode as [-> | ->]; reflexivity. }
  unfold fluvial_incision.
  destruct (fluvial_nodes_linear_total pow fuel md flow
              (get_K sin stream_K_fluv md) (get_SVector flow) (RasterData md) Hlin)
    as [zeta' Hrun].
  rewrite Hrun. eexists; split; [reflexivity|]. simpl.
  rewrite <- Hflow in Hdx |- *.
  change A with (drainage_area md flow node).
  eapply (fluvial_nodes_linear_spec pow fuel md flow _ (NRows md) (NCols md)
            Hlin (get_SVector flow) nil); eauto.
Qed.

Lemma column_flow_fits : flow_fits column_sample column_flow.
Proof.
  split.
  - simpl. repeat constructor; simpl; intuition discriminate.
  - intros node [<-|[<-|[<-|[]]]]; simpl; lia.
  - intros node [<-|[<-|[<-|[]]]]; reflexivity.
  - simpl. intuition.
Defined.

(** On the column (elevations 0, 10 and 25, cell size 10, time step 100,
    [K] = 0.0002, [m] = 1) node 2 has one contributing pixel, so
    [A] = 100 and [F] = 0.0002 * 100 * (100 / 10) = 0.2; node 1 has two and
    [F] = 0.4.  Node 1 ends at 10 / 1.4 and node 2 at
    (25 + (10 / 1.4) * 0.2) / 1.2. *)
Lemma fluvial_incision_linear_blend_witness :
  linear_exponent column_sample = true /\
  flow_fits column_sample column_flow /\
  receiver_of column_flow 2 <> 2%Z /\
  retrieve_flow_length_code_of_node column_flow 2 = 1%Z /\
  exists md',
    fluvial_incision pow_sample sin_sample stream_sample 5 column_sample
      column_flow = Some md' /\
    aget (RasterData md') 2 0 =
    (25 + aget (RasterData md') 1 0 *
          ((2 # 10000) * pow_sample (inject_Z 1 * 10 * 10) 1 * (100 / 10))) /
    (1 + (2 # 10000) * pow_sample (inject_Z 1 * 10 * 10) 1 * (100 / 10)) /\
    aget (RasterData md') 1 0 == 10 / (14 # 10) /\
    aget (RasterData md') 2 0 == (25 + 10 / (14 # 10) * (2 # 10)) / (12 # 10).
Proof.
  assert (Hl : linear_exponent column_sample = true) by reflexivity.
  assert (Hr : receiver_of column_flow 2 <> 2%Z) by (simpl; discriminate).
  assert (Hc : retrieve_flow_length_code_of_node column_flow 2 = 1%Z)
    by reflexivity.
  split; [exact Hl|]. split; [exact column_flow_fits|]. split; [exact Hr|].
  split; [exact Hc|].
  destruct (fluvial_incision_linear_blend pow_sample sin_sample stream_sample 5
              column_sample column_flow 2 Hl
              ltac:(sized) column_flow_fits
              ltac:(simpl; auto) Hr (or_introl Hc) eq_refl)
    as (md' & Hrun & Hblend).
  exists md'. split; [exact Hrun|]. split; [exact Hblend|].
  vm_compute in Hrun. inversion Hrun; subst md'. clear.
  split; vm_compute; reflexivity.
Defined.

Lemma fluvial_node_zero_K pow fuel md flow K zeta zeta' node :
  linear_exponent md = true -> K == 0 ->
  fluvial_node pow fuel md flow K zeta node = Some zeta' ->
  forall i j, aget zeta' i j == aget zeta i j.
Proof.
  unfold fluvial_node. intros Hlin HK.
  destruct (retrieve_current_row_and_col flow node) as [row col].
  destruct (retrieve_receiver_information flow node) as [[receiver rr] rc].
  rewrite Hlin. intros H i j.
  destruct (Qeq_bool (flow_dx pow md flow node) (-99));
    [inversion H; reflexivity|].
  destruct (negb (node =? receiver)%Z); inversion H; subst; [|reflexivity].
  set (spf := K * pow (drainage_area md flow node) (m_exp md) *
              (timeStep md / flow_dx pow md flow node)).
  assert (Hs : spf == 0) by (unfold spf; rewrite HK; ring).
  match goal with
  | |- aget (aset _ _ _ ?v) _ _ == _ =>
      destruct (aget_aset_cases zeta row col v i j) as [(-> & -> & ->)| ->]
  end; [|reflexivity].
  rewrite Hs. field.
Qed.

(** C7.  One step of the linear branch ([n = 1]) with erodibility [K = 0]
    leaves the elevation of every cell as it was. *)
Theorem fluvial_incision_linear_zero_K pow sin stream_K_fluv fuel md flow :
  linear_exponent md = true ->
  get_K sin stream_K_fluv md == 0 ->
  exists md',
    fluvial_incision pow sin stream_K_fluv fuel md flow = Some md' /\
    forall i j, aget (RasterData md') i j == aget (RasterData md) i j.
Proof.
  intros Hlin HK. unfold fluvial_incision.
  generalize (RasterData md) as zeta.
  induction (get_SVector flow) as [|node l IH]; intros zeta; simpl.
  - eexists; split; [reflexivity|]. intros; reflexivity.
  - destruct (fluvial_node_linear_total pow fuel md flow
                (get_K sin stream_K_fluv md) zeta node Hlin) as [z1 E].
    rewrite E. destruct (IH z1) as (md' & Hrun & Hsame).
    exists md'. split; [assumption|].
    intros i j. rewrite Hsame.
    eapply fluvial_node_zero_K; eassumption.
Qed.

Lemma fluvial_incision_linear_zero_K_witness :
  linear_exponent column_K0_sample = true /\
  get_K sin_sample stream_sample column_K0_sample == 0 /\
  exists md',
    fluvial_incision pow_sample sin_sample stream_sample 5 column_K0_sample
      column_flow = Some md' /\
    forall i j, aget (RasterData md') i j == aget (RasterData column_K0_sample) i j.
Proof.
  assert (Hl : linear_exponent column_K0_sample = true) by reflexivity.
  assert (HK : get_K sin_sample stream_sample column_K0_sample == 0)
    by reflexivity.
  split; [exact Hl|]. split; [exact HK|].
  apply (fluvial_incision_linear_zero_K pow_sample sin_sample stream_sample 5
           column_K0_sample column_flow Hl HK).
Defined.

(** With [n] away from 1 the step hands back the grid it started from:
    [new_zeta] is a local of the branch and no statement stores it. *)
Lemma fluvial_incision_nonlinear_keeps_grid pow sin stream_K_fluv fuel md flow md' :
  linear_exponent md = false ->
  fluvial_incision pow sin stream_K_fluv fuel md flow = Some md' ->
  RasterData md' = RasterData md.
Proof.
  unfold fluvial_incision. intros Hn.
  destruct (fluvial_nodes pow fuel md flow (get_K sin stream_K_fluv md)
              (get_SVector flow) (RasterData md)) as [zeta'|] eqn:E;
    [|discriminate].
  intros H; inversion H; subst; simpl.
  eapply fluvial_nodes_nonlinear; eassumption.
Qed.

(** C3.  On the three-cell column with [n = 2], the Newton iteration of
    node 1 (elevation 10, draining into the outlet at elevation 0) stops at
    a value other than 10; the step returns, and the grid it leaves is the
    grid it was given, with 10 still at that cell. *)
Theorem fluvial_incision_nonlinear_result_dropped :
  linear_exponent column_n2_sample = false /\
  exists new_zeta md',
    newton_new_zeta pow_sample 5 column_n2_sample column_flow
      (get_K sin_sample stream_sample column_n2_sample)
      (RasterData column_n2_sample) 1 = Some new_zeta /\
    ~ new_zeta == 10 /\
    fluvial_incision pow_sample sin_sample stream_sample 5 column_n2_sample
      column_flow = Some md' /\
    aget (RasterData md') 1 0 = 10 /\
    RasterData md' = RasterData column_n2_sample.
Proof.
  split; [reflexivity|].
  destruct (newton_new_zeta pow_sample 5 column_n2_sample column_flow
      (get_K sin_sample stream_sample column_n2_sample)
      (RasterData column_n2_sample) 1) as [z|] eqn:Ez;
    [|vm_compute in Ez; discriminate].
  destruct (fluvial_incision pow_sample sin_sample stream_sample 5
              column_n2_sample column_flow) as [md'|] eqn:Em;
    [|vm_compute in Em; discriminate].
  exists z, md'. split; [reflexivity|]. split.
  - vm_compute in Ez. inversion Ez; subst z. vm_compute. discriminate.
  - split; [reflexivity|].
    vm_compute in Em. inversion Em; subst md'. split; reflexivity.
Qed.

(** ** Base-level cells *)

Lemma uplift_cell_base_level pow md zeta c i j :
  is_base_level md i j = true ->
  aget (uplift_cell pow md zeta c) i j = aget zeta i j.
Proof.
  intros Hb. unfold uplift_cell. destruct c as [row col].
  destruct (is_base_level md row col) eqn:E; [reflexivity|].
  destruct (negb (Qeq_bool (aget zeta row col) (NoDataValue md)));
    [|reflexivity].
  apply aget_aset_other. intros Heq; inversion Heq; subst. congruence.
Qed.

Lemma uplift_surface_base_level pow md i j :
  is_base_level md i j = true ->
  aget (RasterData (uplift_surface pow md)) i j = aget (RasterData md) i j.
Proof.
  intros Hb. unfold uplift_surface. simpl.
  generalize (RasterData md) as zeta.
  induction (cells (NRows md) (NCols md)) as [|c l IH]; intros zeta; simpl;
    [reflexivity|].
  rewrite IH. apply uplift_cell_base_level. assumption.
Qed.

Lemma repack_fold_other data_vector l : forall zeta p i j,
  ~ In (i, j) l ->
  aget (fst (fold_left (repack_cell data_vector) l (zeta, p))) i j = aget zeta i j.
Proof.
  induction l as [|[a b] l IH]; intros zeta p i j Hn; simpl; [reflexivity|].
  rewrite IH by (intros H; apply Hn; right; assumption).
  apply aget_aset_other. intros Heq. apply Hn. left. assumption.
Qed.

Lemma repack_vector_other md data_vector dimension i j :
  ~ In (i, j) (repack_cells md dimension) ->
  aget (RasterData (repack_vector md data_vector dimension)) i j =
  aget (RasterData md) i j.
Proof.
  intros Hn. unfold repack_vector. simpl. apply repack_fold_other. assumption.
Qed.

Ltac eqb_cases H :=
  repeat match type of H with
         | context [(?a =? ?b)%Z] =>
             let E := fresh "E" in
             destruct (a =? b)%Z eqn:E;
             [apply Z.eqb_eq in E | apply Z.eqb_neq in E]; simpl in H
         end.

(** With the fixed edges on one axis, the cells [repack_vector] writes for
    the dimension [interpret_boundary] picks are not base-level cells. *)
Lemma base_level_not_repacked md periodic0 i j :
  base_level_on_one_axis md = true ->
  is_base_level md i j = true ->
  ~ In (i, j) (repack_cells md (fst (fst (interpret_boundary md periodic0)))).
Proof.
  unfold base_level_on_one_axis, is_base_level, interpret_boundary, repack_cells.
  change (zseq 4) with [0; 1; 2; 3]%Z. cbn [fold_left fst].
  destruct (is_b (bc_code md 0)), (is_b (bc_code md 1)),
           (is_b (bc_code md 2)), (is_b (bc_code md 3));
    cbn; try discriminate; intros _ Hb Hin;
    apply In_grid in Hin as [Hi Hj]; apply In_zrange in Hi, Hj;
    eqb_cases Hb; try discriminate; lia.
Qed.

Lemma repack_vector_frame md data_vector dimension :
  NRows (repack_vector md data_vector dimension) = NRows md /\
  NCols (repack_vector md data_vector dimension) = NCols md.
Proof. split; reflexivity. Qed.

Lemma soil_diffusion_fd_linear_base_level fd_solution md periodic0 i j :
  base_level_on_one_axis md = true ->
  is_base_level md i j = true ->
  aget (RasterData (soil_diffusion_fd_linear fd_solution md periodic0)) i j =
  aget (RasterData md) i j.
Proof.
  intros Hax Hb. unfold soil_diffusion_fd_linear.
  pose proof (base_level_not_repacked md periodic0 i j Hax Hb) as Hn.
  destruct (interpret_boundary md periodic0) as [[dimension periodic] size].
  apply repack_vector_other. exact Hn.
Qed.

Lemma fv_nonlinear_pass_other fv_solution dimension size periodic md i j :
  ~ In (i, j) (repack_cells md dimension) ->
  aget (RasterData (fst (fv_nonlinear_pass fv_solution dimension size periodic md)))
       i j = aget (RasterData md) i j /\
  repack_cells (fst (fv_nonlinear_pass fv_solution dimension size periodic md))
               dimension = repack_cells md dimension.
Proof.
  intros Hn. unfold fv_nonlinear_pass. cbn [fst].
  split; [apply repack_vector_other; assumption | reflexivity].
Qed.

Lemma fv_nonlinear_loop_other fv_solution dimension size periodic i j :
  forall fuel md md',
  ~ In (i, j) (repack_cells md dimension) ->
  fv_nonlinear_loop fv_solution fuel dimension size periodic md = Some md' ->
  aget (RasterData md') i j = aget (RasterData md) i j.
Proof.
  induction fuel as [|fuel IH]; intros md md' Hn Hrun; [discriminate|].
  cbn [fv_nonlinear_loop] in Hrun. cbv zeta in Hrun.
  destruct (fv_nonlinear_pass_other fv_solution dimension size periodic md i j Hn)
    as [H1 Hcells].
  destruct (fv_nonlinear_pass fv_solution dimension size periodic md)
    as [md1 max_diff].
  cbn [fst] in H1, Hcells.
  destruct (Qlt_bool (1 # 100000) max_diff && (0 <? 200)%Z).
  - rewrite <- H1. apply (IH md1 md'); [rewrite Hcells; exact Hn | exact Hrun].
  - inversion Hrun; subst. exact H1.
Qed.

Lemma fv_nonlinear_passes_other fv_solution dimension size periodic i j :
  forall k md,
  ~ In (i, j) (repack_cells md dimension) ->
  aget (RasterData (fv_nonlinear_passes fv_solution k dimension size periodic md))
       i j = aget (RasterData md) i j.
Proof.
  induction k as [|k IH]; intros md Hn; [reflexivity|].
  cbn [fv_nonlinear_passes].
  destruct (fv_nonlinear_pass_other fv_solution dimension size periodic md i j Hn)
    as [H1 Hcells].
  rewrite IH; [exact H1 | rewrite Hcells; exact Hn].
Qed.

(** The loop returns the object of the first pass whose [max_diff] is not
    above [epsilon], and is still running while none was. *)
Lemma fv_nonlinear_loop_passes fv_solution dimension size periodic :
  forall fuel md,
  match fv_nonlinear_loop fv_solution fuel dimension size periodic md with
  | Some md' =>
      exists k, (0 < k <= fuel)%nat /\
        md' = fv_nonlinear_passes fv_solution k dimension size periodic md
  | None =>
      forall k, (k < fuel)%nat ->
        (1 # 100000) <
        snd (fv_nonlinear_pass fv_solution dimension size periodic
               (fv_nonlinear_passes fv_solution k dimension size periodic md))
  end.
Proof.
  induction fuel as [|fuel IH]; intros md; [intros k Hk; lia|].
  cbn [fv_nonlinear_loop]. cbv zeta.
  destruct (fv_nonlinear_pass fv_solution dimension size periodic md)
    as [md1 max_diff] eqn:E.
  change (0 <? 200)%Z with true. rewrite andb_true_r.
  destruct (Qlt_bool (1 # 100000) max_diff) eqn:Eq.
  - specialize (IH md1).
    destruct (fv_nonlinear_loop fv_solution fuel dimension size periodic md1)
      as [md'|].
    + destruct IH as (k & Hk & ->). exists (S k). split; [lia|].
      cbn [fv_nonlinear_passes]. rewrite E. reflexivity.
    + intros [|k] Hk.
      * cbn [fv_nonlinear_passes]. rewrite E. apply Qlt_bool_true. exact Eq.
      * cbn [fv_nonlinear_passes]. rewrite E. apply IH. lia.
  - exists 1%nat. split; [lia|]. cbn [fv_nonlinear_passes]. rewrite E. reflexivity.
Qed.

Lemma soil_diffusion_fv_nonlinear_base_level fv_solution fuel md periodic0 md' i j :
  base_level_on_one_axis md = true ->
  is_base_level md i j = true ->
  soil_diffusion_fv_nonlinear fv_solution fuel md periodic0 = Some md' ->
  aget (RasterData md') i j = aget (RasterData md) i j.
Proof.
  intros Hax Hb. unfold soil_diffusion_fv_nonlinear.
  pose proof (base_level_not_repacked md periodic0 i j Hax Hb) as Hn.
  destruct (interpret_boundary md periodic0) as [[dimension periodic] size].
  apply fv_nonlinear_loop_other. exact Hn.
Qed.

Lemma fluvial_incision_base_level pow sin stream_K_fluv fuel md flow md' i j :
  base_level_nodes md flow ->
  is_base_level md i j = true ->
  fluvial_incision pow sin stream_K_fluv fuel md flow = Some md' ->
  aget (RasterData md') i j = aget (RasterData md) i j.
Proof.
  intros Hnodes Hb. unfold fluvial_incision.
  destruct (fluvial_nodes pow fuel md flow (get_K sin stream_K_fluv md)
              (get_SVector flow) (RasterData md)) as [zeta'|] eqn:E;
    [|discriminate].
  intros H; inversion H; subst; simpl.
  apply (fluvial_nodes_other_cells pow fuel md flow _ _ _ _ i j E).
  intros node Hin.
  destruct (node_cell flow node) as [r c] eqn:Ec.
  destruct (Z.eq_dec r i) as [->|Hr]; [|left; congruence].
  destruct (Z.eq_dec c j) as [->|Hc]; [|left; congruence].
  right. apply Hnodes; [assumption|]. rewrite Ec. exact Hb.
Qed.

(** C6, as the spec states it, fails in the hillslope step when two
    adjacent edges are fixed.  With all four edges fixed the step solves
    along the east-west axis and writes the solution into every row,
    row 0 included: the base-level cell (0, 1) receives the first entry of
    the solver's result, here 9 in place of 10. *)
Lemma hillslope_moves_base_level_cell :
  is_base_level four_fixed_sample 0 1 = true /\
  (forall fd_solution,
     aget (RasterData (soil_diffusion_fd_linear fd_solution four_fixed_sample false))
          0 1 = nth 0 (fd_solution four_fixed_sample 1%Z 3%Z false) 0) /\
  ~ aget (RasterData (soil_diffusion_fd_linear lowered_solution
                        four_fixed_sample false)) 0 1 ==
    aget (RasterData four_fixed_sample) 0 1.
Proof.
  split; [reflexivity|]. split; [intros; reflexivity|].
  vm_compute. discriminate.
Qed.

(** C6, amended.  Take a base-level cell of an object whose fixed edges lie
    on one axis (north and south, or east and west), and a flow network in
    which the nodes on base-level cells are their own receivers.  The
    uplift step, the linear hillslope step, the non-linear hillslope step
    (after any number of passes of its loop, and so in the object it
    returns, whatever the solver returns) and the fluvial step leave the
    elevation of the cell as it was; in the linear fluvial branch the step
    always returns. *)
Theorem base_level_cells_kept pow sin stream_K_fluv fd_solution fv_solution
        md flow i j :
  is_base_level md i j = true ->
  base_level_on_one_axis md = true ->
  base_level_nodes md flow ->
  aget (RasterData (uplift_surface pow md)) i j = aget (RasterData md) i j /\
  (forall periodic0,
     aget (RasterData (soil_diffusion_fd_linear fd_solution md periodic0)) i j =
     aget (RasterData md) i j) /\
  (forall periodic0 passes,
     let '(dimension, periodic, size) := interpret_boundary md periodic0 in
     aget (RasterData (fv_nonlinear_passes fv_solution passes dimension size
                         periodic md)) i j =
     aget (RasterData md) i j) /\
  (forall periodic0 fuel md',
     soil_diffusion_fv_nonlinear fv_solution fuel md periodic0 = Some md' ->
     aget (RasterData md') i j = aget (RasterData md) i j) /\
  (forall fuel md',
     fluvial_incision pow sin stream_K_fluv fuel md flow = Some md' ->
     aget (RasterData md') i j = aget (RasterData md) i j) /\
  (linear_exponent md = true ->
   forall fuel, exists md',
     fluvial_incision pow sin stream_K_fluv fuel md flow = Some md').
Proof.
  intros Hb Hax Hnodes.
  split; [apply uplift_surface_base_level; assumption|].
  split; [intros; apply soil_diffusion_fd_linear_base_level; assumption|].
  split.
  { intros periodic0 passes.
    pose proof (base_level_not_repacked md periodic0 i j Hax Hb) as Hn.
    destruct (interpret_boundary md periodic0) as [[dimension periodic] size].
    apply fv_nonlinear_passes_other. exact Hn. }
  split; [intros periodic0 fuel md';
          apply soil_diffusion_fv_nonlinear_base_level; assumption|].
  split; [intros fuel md';
          apply fluvial_incision_base_level; assumption|].
  intros Hlin fuel. unfold fluvial_incision.
  destruct (fluvial_nodes_linear_total pow fuel md flow
              (get_K sin stream_K_fluv md) (get_SVector flow) (RasterData md) Hlin)
    as [zeta' ->].
  eauto.
Qed.

Lemma column_base_level_nodes : base_level_nodes column_sample column_flow.
Proof.
  intros node [<-|[<-|[<-|[]]]]; simpl; intros H;
    [reflexivity | discriminate | discriminate].
Defined.

(** On the column the non-linear hillslope step with the lowering solver
    returns after its first pass, and the fluvial step returns. *)
Lemma base_level_cells_kept_witness :
  is_base_level column_sample 0 0 = true /\
  base_level_on_one_axis column_sample = true /\
  base_level_nodes column_sample column_flow /\
  aget (RasterData (uplift_surface pow_sample column_sample)) 0 0 =
  aget (RasterData column_sample) 0 0 /\
  aget (RasterData (soil_diffusion_fd_linear lowered_solution column_sample false))
       0 0 = aget (RasterData column_sample) 0 0 /\
  (exists md',
     soil_diffusion_fv_nonlinear lowered_solution 3 column_sample false =
     Some md' /\
     aget (RasterData md') 0 0 = aget (RasterData column_sample) 0 0 /\
     ~ aget (RasterData md') 1 0 == aget (RasterData column_sample) 1 0) /\
  (exists md',
     fluvial_incision pow_sample sin_sample stream_sample 5 column_sample
       column_flow = Some md' /\
     aget (RasterData md') 0 0 = aget (RasterData column_sample) 0 0).
Proof.
  assert (Hb : is_base_level column_sample 0 0 = true) by reflexivity.
  assert (Hax : base_level_on_one_axis column_sample = true) by reflexivity.
  destruct (base_level_cells_kept pow_sample sin_sample stream_sample
              lowered_solution lowered_solution column_sample column_flow 0 0
              Hb Hax column_base_level_nodes) as (Hu & Hfd & _ & Hfv & Hfl & _).
  split; [exact Hb|]. split; [exact Hax|].
  split; [exact column_base_level_nodes|].
  split; [exact Hu|]. split; [exact (Hfd false)|].
  split.
  - destruct (soil_diffusion_fv_nonlinear lowered_solution 3 column_sample false)
      as [md'|] eqn:E; [|vm_compute in E; discriminate E].
    exists md'. split; [reflexivity|].
    split; [exact (Hfv false 3%nat md' E)|].
    vm_compute in E. inversion E; subst md'. vm_compute. discriminate.
  - destruct (fluvial_incision pow_sample sin_sample stream_sample 5
                column_sample column_flow) as [md'|] eqn:E;
      [|vm_compute in E; discriminate E].
    exists md'. split; [reflexivity|]. exact (Hfl 5%nat md' E).
Defined.

(** Airy isostasy, for its part, does move base-level cells: cell (0, 0) of
    the sample lies on a fixed edge and its elevation changes. *)
Lemma Airy_isostasy_moves_base_level_cell :
  is_base_level airy_sample 0 0 = true /\
  ~ aget (RasterData (Airy_isostasy airy_sample)) 0 0 ==
    aget (RasterData airy_sample) 0 0.
Proof. split; [reflexivity|]. vm_compute. discriminate. Qed.

(** ** The adaptive creep step *)

Section CreepFacts.

Variable sin : Q -> Q.
Variable stream_K_soil : LSDRasterModel -> Q.
Variable assembler_solution :
  LSDRasterModel -> Array2D -> Array2D -> Q * Q * Q * Q -> Q -> Q -> Array2D.
Variables uplift_rate fluvial_erosion_rate : Array2D.
Variable iteration_tolerance : Q.
Variables South North : Q.

Let inner := creep_inner assembler_solution uplift_rate fluvial_erosion_rate
               iteration_tolerance South North.
Let attempt := creep_attempt sin stream_K_soil assembler_solution uplift_rate
                 fluvial_erosion_rate iteration_tolerance South North.
Let iterations := creep_iterations assembler_solution uplift_rate
                    fluvial_erosion_rate iteration_tolerance South North.
Let outer := creep_outer sin stream_K_soil assembler_solution uplift_rate
               fluvial_erosion_rate iteration_tolerance South North.
Let timestep_call := DAVE_nonlinear_creep_timestep sin stream_K_soil
                       assembler_solution uplift_rate fluvial_erosion_rate
                       iteration_tolerance South North.

(** The inner loop touches neither the time step nor the grid. *)
Lemma creep_inner_frame k coeffs : forall md max_residual n_iterations,
  timeStep (fst (fst (inner k coeffs md max_residual n_iterations))) =
  timeStep md /\
  RasterData (fst (fst (inner k coeffs md max_residual n_iterations))) =
  RasterData md.
Proof.
  unfold inner.
  induction k as [|k IH]; intros md mr n; simpl; [auto|].
  destruct (Qlt_bool iteration_tolerance mr && (n <=? max_iterations)%Z);
    [|auto].
  match goal with
  | |- context [creep_inner _ _ _ _ _ _ k coeffs ?m ?r ?c] =>
      destruct (IH m r c) as [H1 H2]
  end.
  rewrite H1, H2. auto.
Qed.

Lemma creep_attempt_speed_up md coeffs max_residual :
  iterations (md, coeffs, max_residual) = 1%Z ->
  snd (attempt (md, coeffs, max_residual)) = true /\
  timeStep (fst (fst (fst (attempt (md, coeffs, max_residual))))) =
  timeStep md * 2.
Proof.
  unfold iterations, attempt, creep_iterations, creep_attempt.
  set (md0 := set_zeta_last_timestep (set_zeta_last_iter md (RasterData md))
                (RasterData (set_zeta_last_iter md (RasterData md)))).
  pose proof (creep_inner_frame (Z.to_nat (max_iterations + 1)) coeffs md0
                max_residual 0%Z) as [Ht _].
  unfold inner in Ht.
  destruct (creep_inner assembler_solution uplift_rate fluvial_erosion_rate
              iteration_tolerance South North (Z.to_nat (max_iterations + 1))
              coeffs md0 max_residual 0%Z) as [[md1 mr1] n1].
  simpl in *. intros ->. simpl. rewrite Ht. auto.
Qed.

Lemma creep_attempt_slow_down md coeffs max_residual :
  (max_iterations <= iterations (md, coeffs, max_residual))%Z ->
  let st' := fst (attempt (md, coeffs, max_residual)) in
  let md' := fst (fst st') in
  snd (attempt (md, coeffs, max_residual)) = false /\
  timeStep md' = timeStep md / 10 /\
  RasterData md' = RasterData md /\
  zeta_last_iter md' = RasterData md /\
  (forall fuel, outer (S fuel) (md, coeffs, max_residual) = outer fuel st').
Proof.
  unfold iterations, attempt, outer, creep_iterations.
  cbn [creep_outer]. unfold creep_attempt.
  set (md0 := set_zeta_last_timestep (set_zeta_last_iter md (RasterData md))
                (RasterData (set_zeta_last_iter md (RasterData md)))).
  pose proof (creep_inner_frame (Z.to_nat (max_iterations + 1)) coeffs md0
                max_residual 0%Z) as [Ht Hr].
  unfold inner in Ht, Hr.
  destruct (creep_inner assembler_solution uplift_rate fluvial_erosion_rate
              iteration_tolerance South North (Z.to_nat (max_iterations + 1))
              coeffs md0 max_residual 0%Z) as [[md1 mr1] n1].
  simpl in Ht, Hr. cbn [snd fst]. intros Hn.
  destruct (n1 =? 1)%Z eqn:E1;
    [apply Z.eqb_eq in E1; unfold max_iterations in Hn; lia|].
  destruct (n1 >=? max_iterations)%Z eqn:E2;
    [|rewrite Z.geb_leb in E2; apply Z.leb_gt in E2; lia].
  cbn. rewrite Ht, Hr. auto.
Qed.

Lemma DAVE_timestep_restored fuel md coeffs md' :
  timestep_call fuel md coeffs = Some md' -> timeStep md' = timeStep md.
Proof.
  unfold timestep_call, DAVE_nonlinear_creep_timestep.
  destruct (creep_outer sin stream_K_soil assembler_solution uplift_rate
              fluvial_erosion_rate iteration_tolerance South North fuel
              (md, coeffs, iteration_tolerance + 1)) as [[[m c] r]|];
    [|discriminate].
  intros H; inversion H; reflexivity.
Qed.

Lemma DAVE_timestep_single_iteration md coeffs fuel :
  iterations (md, coeffs, iteration_tolerance + 1) = 1%Z ->
  exists md', timestep_call (S fuel) md coeffs = Some md' /\
              timeStep md' = timeStep md.
Proof.
  intros H1.
  destruct (creep_attempt_speed_up md coeffs (iteration_tolerance + 1) H1)
    as [Hsw _].
  unfold timestep_call, DAVE_nonlinear_creep_timestep. cbn [creep_outer].
  unfold attempt in Hsw.
  destruct (creep_attempt sin stream_K_soil assembler_solution uplift_rate
              fluvial_erosion_rate iteration_tolerance South North
              (md, coeffs, iteration_tolerance + 1)) as [[[m c] r] sw].
  simpl in Hsw; subst sw.
  eexists; split; reflexivity.
Qed.

End CreepFacts.

Lemma Qdiv_10_lt (x : Q) : 0 < x -> x / 10 < x.
Proof.
  intros H. setoid_replace (x / 10) with (x * (1 # 10)) by field. lra.
Qed.

(** C2.  On the flat sample (a 3 by 3 grid at elevation 0 with no uplift,
    time step 100) the inner solve of [DAVE_wrapper] converges in exactly
    one iteration.  The pass takes the speed-up branch and doubles the time
    step to 200; the call then returns with the time step 100 it was
    entered with, so that the next call starts from the same time step,
    with the same coefficients, and not from a larger one. *)
Theorem DAVE_creep_speed_up_discarded :
  let tolerance := 1 # 100000 in
  let North := find_max_boundary_0 flat_sample in
  let coeffs :=
    DAVE_initiate_assembler_matrix sin_sample stream_sample flat_sample in
  let first_pass :=
    creep_attempt sin_sample stream_sample settled_solution
      (uplift_field flat_sample) (make_array 3 3 0) tolerance 0 North
      (flat_sample, coeffs, tolerance + 1) in
  creep_iterations settled_solution (uplift_field flat_sample)
    (make_array 3 3 0) tolerance 0 North
    (flat_sample, coeffs, tolerance + 1) = 1%Z /\
  snd first_pass = true /\
  timeStep (fst (fst (fst first_pass))) == 2 * timeStep flat_sample /\
  exists md',
    DAVE_wrapper sin_sample stream_sample settled_solution 1 flat_sample =
    Some md' /\
    timeStep md' = timeStep flat_sample /\
    ~ timeStep flat_sample < timeStep md' /\
    DAVE_initiate_assembler_matrix sin_sample stream_sample md' = coeffs.
Proof.
  split; [reflexivity|]. split; [reflexivity|]. split; [reflexivity|].
  eexists; split; [reflexivity|]. split; [reflexivity|].
  split; [vm_compute; discriminate | reflexivity].
Qed.

(** ** The Newton loop of the non-linear fluvial branch *)

Lemma triple_pow_ge_1 k : 1 <= triple_pow k.
Proof.
  induction k as [|k IH]; simpl; [apply Qle_refl | lra].
Qed.

Lemma pow_sample_square s : pow_sample s 2 = s * s.
Proof. reflexivity. Qed.

Lemma pow_sample_first s : pow_sample s (2 - 1) = s.
Proof. reflexivity. Qed.

(** The loop body at [n = 2], factor 1, distance 1 and receiver 0. *)
Lemma newton_epsilon_square old z :
  0 <= z ->
  newton_epsilon pow_sample 2 1 1 0 old z == (z * z + z - old) / (1 + 2 * z).
Proof.
  intros Hz. unfold newton_epsilon.
  rewrite pow_sample_square, pow_sample_first.
  field. lra.
Qed.

Lemma newton_square_keeps_running T :
  1 <= T ->
  forall k z, triple_pow k * T <= z ->
  newton_loop pow_sample k 2 1 1 0 (T * T) z = None.
Proof.
  intros HT. induction k as [|k IH]; intros z Hz; [reflexivity|].
  assert (Hk : 1 <= triple_pow k) by apply triple_pow_ge_1.
  simpl in Hz.
  assert (HkT : T <= triple_pow k * T) by nra.
  assert (Hz3 : 3 * (triple_pow k * T) <= z) by lra.
  assert (Hz1 : 1 <= z) by lra.
  assert (HTz : T * T <= z * z) by nra.
  cbn [newton_loop].
  set (eps := newton_epsilon pow_sample 2 1 1 0 (T * T) z).
  assert (He : eps == (z * z + z - T * T) / (1 + 2 * z))
    by (apply newton_epsilon_square; lra).
  assert (Hbig : (1 # 1000) < eps).
  { rewrite He. apply Qlt_shift_div_l; [lra|]. nra. }
  apply Qlt_bool_true in Hbig. rewrite Hbig.
  apply IH.
  assert (Hnew : z - eps == (z * z + T * T) / (1 + 2 * z)).
  { rewrite He. field. lra. }
  rewrite Hnew. apply Qle_shift_div_l; [lra|]. nra.
Qed.

Lemma newton_loop_long_run bound :
  newton_loop pow_sample bound 2 1 1 0 (long_newton_start bound)
    (long_newton_start bound) = None.
Proof.
  apply newton_square_keeps_running; [apply triple_pow_ge_1|].
  unfold long_newton_start. apply Qle_refl.
Qed.

(** C9, as the spec states it, fails: no number of passes bounds the Newton
    loop of a cell.  For every candidate bound there is a two-cell grid on
    which the loop of the upper cell is still running after that many
    passes, so that the step has not returned. *)
Lemma newton_loop_has_no_iteration_bound :
  ~ exists bound : nat, forall md flow,
      fluvial_incision pow_sample sin_sample stream_sample bound md flow <> None.
Proof.
  intros [bound H].
  apply (H (long_run_sample bound) outlet_pair_flow).
  unfold fluvial_incision.
  change (get_SVector outlet_pair_flow) with [0; 1]%Z.
  cbn [fluvial_nodes].
  unfold fluvial_node, newton_new_zeta.
  cbn -[newton_loop long_newton_start].
  match goal with
  | |- context [newton_loop ?a ?b ?c ?d ?e ?f ?g ?h] =>
      replace (newton_loop a b c d e f g h) with (@None Q);
      [reflexivity | symmetry; exact (newton_loop_long_run bound)]
  end.
Qed.

(** C9, amended.  The Newton loop carries no iteration count and gives no
    warning.  It ends at the first pass whose correction meets the
    tolerance, that is, is at most 0.001 in magnitude, with the iterate of
    that pass; as long as the corrections have been above the tolerance it
    is still running, whatever the number of passes. *)
Theorem newton_loop_runs_until_tolerance_met pow n_ spf dx zr old :
  forall k z,
  (forall i, (i < k)%nat ->
     (1 # 1000) < newton_epsilon pow n_ spf dx zr old
                    (newton_iterate pow i n_ spf dx zr old z)) ->
  newton_loop pow k n_ spf dx zr old z = None /\
  (Qabs (newton_epsilon pow n_ spf dx zr old
           (newton_iterate pow k n_ spf dx zr old z)) <= (1 # 1000) ->
   forall fuel, (k < fuel)%nat ->
     newton_loop pow fuel n_ spf dx zr old z =
     Some (newton_iterate pow (S k) n_ spf dx zr old z)).
Proof.
  induction k as [|k IH]; intros z Hrun.
  - split; [reflexivity|]. intros Hsmall [|fuel] Hf; [lia|].
    cbn [newton_loop newton_iterate] in *.
    assert (Hle : newton_epsilon pow n_ spf dx zr old z <= 1 # 1000)
      by (eapply Qle_trans; [apply Qle_Qabs | exact Hsmall]).
    apply Qlt_bool_false in Hle. rewrite Hle. reflexivity.
  - assert (H0 : (1 # 1000) < newton_epsilon pow n_ spf dx zr old z)
      by (apply (Hrun 0%nat); lia).
    apply Qlt_bool_true in H0.
    destruct (IH (z - newton_epsilon pow n_ spf dx zr old z)) as [Hnone Hsome].
    { intros i Hi. apply (Hrun (S i)). lia. }
    split.
    + cbn [newton_loop]. rewrite H0. exact Hnone.
    + intros Hsmall [|fuel] Hf; [lia|].
      cbn [newton_loop]. rewrite H0.
      apply Hsome; [exact Hsmall | lia].
Qed.

Lemma newton_loop_runs_until_tolerance_met_witness :
  (forall i, (i < 2)%nat ->
     (1 # 1000) < newton_epsilon pow_sample 2 4 10 0 10
                    (newton_iterate pow_sample i 2 4 10 0 10 10)) /\
  Qabs (newton_epsilon pow_sample 2 4 10 0 10
          (newton_iterate pow_sample 2 2 4 10 0 10 10)) <= (1 # 1000) /\
  newton_loop pow_sample 2 2 4 10 0 10 10 = None /\
  newton_loop pow_sample 5 2 4 10 0 10 10 =
  Some (newton_iterate pow_sample 3 2 4 10 0 10 10).
Proof.
  assert (Hrun : forall i, (i < 2)%nat ->
            (1 # 1000) < newton_epsilon pow_sample 2 4 10 0 10
                           (newton_iterate pow_sample i 2 4 10 0 10 10)).
  { intros [|[|i]] Hi; [reflexivity | reflexivity | lia]. }
  assert (Hsmall : Qabs (newton_epsilon pow_sample 2 4 10 0 10
                           (newton_iterate pow_sample 2 2 4 10 0 10 10)) <=
                   (1 # 1000)) by (vm_compute; discriminate).
  destruct (newton_loop_runs_until_tolerance_met pow_sample 2 4 10 0 10
              2 10 Hrun) as [Hnone Hsome].
  split; [exact Hrun|]. split; [exact Hsmall|]. split; [exact Hnone|].
  apply Hsome; [exact Hsmall | lia].
Defined.

(** * Further properties *)

(** ** Loops over cells *)

Lemma has_dims_make_array nr nc v :
  (0 <= nr)%Z -> (0 <= nc)%Z -> has_dims (make_array nr nc v) nr nc.
Proof.
  intros Hr Hc. unfold make_array, has_dims. split.
  - rewrite repeat_length. lia.
  - apply Forall_forall. intros r Hin. apply repeat_spec in Hin. subst r.
    rewrite repeat_length. lia.
Qed.


Lemma write_cells_has_dims w nr nc l : forall a,
  has_dims a nr nc -> has_dims (write_cells w l a) nr nc.
Proof.
  unfold write_cells.
  induction l as [|c l IH]; intros a Hd; simpl; [assumption|].
  apply IH. destruct (w c); [apply has_dims_aset|]; assumption.
Qed.

Lemma write_cells_stable w l i j v : forall a,
  w (i, j) = Some v -> aget a i j = v -> aget (write_cells w l a) i j = v.
Proof.
  unfold write_cells.
  induction l as [|[r c] l IH]; intros a Hw Ha; simpl; [assumption|].
  apply IH; [assumption|].
  destruct (w (r, c)) as [u|] eqn:E; [|assumption]. simpl.
  destruct (aget_aset_cases a r c u i j) as [(-> & -> & ->)| ->];
    [congruence | assumption].
Qed.

Lemma write_cells_written w nr nc l i j v : forall a,
  has_dims a nr nc -> (0 <= i < nr)%Z -> (0 <= j < nc)%Z ->
  In (i, j) l -> w (i, j) = Some v ->
  aget (write_cells w l a) i j = v.
Proof.
  induction l as [|[r c] l IH]; intros a Hd Hi Hj Hin Hw; [contradiction|].
  change (write_cells w ((r, c) :: l) a)
    with (write_cells w l (match w (r, c) with
                           | Some u => aset a r c u
                           | None => a
                           end)).
  destruct Hin as [Heq|Hin].
  - inversion Heq; subst r c. rewrite Hw.
    apply write_cells_stable; [assumption|].
    apply aget_aset_same. eapply has_dims_inside; eassumption.
  - apply IH; try assumption.
    destruct (w (r, c)); [apply has_dims_aset|]; assumption.
Qed.


Lemma update_cells_has_dims g nr nc l : forall a,
  has_dims a nr nc -> has_dims (update_cells g l a) nr nc.
Proof.
  unfold update_cells.
  induction l as [|c l IH]; intros a Hd; simpl; [assumption|].
  apply IH. destruct (g c _); [apply has_dims_aset|]; assumption.
Qed.

Lemma update_cells_untouched g l i j : forall a,
  ~ In (i, j) l -> aget (update_cells g l a) i j = aget a i j.
Proof.
  unfold update_cells.
  induction l as [|[r c] l IH]; intros a H; simpl; [reflexivity|].
  rewrite IH by (intros X; apply H; right; exact X).
  destruct (g (r, c) _) as [u|]; [|reflexivity]. simpl.
  apply aget_aset_other. intros Heq. apply H. left. exact Heq.
Qed.

Lemma update_cells_visited g nr nc l i j : forall a,
  has_dims a nr nc -> (0 <= i < nr)%Z -> (0 <= j < nc)%Z ->
  NoDup l -> In (i, j) l ->
  aget (update_cells g l a) i j =
  match g (i, j) (aget a i j) with Some v => v | None => aget a i j end.
Proof.
  induction l as [|[r c] l IH]; intros a Hd Hi Hj Hnd Hin; [contradiction|].
  inversion Hnd as [|? ? Hnot Hnd']; subst.
  change (update_cells g ((r, c) :: l) a)
    with (update_cells g l (match g (r, c) (aget a r c) with
                            | Some u => aset a r c u
                            | None => a
                            end)).
  destruct Hin as [Heq|Hin].
  - inversion Heq; subst r c.
    rewrite update_cells_untouched by assumption.
    destruct (g (i, j) (aget a i j)); [|reflexivity].
    apply aget_aset_same. eapply has_dims_inside; eassumption.
  - rewrite IH; try assumption.
    + assert (Hne : (r, c) <> (i, j)) by (intros E; rewrite E in Hnot; auto).
      destruct (g (r, c) (aget a r c)); [|reflexivity].
      rewrite aget_aset_other by assumption. reflexivity.
    + destruct (g (r, c) (aget a r c)); [apply has_dims_aset|]; assumption.
Qed.

(** ** Airy equilibrium *)

(** X1.  After [Airy_isostasy], the root depth of every cell is the Airy
    root [calculate_airy] computes for the elevation the cell is left
    with: the grid is in the equilibrium that function defines. *)
Theorem Airy_isostasy_reaches_calculate_airy md i j :
  well_sized md -> (0 <= i < NRows md)%Z -> (0 <= j < NCols md)%Z ->
  aget (calculate_airy (Airy_isostasy md)) i j ==
  aget (root_depth (Airy_isostasy md)) i j.
Proof.
  intros Hw Hi Hj.
  destruct (Airy_isostasy_cell md i j Hw Hi Hj) as [Er Ez].
  unfold calculate_airy.
  change (NRows (Airy_isostasy md)) with (NRows md).
  change (NCols (Airy_isostasy md)) with (NCols md).
  erewrite write_cells_written;
    [ | apply has_dims_make_array; lia | eassumption | eassumption
      | apply In_cells; split; assumption | reflexivity ].
  cbn [fst snd]. rewrite Er, Ez. unfold zeta_root, rho_m, rho_c. field.
Qed.

Lemma Airy_isostasy_reaches_calculate_airy_witness :
  well_sized airy_sample /\
  aget (calculate_airy (Airy_isostasy airy_sample)) 0 1 ==
  aget (root_depth (Airy_isostasy airy_sample)) 0 1.
Proof.
  assert (Hw : well_sized airy_sample) by sized.
  split; [exact Hw|].
  apply (Airy_isostasy_reaches_calculate_airy airy_sample 0 1 Hw);
    simpl; lia.
Defined.

(** ** Uplift and the erosion it leaves *)

Lemma uplift_surface_as_update pow md l : forall zeta,
  fold_left (uplift_cell pow md) l zeta =
  update_cells
    (fun c z => if is_base_level md (fst c) (snd c) then None
                else if negb (Qeq_bool z (NoDataValue md))
                then Some (z + get_uplift_at_cell pow md (fst c) (snd c))
                else None) l zeta.
Proof.
  unfold update_cells.
  induction l as [|[r c] l IH]; intros zeta; simpl; [reflexivity|].
  rewrite IH. f_equal.
  destruct (is_base_level md r c); [reflexivity|].
  destruct (negb (Qeq_bool (aget zeta r c) (NoDataValue md))); reflexivity.
Qed.

(** X2.  [uplift_surface] adds the uplift of the cell to every cell of the
    grid that is neither base level nor no-data, and leaves the base-level
    and the no-data cells as they were. *)
Theorem uplift_surface_cell pow md i j :
  has_dims (RasterData md) (NRows md) (NCols md) ->
  (0 <= i < NRows md)%Z -> (0 <= j < NCols md)%Z ->
  aget (RasterData (uplift_surface pow md)) i j =
  if is_base_level md i j then aget (RasterData md) i j
  else if Qeq_bool (aget (RasterData md) i j) (NoDataValue md)
       then aget (RasterData md) i j
       else aget (RasterData md) i j + get_uplift_at_cell pow md i j.
Proof.
  intros Hd Hi Hj. unfold uplift_surface. cbn [RasterData set_RasterData].
  rewrite uplift_surface_as_update.
  rewrite (update_cells_visited _ (NRows md) (NCols md));
    try assumption; [|apply NoDup_cells | apply In_cells; split; assumption].
  cbn [fst snd].
  destruct (is_base_level md i j); [reflexivity|].
  destruct (Qeq_bool (aget (RasterData md) i j) (NoDataValue md)); reflexivity.
Qed.

Lemma patch_sample_sized :
  has_dims (RasterData patch_sample) (NRows patch_sample) (NCols patch_sample).
Proof. sized. Defined.

Lemma uplift_surface_cell_witness :
  aget (RasterData (uplift_surface pow_sample patch_sample)) 1 0 =
  4 + get_uplift_at_cell pow_sample patch_sample 1 0 /\
  aget (RasterData (uplift_surface pow_sample patch_sample)) 1 1 = -99 /\
  aget (RasterData (uplift_surface pow_sample patch_sample)) 0 1 = 2.
Proof.
  split; [|split].
  - apply (uplift_surface_cell pow_sample patch_sample 1 0 patch_sample_sized);
      simpl; lia.
  - apply (uplift_surface_cell pow_sample patch_sample 1 1 patch_sample_sized);
      simpl; lia.
  - apply (uplift_surface_cell pow_sample patch_sample 0 1 patch_sample_sized);
      simpl; lia.
Defined.



(** X4.  The overload [uplift_surface(UpliftRate, dt)] raises every data
    cell of the grid by [UpliftRate * dt], base-level cells included, and
    leaves the no-data cells as they were. *)
Theorem uplift_surface_uniform_cell md UpliftRate dt i j :
  has_dims (RasterData md) (NRows md) (NCols md) ->
  (0 <= i < NRows md)%Z -> (0 <= j < NCols md)%Z ->
  aget (uplift_surface_uniform md UpliftRate dt) i j =
  if Qeq_bool (aget (RasterData md) i j) (NoDataValue md)
  then aget (RasterData md) i j
  else aget (RasterData md) i j + UpliftRate * dt.
Proof.
  intros Hd Hi Hj. unfold uplift_surface_uniform.
  rewrite (update_cells_visited _ (NRows md) (NCols md));
    try assumption; [|apply NoDup_cells | apply In_cells; split; assumption].
  cbn [fst snd].
  destruct (Qeq_bool (aget (RasterData md) i j) (NoDataValue md)); reflexivity.
Qed.

Lemma uplift_surface_uniform_cell_witness :
  is_base_level patch_sample 0 1 = true /\
  aget (uplift_surface_uniform patch_sample (1 # 2) 100) 0 1 = 2 + (1 # 2) * 100.
Proof.
  split; [reflexivity|].
  apply (uplift_surface_uniform_cell patch_sample (1 # 2) 100 0 1
           patch_sample_sized); simpl; lia.
Defined.

(** X5.  [calculate_fluvial_erosion_rate] never reports a negative rate:
    every cell of its result is the rate [K * (w / dx) * S^n * Q^m -
    threshold] when that is not negative, and 0 when it is negative. *)
Theorem calculate_fluvial_erosion_rate_not_negative pow md ChannelWidth Q_w
        TopoDivergence K n_ m_ eros_thresh i j :
  (0 <= i < NRows md)%Z -> (0 <= j < NCols md)%Z ->
  let rate := K * (aget ChannelWidth i j / DataResolution md) *
              pow (aget TopoDivergence i j) n_ * pow (aget Q_w i j) m_ -
              eros_thresh in
  let result := aget (calculate_fluvial_erosion_rate pow md ChannelWidth Q_w
                        TopoDivergence K n_ m_ eros_thresh) i j in
  0 <= result /\ rate <= result /\
  (0 <= rate -> result = rate) /\ (rate < 0 -> result = 0).
Proof.
  intros Hi Hj rate result.
  assert (Hres : result = if Qlt_bool rate 0 then 0 else rate).
  { unfold result, calculate_fluvial_erosion_rate.
    erewrite write_cells_written;
      [reflexivity | apply has_dims_make_array; lia | eassumption | eassumption
       | apply In_cells; split; assumption | reflexivity]. }
  rewrite Hres.
  destruct (Qlt_bool rate 0) eqn:E.
  - apply Qlt_bool_true in E.
    split; [lra|]. split; [lra|].
    split; [intros H; exfalso; lra | intros _; reflexivity].
  - apply Qlt_bool_false in E.
    split; [lra|]. split; [lra|].
    split; [intros _; reflexivity | intros H; exfalso; lra].
Qed.

Lemma calculate_fluvial_erosion_rate_not_negative_witness :
  (0 <= 1 < NRows patch_sample)%Z /\ (0 <= 1 < NCols patch_sample)%Z /\
  0 <= aget (calculate_fluvial_erosion_rate pow_sample patch_sample
               (make_array 3 3 2) (make_array 3 3 5) (make_array 3 3 1)
               (1 # 100) 1 1 3) 1 1 /\
  aget (calculate_fluvial_erosion_rate pow_sample patch_sample
          (make_array 3 3 2) (make_array 3 3 5) (make_array 3 3 1)
          (1 # 100) 1 1 3) 1 1 = 0.
Proof.
  assert (Hi : (0 <= 1 < NRows patch_sample)%Z) by (simpl; lia).
  assert (Hj : (0 <= 1 < NCols patch_sample)%Z) by (simpl; lia).
  destruct (calculate_fluvial_erosion_rate_not_negative pow_sample patch_sample
              (make_array 3 3 2) (make_array 3 3 5) (make_array 3 3 1)
              (1 # 100) 1 1 3 1 1 Hi Hj) as (H0 & _ & _ & Hneg).
  split; [exact Hi|]. split; [exact Hj|]. split; [exact H0|].
  apply Hneg. reflexivity.
Defined.

(** ** Buffered surfaces *)

Lemma apply_writes_has_dims nr nc l : forall a,
  has_dims a nr nc -> has_dims (apply_writes l a) nr nc.
Proof.
  unfold apply_writes.
  induction l as [|w l IH]; intros a Hd; simpl; [assumption|].
  apply IH. apply has_dims_aset. assumption.
Qed.

(** When every assignment to a cell carries the same value, the cell ends
    with that value as soon as one assignment reaches it. *)
Lemma apply_writes_value nr nc i j v l : forall a,
  has_dims a nr nc -> (0 <= i < nr)%Z -> (0 <= j < nc)%Z ->
  (forall w, In w l -> fst w = (i, j) -> snd w = v) ->
  aget a i j = v \/ (exists w, In w l /\ fst w = (i, j)) ->
  aget (apply_writes l a) i j = v.
Proof.
  induction l as [|[[r c] u] l IH]; intros a Hd Hi Hj Hsame Hhit.
  - destruct Hhit as [H|(w & [] & _)]. exact H.
  - change (apply_writes ((r, c, u) :: l) a)
      with (apply_writes l (aset a r c u)).
    apply IH; try assumption.
    + apply has_dims_aset; assumption.
    + intros w Hw. apply Hsame. right; exact Hw.
    + destruct (Z.eq_dec r i) as [->|Hr]; [destruct (Z.eq_dec c j) as [->|Hc]|].
      * left. rewrite aget_aset_same by (eapply has_dims_inside; eassumption).
        exact (Hsame (i, j, u) (or_introl eq_refl) eq_refl).
      * destruct Hhit as [H|(w & [Hw|Hw] & Hc')].
        -- left. rewrite aget_aset_other by congruence. exact H.
        -- subst w. simpl in Hc'. congruence.
        -- right. exists w. auto.
      * destruct Hhit as [H|(w & [Hw|Hw] & Hc')].
        -- left. rewrite aget_aset_other by congruence. exact H.
        -- subst w. simpl in Hc'. congruence.
        -- right. exists w. auto.
Qed.

(** Case analysis on the membership of an assignment in the lists the two
    buffering functions go through. *)
Ltac writes_cases H :=
  repeat match type of H with
         | In _ (_ ++ _) => apply in_app_or in H; destruct H as [H|H]
         | In _ (flat_map _ _) =>
             let x := fresh "x" in
             let Hx := fresh "Hx" in
             apply in_flat_map in H as (x & Hx & H); apply In_zseq in Hx
         | In _ (map _ (cells _ _)) =>
             let x := fresh "x" in
             let Hx := fresh "Hx" in
             apply in_map_iff in H as ([? ?] & H & Hx); apply In_cells in Hx;
             symmetry in H
         | In _ (_ :: _) => destruct H as [H|H]
         | In _ nil => contradiction
         end.

Ltac writes_same :=
  let w := fresh "w" in
  let Hw := fresh "Hw" in
  let Hc := fresh "Hc" in
  intros w Hw Hc; writes_cases Hw; subst w; simpl in Hc |- *;
  inversion Hc; subst; try reflexivity; try lia; try (f_equal; lia).

(** X6.  The buffered surface of [create_buffered_surf] holds the grid in
    its interior, repeats the last column before the first and the first
    column after the last (periodic east and west), and repeats the first
    and last rows above and below (no flux north and south). *)
Theorem create_buffered_surf_layout md b_type r c :
  (0 <= r < NRows md)%Z -> (0 <= c < NCols md)%Z ->
  let buff := create_buffered_surf md b_type in
  let surf := RasterData md in
  aget buff (r + 1) (c + 1) = aget surf r c /\
  aget buff (r + 1) 0 = aget surf r (NCols md - 1) /\
  aget buff (r + 1) (NCols md + 1) = aget surf r 0 /\
  aget buff 0 (c + 1) = aget surf 0 c /\
  aget buff (NRows md + 1) (c + 1) = aget surf (NRows md - 1) c.
Proof.
  intros Hr Hc buff surf. unfold buff, create_buffered_surf.
  assert (Hd : has_dims (make_array (NRows md + 2) (NCols md + 2) 0)
                 (NRows md + 2) (NCols md + 2))
    by (apply has_dims_make_array; lia).
  repeat apply conj;
    (eapply apply_writes_value;
     [ exact Hd | lia | lia | writes_same | right ]).
  - exists (pair (pair (r + 1)%Z (c + 1)%Z) (aget surf r c)). split; [|reflexivity].
    apply in_or_app; right. apply in_or_app; right. apply in_or_app; right.
    apply in_map_iff. exists (r, c). split; [reflexivity|].
    apply In_cells; split; assumption.
  - exists (pair (pair (r + 1)%Z 0%Z) (aget surf r (NCols md - 1))). split; [|reflexivity].
    apply in_or_app; right. apply in_or_app; left.
    apply in_flat_map. exists r. split; [apply In_zseq; assumption|].
    left; reflexivity.
  - exists (pair (pair (r + 1)%Z (NCols md + 1)%Z) (aget surf r 0)). split; [|reflexivity].
    apply in_or_app; right. apply in_or_app; left.
    apply in_flat_map. exists r. split; [apply In_zseq; assumption|].
    right; left; reflexivity.
  - exists (pair (pair 0%Z (c + 1)%Z) (aget surf 0 c)). split; [|reflexivity].
    apply in_or_app; right. apply in_or_app; right. apply in_or_app; left.
    apply in_flat_map. exists c. split; [apply In_zseq; assumption|].
    left; reflexivity.
  - exists (pair (pair (NRows md + 1)%Z (c + 1)%Z) (aget surf (NRows md - 1) c)).
    split; [|reflexivity].
    apply in_or_app; right. apply in_or_app; right. apply in_or_app; left.
    apply in_flat_map. exists c. split; [apply In_zseq; assumption|].
    right; left; reflexivity.
Qed.

Lemma create_buffered_surf_layout_witness :
  aget (create_buffered_surf patch_sample 1) 2 1 = 4 /\
  aget (create_buffered_surf patch_sample 1) 2 0 = 6 /\
  aget (create_buffered_surf patch_sample 1) 2 4 = 4.
Proof.
  destruct (create_buffered_surf_layout patch_sample 1 1 0)
    as (H1 & H2 & H3 & _); try (simpl; lia).
  split; [exact H1|]. split; [exact H2 | exact H3].
Defined.

(** X7.  The buffered surface of [create_buffered_surf(South, North)] holds
    the grid in its interior, wraps the columns east and west, and carries
    the south elevation along the whole of row 0 and the north elevation
    along the whole of row [NRows + 1]. *)
Theorem create_buffered_surf_fixed_layout md South North r c k :
  (0 <= r < NRows md)%Z -> (0 <= c < NCols md)%Z -> (0 <= k < NCols md + 2)%Z ->
  let buff := create_buffered_surf_fixed md South North in
  let surf := RasterData md in
  aget buff (r + 1) (c + 1) = aget surf r c /\
  aget buff (r + 1) 0 = aget surf r (NCols md - 1) /\
  aget buff (r + 1) (NCols md + 1) = aget surf r 0 /\
  aget buff 0 k = South /\
  aget buff (NRows md + 1) k = North.
Proof.
  intros Hr Hc Hk buff surf. unfold buff, create_buffered_surf_fixed.
  assert (Hd : has_dims (make_array (NRows md + 2) (NCols md + 2) 0)
                 (NRows md + 2) (NCols md + 2))
    by (apply has_dims_make_array; lia).
  repeat apply conj;
    (eapply apply_writes_value;
     [ exact Hd | lia | lia | writes_same | right ]).
  - exists (pair (pair (r + 1)%Z (c + 1)%Z) (aget surf r c)).
    split; [|reflexivity].
    apply in_or_app; right. apply in_or_app; right.
    apply in_map_iff. exists (r, c). split; [reflexivity|].
    apply In_cells; split; assumption.
  - exists (pair (pair (r + 1)%Z 0%Z) (aget surf r (NCols md - 1))).
    split; [|reflexivity].
    apply in_or_app; left.
    apply in_flat_map. exists r. split; [apply In_zseq; assumption|].
    left; reflexivity.
  - exists (pair (pair (r + 1)%Z (NCols md + 1)%Z) (aget surf r 0)).
    split; [|reflexivity].
    apply in_or_app; left.
    apply in_flat_map. exists r. split; [apply In_zseq; assumption|].
    right; left; reflexivity.
  - exists (pair (pair 0%Z k) South). split; [|reflexivity].
    apply in_or_app; right. apply in_or_app; left.
    apply in_flat_map. exists k. split; [apply In_zseq; assumption|].
    left; reflexivity.
  - exists (pair (pair (NRows md + 1)%Z k) North). split; [|reflexivity].
    apply in_or_app; right. apply in_or_app; left.
    apply in_flat_map. exists k. split; [apply In_zseq; assumption|].
    right; left; reflexivity.
Qed.

Lemma create_buffered_surf_fixed_layout_witness :
  aget (create_buffered_surf_fixed patch_sample 0 50) 0 4 = 0 /\
  aget (create_buffered_surf_fixed patch_sample 0 50) 4 0 = 50 /\
  aget (create_buffered_surf_fixed patch_sample 0 50) 3 3 = 9.
Proof.
  destruct (create_buffered_surf_fixed_layout patch_sample 0 50 2 2 4)
    as (H1 & _ & _ & H4 & _); try (simpl; lia).
  destruct (create_buffered_surf_fixed_layout patch_sample 0 50 2 2 0)
    as (_ & _ & _ & _ & H5); try (simpl; lia).
  split; [exact H4|]. split; [exact H5 | exact H1].
Defined.

(** ** Boundary maximum *)

Lemma boundary_scan_bounds (zeta : Array2D) (l : list (Z * Z)) : forall m0,
  let m := fold_left (fun max_val c =>
                        if Qlt_bool max_val (aget zeta (fst c) (snd c))
                        then aget zeta (fst c) (snd c) else max_val) l m0 in
  m0 <= m /\ forall c, In c l -> aget zeta (fst c) (snd c) <= m.
Proof.
  induction l as [|h l IH]; intros m0; simpl.
  - split; [apply Qle_refl | contradiction].
  - destruct (Qlt_bool m0 (aget zeta (fst h) (snd h))) eqn:E.
    + apply Qlt_bool_true in E.
      destruct (IH (aget zeta (fst h) (snd h))) as [H1 H2].
      split; [lra|]. intros c [<-|Hc]; [exact H1 | apply H2; exact Hc].
    + apply Qlt_bool_false in E.
      destruct (IH m0) as [H1 H2].
      split; [exact H1|]. intros c [<-|Hc]; [lra | apply H2; exact Hc].
Qed.

Lemma boundary_scan_attained (zeta : Array2D) (l : list (Z * Z)) : forall m0,
  let m := fold_left (fun max_val c =>
                        if Qlt_bool max_val (aget zeta (fst c) (snd c))
                        then aget zeta (fst c) (snd c) else max_val) l m0 in
  (m = m0 \/ exists c, In c l /\ m = aget zeta (fst c) (snd c)) /\
  ((forall c, In c l -> aget zeta (fst c) (snd c) <= m0) -> m = m0).
Proof.
  induction l as [|h l IH]; intros m0; simpl.
  - split; [left; reflexivity | intros _; reflexivity].
  - destruct (Qlt_bool m0 (aget zeta (fst h) (snd h))) eqn:E.
    + destruct (IH (aget zeta (fst h) (snd h))) as [[H1|(c & Hc & H1)] _].
      * split; [right; exists h; split; [left; reflexivity | exact H1]|].
        intros Hlow. apply Qlt_bool_true in E.
        specialize (Hlow h (or_introl eq_refl)). exfalso. lra.
      * split; [right; exists c; split; [right; exact Hc | exact H1]|].
        intros Hlow. apply Qlt_bool_true in E.
        specialize (Hlow h (or_introl eq_refl)). exfalso. lra.
    + destruct (IH m0) as [[H1|(c & Hc & H1)] H2].
      * split; [left; exact H1|].
        intros Hlow. apply H2. intros c Hc. apply Hlow. right. exact Hc.
      * split; [right; exists c; split; [right; exact Hc | exact H1]|].
        intros Hlow. apply H2. intros c' Hc'. apply Hlow. right. exact Hc'.
Qed.

(** X8.  For the edge numbers 0 to 3 (north, east, south, west),
    [find_max_boundary] returns the largest of 0 and the elevations of the
    cells of that edge: the value is at least 0 and at least the elevation
    of every cell of the edge, it is 0 or the elevation of one of these
    cells, and it is 0 when no cell of the edge lies above 0. *)
Theorem find_max_boundary_bounds md b :
  (0 <= b <= 3)%Z ->
  let cell (k : Z) := if (b =? 0)%Z then (0%Z, k)
                      else if (b =? 1)%Z then (k, (NCols md - 1)%Z)
                      else if (b =? 2)%Z then ((NRows md - 1)%Z, k)
                      else (k, 0%Z) in
  let n := if Z.even b then NCols md else NRows md in
  let elevation (k : Z) := aget (RasterData md) (fst (cell k)) (snd (cell k)) in
  0 <= find_max_boundary md b /\
  (forall k, (0 <= k < n)%Z -> elevation k <= find_max_boundary md b) /\
  (find_max_boundary md b = 0 \/
   exists k, (0 <= k < n)%Z /\ find_max_boundary md b = elevation k) /\
  ((forall k, (0 <= k < n)%Z -> elevation k <= 0) ->
   find_max_boundary md b = 0).
Proof.
  intros Hb cell n elevation. unfold find_max_boundary.
  assert (Hcases : b = 0%Z \/ b = 1%Z \/ b = 2%Z \/ b = 3%Z) by lia.
  destruct Hcases as [-> | [-> | [-> | ->]]]; cbn in cell, n, elevation |- *;
    match goal with
    | |- 0 <= fold_left ?f ?l 0 /\ _ =>
        destruct (boundary_scan_bounds (RasterData md) l 0) as [H1 H2];
        destruct (boundary_scan_attained (RasterData md) l 0) as [H3 H4]
    end;
    (split; [exact H1|]); (split; [|split]).
  all: try (intros k Hk; apply (H2 (cell k)); unfold cell;
            apply in_map_iff; exists k;
            (split; [reflexivity | apply In_zseq; exact Hk])).
  all: try (destruct H3 as [H3|(c & Hc & H3)]; [left; exact H3|];
            right; apply in_map_iff in Hc as (k & <- & Hk);
            apply In_zseq in Hk; exists k; split; [exact Hk | exact H3]).
  all: intros Hlow; apply H4; intros c Hc;
       apply in_map_iff in Hc as (k & <- & Hk); apply In_zseq in Hk;
       exact (Hlow k Hk).
Qed.

Lemma find_max_boundary_bounds_witness :
  (0 <= 2 <= 3)%Z /\
  0 <= find_max_boundary patch_sample 2 /\
  aget (RasterData patch_sample) 2 1 <= find_max_boundary patch_sample 2 /\
  (find_max_boundary patch_sample 2 = 0 \/
   exists k, (0 <= k < 3)%Z /\
     find_max_boundary patch_sample 2 = aget (RasterData patch_sample) 2 k).
Proof.
  assert (Hb : (0 <= 2 <= 3)%Z) by lia.
  destruct (find_max_boundary_bounds patch_sample 2 Hb) as (H1 & H2 & H3 & _).
  split; [exact Hb|]. split; [exact H1|].
  split; [apply (H2 1%Z); simpl; lia | exact H3].
Defined.

(** ** Periodicity snapped to the time step *)



(** ** The run loop and its checks *)

Ltac css_norm :=
  cbn -[existsb cells Qlt_bool Qeq_bool Qabs Qminus Qplus seq Z.eqb orb].

Ltac css_finish :=
  css_norm;
  repeat match goal with
         | H : ?b = _ |- context [?b] => rewrite H; css_norm
         end;
  reflexivity.

(** X10.  [check_steady_state] is idempotent: a second call right after the
    first leaves the object as the first call left it.  In particular the
    arrival time is recorded, and the end time of modes 1 and 3 pushed back
    by it, only once. *)
Theorem check_steady_state_idempotent md :
  check_steady_state (check_steady_state md) = check_steady_state md.
Proof.
  destruct md.
  unfold check_steady_state, cell_unsteady, cycle_unsteady.
  css_norm.
  destruct cycle_steady_check0.
  - match goal with
    | |- context [existsb ?f ?l] => destruct (existsb f l) eqn:E1
    end; [css_finish|].
    destruct initial_steady_state0; [css_finish|].
    destruct ((endTime_mode0 =? 1)%Z || (endTime_mode0 =? 3)%Z) eqn:Em;
      css_finish.
  - destruct (Qlt_bool steady_state_limit0 0
              || Qlt_bool current_time0 steady_state_limit0) eqn:El.
    + match goal with
      | |- context [existsb ?f ?l] => destruct (existsb f l) eqn:E1
      end; [css_finish|].
      destruct initial_steady_state0; [css_finish|].
      destruct ((endTime_mode0 =? 1)%Z || (endTime_mode0 =? 3)%Z) eqn:Em;
        css_finish.
    + destruct initial_steady_state0; [css_finish|].
      destruct ((endTime_mode0 =? 1)%Z || (endTime_mode0 =? 3)%Z) eqn:Em;
        css_finish.
Qed.

Lemma check_end_condition_frame md :
  initial_steady_state (snd (check_end_condition md)) = initial_steady_state md /\
  endTime_mode (snd (check_end_condition md)) = endTime_mode md.
Proof.
  unfold check_end_condition.
  destruct (endTime_mode md =? 1)%Z; [split; reflexivity|].
  destruct (endTime_mode md =? 2)%Z; [split; reflexivity|].
  destruct (endTime_mode md =? 3)%Z; split; reflexivity.
Qed.

Lemma check_end_condition_before_steady_state md :
  (endTime_mode md = 1 \/ endTime_mode md = 2 \/ endTime_mode md = 3)%Z ->
  initial_steady_state md = false ->
  fst (check_end_condition md) = false.
Proof.
  intros Hm Hi. unfold check_end_condition.
  destruct Hm as [-> | [-> | ->]]; cbn [Z.eqb Pos.eqb fst]; cbn;
    rewrite Hi; reflexivity.
Qed.

(** X11.  In the end-time modes 1, 2 and 3 the run loop cannot end before
    the first arrival at steady state: if the passes of a run keep it away
    from steady state (the set [away] of objects is closed under a pass and
    the end check), the loop is still running after any number of passes.
    The hung-run [break] does not cut such a run short. *)
Theorem run_loop_without_steady_state_never_ends run_processes
        (away : LSDRasterModel -> Prop) :
  (forall md, away md ->
     initial_steady_state md = false /\
     (endTime_mode md = 1 \/ endTime_mode md = 2 \/ endTime_mode md = 3)%Z) ->
  (forall md, away md ->
     away (snd (check_end_condition (run_pass run_processes md)))) ->
  forall fuel md, away md -> run_loop run_processes fuel md = None.
Proof.
  intros Hstuck Hpass.
  induction fuel as [|fuel IH]; intros md Hmd; [reflexivity|].
  cbn [run_loop]. rewrite check_if_hung_false.
  pose proof (Hpass md Hmd) as Hnext.
  destruct (Hstuck _ Hnext) as [Hi Hm].
  destruct (check_end_condition_frame (run_pass run_processes md)) as [Fi Fm].
  rewrite Fi in Hi. rewrite Fm in Hm.
  pose proof (check_end_condition_before_steady_state _ Hm Hi) as Hstop.
  destruct (check_end_condition (run_pass run_processes md)) as [stop md'].
  simpl in Hstop, Hnext. subst stop. apply IH. exact Hnext.
Qed.

Lemma rising_run_closed md :
  rising_run md ->
  rising_run (snd (check_end_condition (run_pass rising_processes md))).
Proof.
  intros (Hi & Hm & Hc & Ht & Hl & Hr & Hn & HK & HD & z & Hz).
  destruct md. cbn in * |-. subst.
  unfold run_pass, check_periodicity_switch. cbn [K_mode D_mode Z.eqb andb orb].
  unfold rising_processes. cbn [RasterData set_zeta_old set_RasterData map].
  unfold check_steady_state, cell_unsteady.
  css_norm.
  change (cells 1 1) with [(0%Z, 0%Z)].
  cbn [existsb fst snd aget Z.ltb Z.compare orb Z.to_nat nth].
  assert (Hun : Qlt_bool (1 # 10000) (Qabs (1 + z - z)) = true).
  { apply Qlt_bool_true.
    assert (H1 : Qabs (1 + z - z) == 1).
    { setoid_replace (1 + z - z) with 1 by ring. reflexivity. }
    rewrite H1. reflexivity. }
  rewrite Hun. css_norm.
  unfold check_end_condition, rising_run. css_norm.
  repeat split; try reflexivity. eexists; reflexivity.
Defined.

Lemma run_loop_without_steady_state_never_ends_witness :
  rising_run rising_sample /\
  run_loop rising_processes 25 rising_sample = None.
Proof.
  assert (H0 : rising_run rising_sample).
  { unfold rising_run, rising_sample. repeat split; try reflexivity.
    eexists; reflexivity. }
  split; [exact H0|].
  apply (run_loop_without_steady_state_never_ends rising_processes rising_run).
  - intros md (Hi & Hm & _). split; [exact Hi | left; exact Hm].
  - exact rising_run_closed.
  - exact H0.
Defined.




(** ** Packing and unpacking the hillslope unknowns *)

Lemma zrange_length lo hi : length (zrange lo hi) = Z.to_nat (hi - lo + 1).
Proof. unfold zrange. rewrite length_map, length_seq. reflexivity. Qed.

Lemma zseq_length n : length (zseq n) = Z.to_nat n.
Proof. unfold zseq. rewrite length_map, length_seq. reflexivity. Qed.

Lemma NoDup_zrange lo hi : NoDup (zrange lo hi).
Proof.
  unfold zrange. apply Injective_map_NoDup; [|apply seq_NoDup].
  intros x y H. lia.
Qed.

Lemma grid_length (rows cols : list Z) :
  length (flat_map (fun i => map (fun j => (i, j)) cols) rows) =
  (length rows * length cols)%nat.
Proof.
  induction rows as [|r rows IH]; simpl; [reflexivity|].
  rewrite length_app, length_map, IH. reflexivity.
Qed.

Lemma nth_map_in {A B : Type} (f : A -> B) (l : list A) k d d' :
  (k < length l)%nat -> nth k (map f l) d = f (nth k l d').
Proof.
  revert k. induction l as [|x l IH]; intros k H; simpl in H; [lia|].
  destruct k as [|k]; simpl; [reflexivity|]. apply IH. lia.
Qed.

Lemma nth_zrange k lo hi d :
  (k < Z.to_nat (hi - lo + 1))%nat -> nth k (zrange lo hi) d = (lo + Z.of_nat k)%Z.
Proof.
  intros H. unfold zrange.
  rewrite (nth_map_in _ _ _ _ 0%nat) by (rewrite length_seq; exact H).
  rewrite seq_nth by exact H. reflexivity.
Qed.

Lemma nth_zseq k n d :
  (k < Z.to_nat n)%nat -> nth k (zseq n) d = Z.of_nat k.
Proof.
  intros H. unfold zseq.
  rewrite (nth_map_in _ _ _ _ 0%nat) by (rewrite length_seq; exact H).
  rewrite seq_nth by exact H. reflexivity.
Qed.

(** The cell at a position of a row-major double loop. *)
Lemma nth_grid (rows cols : list Z) a b d :
  (a < length rows)%nat -> (b < length cols)%nat ->
  nth (a * length cols + b)
      (flat_map (fun i => map (fun j => (i, j)) cols) rows) d =
  (nth a rows (fst d), nth b cols (snd d)).
Proof.
  revert a. induction rows as [|r rows IH]; intros a Ha Hb; simpl in Ha; [lia|].
  simpl flat_map. destruct a as [|a].
  - simpl. rewrite app_nth1 by (rewrite length_map; exact Hb).
    rewrite (nth_map_in _ _ _ _ (snd d)) by exact Hb. reflexivity.
  - rewrite app_nth2 by (rewrite length_map; simpl; lia).
    rewrite length_map.
    replace (S a * length cols + b - length cols)%nat
      with (a * length cols + b)%nat by (simpl; lia).
    rewrite IH by lia. reflexivity.
Qed.

Lemma interpret_boundary_dimension md periodic0 :
  fst (fst (interpret_boundary md periodic0)) = 0%Z \/
  fst (fst (interpret_boundary md periodic0)) = 1%Z.
Proof.
  unfold interpret_boundary. change (zseq 4) with [0; 1; 2; 3]%Z.
  cbn [fold_left fst].
  destruct (is_b (bc_code md 0)), (is_b (bc_code md 1)),
           (is_b (bc_code md 2)), (is_b (bc_code md 3)); cbn; auto.
Qed.

Lemma repack_cells_length md dimension :
  (0 <= NRows md)%Z -> (0 <= NCols md)%Z ->
  length (repack_cells md dimension) =
  Z.to_nat (if (dimension =? 0)%Z then ((NRows md - 2) * NCols md)%Z
            else (NRows md * (NCols md - 2))%Z).
Proof.
  intros Hr Hc. unfold repack_cells.
  destruct (dimension =? 0)%Z; rewrite grid_length, !zrange_length.
  - destruct (Z_lt_le_dec (NRows md - 2) 0) as [Hn|Hn].
    + replace (Z.to_nat (NRows md - 2 - 1 + 1)) with 0%nat by lia.
      replace (Z.to_nat ((NRows md - 2) * NCols md)) with 0%nat by nia.
      reflexivity.
    + rewrite Z2Nat.inj_mul by lia. f_equal; f_equal; lia.
  - destruct (Z_lt_le_dec (NCols md - 2) 0) as [Hn|Hn].
    + replace (Z.to_nat (NCols md - 2 - 1 + 1)) with 0%nat by lia.
      replace (Z.to_nat (NRows md * (NCols md - 2))) with 0%nat by nia.
      lia.
    + rewrite Z2Nat.inj_mul by lia. f_equal; f_equal; lia.
Qed.

(** X13.  [interpret_boundary] always leaves [dimension] at 0 or 1, so its
    closing test never ends the program, and on a grid with at least two
    rows and two columns the [size] it reports is the number of cells
    [repack_vector] writes for that dimension: the unknowns vector is
    consumed entry for entry.  (With fewer rows or columns the size can be
    negative, and [repack_vector] writes no cell.) *)
Theorem interpret_boundary_size md periodic0 :
  let dimension := fst (fst (interpret_boundary md periodic0)) in
  let size := snd (interpret_boundary md periodic0) in
  (dimension = 0%Z \/ dimension = 1%Z) /\
  ((2 <= NRows md)%Z -> (2 <= NCols md)%Z ->
   Z.of_nat (length (repack_cells md dimension)) = size) /\
  ((size < 0)%Z -> (0 <= NRows md)%Z -> (0 <= NCols md)%Z ->
   repack_cells md dimension = nil).
Proof.
  intros dimension size.
  assert (Hsize : size = if (dimension =? 0)%Z
                         then ((NRows md - 2) * NCols md)%Z
                         else (NRows md * (NCols md - 2))%Z) by reflexivity.
  split; [apply interpret_boundary_dimension|]. split.
  - intros Hr Hc. rewrite repack_cells_length by lia. rewrite <- Hsize.
    apply Z2Nat.id. rewrite Hsize. destruct (dimension =? 0)%Z; nia.
  - intros Hneg Hr Hc. apply length_zero_iff_nil.
    rewrite repack_cells_length by lia. rewrite <- Hsize. lia.
Qed.

Lemma interpret_boundary_size_witness :
  (2 <= NRows patch_sample)%Z /\ (2 <= NCols patch_sample)%Z /\
  Z.of_nat (length (repack_cells patch_sample
                      (fst (fst (interpret_boundary patch_sample false))))) =
  snd (interpret_boundary patch_sample false).
Proof.
  assert (Hr : (2 <= NRows patch_sample)%Z) by (simpl; lia).
  assert (Hc : (2 <= NCols patch_sample)%Z) by (simpl; lia).
  split; [exact Hr|]. split; [exact Hc|].
  exact (proj1 (proj2 (interpret_boundary_size patch_sample false)) Hr Hc).
Defined.

Lemma NoDup_repack_cells md dimension : NoDup (repack_cells md dimension).
Proof.
  unfold repack_cells.
  destruct (dimension =? 0)%Z; apply NoDup_grid; apply NoDup_zrange.
Qed.

Lemma In_repack_cells md dimension i j :
  In (i, j) (repack_cells md dimension) <->
  if (dimension =? 0)%Z
  then (1 <= i <= NRows md - 2)%Z /\ (0 <= j <= NCols md - 1)%Z
  else (0 <= i <= NRows md - 1)%Z /\ (1 <= j <= NCols md - 2)%Z.
Proof.
  unfold repack_cells.
  destruct (dimension =? 0)%Z; rewrite In_grid, !In_zrange; reflexivity.
Qed.

Lemma repack_cells_in_grid md dimension c :
  In c (repack_cells md dimension) ->
  (0 <= fst c < NRows md)%Z /\ (0 <= snd c < NCols md)%Z.
Proof.
  destruct c as [a b]. intros Hc. apply In_repack_cells in Hc. simpl.
  destruct (dimension =? 0)%Z; lia.
Qed.

(** The [k]-th cell of the loop receives the [k]-th entry read. *)
Lemma repack_fold_visited data_vector nr nc l : forall zeta p,
  has_dims zeta nr nc -> NoDup l ->
  (forall c, In c l -> (0 <= fst c < nr)%Z /\ (0 <= snd c < nc)%Z) ->
  (0 <= p)%Z ->
  forall k, (k < length l)%nat ->
  aget (fst (fold_left (repack_cell data_vector) l (zeta, p)))
       (fst (nth k l (0, 0)%Z)) (snd (nth k l (0, 0)%Z)) =
  nth (Z.to_nat p + k) data_vector 0.
Proof.
  induction l as [|c l IH]; intros zeta p Hd Hnd Hin Hp k Hk; simpl in Hk; [lia|].
  inversion Hnd as [|? ? Hnot Hnd2]; subst.
  destruct k as [|k]; simpl.
  - rewrite repack_fold_other by (destruct c; exact Hnot).
    rewrite aget_aset_same.
    + f_equal. lia.
    + destruct (Hin c (or_introl eq_refl)) as [H1 H2].
      apply (has_dims_inside _ _ _ _ _ Hd); assumption.
  - rewrite IH; try assumption; try lia.
    + f_equal. lia.
    + apply has_dims_aset. assumption.
    + intros c2 Hc2. apply Hin. right. assumption.
Qed.

(** The position of a cell in a row-major double loop. *)
Lemma nth_zrange_grid si ei sj ej i j :
  (si <= i <= ei)%Z -> (sj <= j <= ej)%Z ->
  let k := Z.to_nat ((i - si) * (ej - sj + 1) + (j - sj)) in
  (k < length (flat_map (fun i => map (fun j => (i, j)) (zrange sj ej))
                        (zrange si ei)))%nat /\
  nth k (flat_map (fun i => map (fun j => (i, j)) (zrange sj ej))
                  (zrange si ei)) (0, 0)%Z = (i, j).
Proof.
  intros Hi Hj k.
  assert (Hk : k = (Z.to_nat (i - si) * length (zrange sj ej) +
                    Z.to_nat (j - sj))%nat).
  { unfold k. rewrite zrange_length.
    rewrite Z2Nat.inj_add, Z2Nat.inj_mul by nia. reflexivity. }
  split.
  - rewrite grid_length, Hk, !zrange_length. nia.
  - rewrite Hk, nth_grid by (rewrite zrange_length; lia).
    rewrite !nth_zrange by lia. simpl. f_equal; lia.
Qed.

(** X14.  [repack_vector] lays the unknowns out row by row: with the fixed
    edges north and south (dimension 0) the cell [(i, j)] of an interior row
    receives entry [(i - 1) * NCols + j]; otherwise the cell of an interior
    column receives entry [i * (NCols - 2) + (j - 1)].  Cells outside these
    ranges keep their elevation. *)
Theorem repack_vector_layout md data_vector dimension i j :
  has_dims (RasterData md) (NRows md) (NCols md) ->
  let zeta_new := RasterData (repack_vector md data_vector dimension) in
  (In (i, j) (repack_cells md dimension) ->
   aget zeta_new i j =
   nth (Z.to_nat (if (dimension =? 0)%Z
                  then (i - 1) * NCols md + j
                  else i * (NCols md - 2) + (j - 1))%Z) data_vector 0) /\
  (~ In (i, j) (repack_cells md dimension) ->
   aget zeta_new i j = aget (RasterData md) i j).
Proof.
  intros Hd zeta_new. split.
  - intros Hin. pose proof Hin as Hrange. apply In_repack_cells in Hrange.
    unfold zeta_new, repack_vector. simpl RasterData.
    pose proof (repack_fold_visited data_vector _ _ _ (RasterData md) 0%Z Hd
                  (NoDup_repack_cells md dimension)
                  (repack_cells_in_grid md dimension) (Z.le_refl 0)) as Hv.
    unfold repack_cells in Hv |- *.
    destruct (dimension =? 0)%Z.
    + destruct (nth_zrange_grid 1 (NRows md - 2) 0 (NCols md - 1) i j)
        as [Hk Hn]; [lia|lia|].
      specialize (Hv _ Hk). rewrite Hn in Hv. simpl fst in Hv. simpl snd in Hv.
      rewrite Hv. f_equal. simpl. f_equal. lia.
    + destruct (nth_zrange_grid 0 (NRows md - 1) 1 (NCols md - 2) i j)
        as [Hk Hn]; [lia|lia|].
      specialize (Hv _ Hk). rewrite Hn in Hv. simpl fst in Hv. simpl snd in Hv.
      rewrite Hv. f_equal. simpl. f_equal. lia.
  - intros Hn. apply repack_vector_other. assumption.
Qed.

Lemma repack_vector_layout_witness :
  has_dims (RasterData patch_sample) (NRows patch_sample) (NCols patch_sample) /\
  aget (RasterData (repack_vector patch_sample [10; 20; 30] 0)) 1 2 = 30 /\
  aget (RasterData (repack_vector patch_sample [10; 20; 30] 0)) 2 2 = 9.
Proof.
  assert (Hd : has_dims (RasterData patch_sample) (NRows patch_sample)
                 (NCols patch_sample)) by apply patch_sample_sized.
  split; [exact Hd|].
  pose proof (repack_vector_layout patch_sample [10; 20; 30] 0 1 2 Hd) as [H1 _].
  pose proof (repack_vector_layout patch_sample [10; 20; 30] 0 2 2 Hd) as [_ H2].
  split.
  - rewrite H1; [reflexivity|]. apply In_repack_cells. simpl. lia.
  - rewrite H2; [reflexivity|]. rewrite In_repack_cells. simpl. lia.
Defined.

(** ** Vectors filled at a running counter *)

Lemma counter_fill_length {A B : Type} (f : A -> B) l : forall vec p,
  length (fst (counter_fill f l vec p)) = length vec.
Proof.
  unfold counter_fill.
  induction l as [|c l IH]; intros vec p; simpl; [reflexivity|].
  rewrite IH. apply list_set_length.
Qed.

Lemma counter_fill_counter {A B : Type} (f : A -> B) l : forall vec p,
  snd (counter_fill f l vec p) = (p + Z.of_nat (length l))%Z.
Proof.
  unfold counter_fill.
  induction l as [|c l IH]; intros vec p; simpl fold_left.
  - simpl. lia.
  - rewrite IH. simpl length. simpl snd. lia.
Qed.

Lemma counter_fill_before {A B : Type} (f : A -> B) l d : forall vec p n,
  (0 <= p)%Z -> (n < Z.to_nat p)%nat ->
  nth n (fst (counter_fill f l vec p)) d = nth n vec d.
Proof.
  unfold counter_fill.
  induction l as [|c l IH]; intros vec p n Hp Hn; simpl; [reflexivity|].
  rewrite IH by lia. apply nth_list_set_other. lia.
Qed.

(** The entry at the counter's [k]-th position is the value for the
    [k]-th element, provided the vector is long enough. *)
Lemma counter_fill_nth {A B : Type} (f : A -> B) l d dA : forall vec p k,
  (0 <= p)%Z -> (Z.to_nat p + length l <= length vec)%nat ->
  (k < length l)%nat ->
  nth (Z.to_nat p + k) (fst (counter_fill f l vec p)) d = f (nth k l dA).
Proof.
  induction l as [|c l IH]; intros vec p k Hp Hlen Hk; simpl in Hk, Hlen; [lia|].
  destruct k as [|k].
  - unfold counter_fill. simpl fold_left.
    change (fold_left _ l ?s) with (counter_fill f l (fst s) (snd s)).
    simpl fst. simpl snd.
    rewrite counter_fill_before by lia.
    rewrite Nat.add_0_r. apply nth_list_set_same. lia.
  - unfold counter_fill. simpl fold_left.
    change (fold_left _ l ?s) with (counter_fill f l (fst s) (snd s)).
    simpl fst. simpl snd.
    replace (Z.to_nat p + S k)%nat with (Z.to_nat (p + 1) + k)%nat by lia.
    rewrite (IH _ _ k); [reflexivity|lia| |lia].
    rewrite list_set_length. lia.
Qed.

Section FiniteDifferenceVector.
Variable sin : Q -> Q.
Variable stream_K_soil : LSDRasterModel -> Q.

Lemma build_fd_vector_entry md dimension k :
  (0 <= NRows md)%Z -> (0 <= NCols md)%Z ->
  (k < length (repack_cells md dimension))%nat ->
  nth k (build_fd_vector sin stream_K_soil md dimension
           (if (dimension =? 0)%Z then ((NRows md - 2) * NCols md)%Z
            else (NRows md * (NCols md - 2))%Z)) 0 =
  fd_push_val sin stream_K_soil md dimension
              (nth k (repack_cells md dimension) (0, 0)%Z).
Proof.
  intros Hr Hc Hk. unfold build_fd_vector.
  change (fold_left _ ?l (?v, ?p))
    with (counter_fill (fd_push_val sin stream_K_soil md dimension) l v p).
  change k with (Z.to_nat 0 + k)%nat at 1.
  apply counter_fill_nth; [lia| |exact Hk].
  rewrite repeat_length, <- repack_cells_length by assumption. simpl. lia.
Qed.

Lemma fd_push_val_no_diffusion md dimension i j :
  get_D sin stream_K_soil md == 0 ->
  fd_push_val sin stream_K_soil md dimension (i, j) == aget (RasterData md) i j.
Proof.
  intros H0. unfold fd_push_val.
  set (r := get_D sin stream_K_soil md * timeStep md /
            (DataResolution md * DataResolution md)).
  assert (Hr0 : r == 0) by (unfold r, Qdiv; rewrite H0; ring).
  destruct (dimension =? 0)%Z.
  - destruct (i =? 1)%Z; [rewrite Hr0; ring|].
    destruct (j =? NRows md - 2)%Z; [rewrite Hr0; ring|reflexivity].
  - destruct (dimension =? 1)%Z; [|reflexivity].
    destruct (j =? 1)%Z; [rewrite Hr0; ring|].
    destruct (j =? NCols md - 2)%Z; [rewrite Hr0; ring|reflexivity].
Qed.

(** X15.  [build_fd_vector] and [repack_vector] use the same cell order:
    writing the right-hand side built from a grid back into it puts at each
    interior cell the value [build_fd_vector] computed for that very cell and
    leaves the fixed edges alone.  In particular, with a zero diffusivity
    the round trip gives back the elevations. *)
Theorem build_then_repack md periodic0 i j :
  has_dims (RasterData md) (NRows md) (NCols md) ->
  let dimension := fst (fst (interpret_boundary md periodic0)) in
  let size := snd (interpret_boundary md periodic0) in
  let zeta_new :=
    RasterData (repack_vector md
                  (build_fd_vector sin stream_K_soil md dimension size)
                  dimension) in
  (In (i, j) (repack_cells md dimension) ->
   aget zeta_new i j = fd_push_val sin stream_K_soil md dimension (i, j)) /\
  (~ In (i, j) (repack_cells md dimension) ->
   aget zeta_new i j = aget (RasterData md) i j) /\
  (get_D sin stream_K_soil md == 0 ->
   aget zeta_new i j == aget (RasterData md) i j).
Proof.
  intros Hd dimension size zeta_new.
  assert (Hin : In (i, j) (repack_cells md dimension) ->
                aget zeta_new i j =
                fd_push_val sin stream_K_soil md dimension (i, j)).
  { intros Hin.
    pose proof (repack_cells_in_grid md dimension _ Hin) as [Hi Hj].
    simpl in Hi, Hj.
    apply (In_nth _ _ (0, 0)%Z) in Hin as (k & Hk & Hnth).
    pose proof (repack_fold_visited
                  (build_fd_vector sin stream_K_soil md dimension size)
                  _ _ _ (RasterData md) 0%Z Hd
                  (NoDup_repack_cells md dimension)
                  (repack_cells_in_grid md dimension) (Z.le_refl 0) k Hk) as Hv.
    rewrite Hnth in Hv. simpl fst in Hv. simpl snd in Hv.
    unfold zeta_new, repack_vector. simpl RasterData. rewrite Hv.
    simpl Nat.add. unfold size.
    change (snd (interpret_boundary md periodic0))
      with (if (dimension =? 0)%Z then ((NRows md - 2) * NCols md)%Z
            else (NRows md * (NCols md - 2))%Z).
    rewrite build_fd_vector_entry by lia. rewrite Hnth. reflexivity. }
  assert (Hout : ~ In (i, j) (repack_cells md dimension) ->
                 aget zeta_new i j = aget (RasterData md) i j).
  { intros Hn. apply repack_vector_other. assumption. }
  split; [exact Hin|]. split; [exact Hout|].
  intros H0.
  destruct (in_dec (fun a b : Z * Z =>
                      ltac:(decide equality; apply Z.eq_dec) : {a = b} + {a <> b})
                   (i, j) (repack_cells md dimension)) as [Hyes|Hno].
  - rewrite (Hin Hyes). apply fd_push_val_no_diffusion. assumption.
  - rewrite (Hout Hno). reflexivity.
Qed.
End FiniteDifferenceVector.

Lemma build_then_repack_witness :
  has_dims (RasterData patch_sample) (NRows patch_sample) (NCols patch_sample) /\
  aget (RasterData (repack_vector patch_sample
         (build_fd_vector sin_sample stream_sample patch_sample 0 3) 0)) 1 0 =
  fd_push_val sin_sample stream_sample patch_sample 0 (1, 0)%Z /\
  aget (RasterData (repack_vector patch_sample
         (build_fd_vector sin_sample stream_sample patch_sample 0 3) 0)) 0 1 =
  aget (RasterData patch_sample) 0 1.
Proof.
  assert (Hd : has_dims (RasterData patch_sample) (NRows patch_sample)
                 (NCols patch_sample)) by apply patch_sample_sized.
  split; [exact Hd|].
  pose proof (build_then_repack sin_sample stream_sample patch_sample false
                1 0 Hd) as [H1 _].
  pose proof (build_then_repack sin_sample stream_sample patch_sample false
                0 1 Hd) as [_ [H2 _]].
  split.
  - apply H1. apply In_repack_cells. simpl. lia.
  - apply H2. rewrite In_repack_cells. simpl. lia.
Defined.

(** ** Index vectors of the assembly matrix *)

Lemma counter_fill_cons {A B : Type} (f : A -> B) c l vec p :
  counter_fill f (c :: l) vec p =
  counter_fill f l (list_set vec (Z.to_nat p) (f c)) (p + 1)%Z.
Proof. reflexivity. Qed.

(** The five vectors are filled independently of one another. *)
Lemma DAVE_k_values_fold NCols l : forall v1 v2 v3 v4 v5 p,
  fst (fold_left (DAVE_k_values_step NCols) l (v1, v2, v3, v4, v5, p)) =
  (fst (counter_fill (fun c => NCols * fst c + snd c)%Z l v1 p),
   fst (counter_fill (fun c => NCols * (fst c + 1) + snd c)%Z l v2 p),
   fst (counter_fill (fun c => NCols * (fst c - 1) + snd c)%Z l v3 p),
   fst (counter_fill
          (fun c => if (snd c =? 0)%Z then NCols * fst c + snd c + 1
                    else if (snd c =? NCols - 1)%Z then NCols * fst c
                         else NCols * fst c + snd c + 1)%Z
          l v4 p),
   fst (counter_fill
          (fun c => if (snd c =? 0)%Z then NCols * fst c + NCols - 1
                    else NCols * fst c + snd c - 1)%Z l v5 p)).
Proof.
  induction l as [|[row col] l IH]; intros v1 v2 v3 v4 v5 p; [reflexivity|].
  rewrite !counter_fill_cons. simpl fold_left.
  match goal with
  | |- context [fold_left _ l ?x] =>
    let y := eval cbv beta iota zeta delta [DAVE_k_values_step] in x in
    change x with y
  end.
  cbn [fst snd].
  destruct (col =? 0)%Z; [|destruct (col =? NCols - 1)%Z];
    rewrite IH; reflexivity.
Qed.

Lemma nth_band_grid lo hi nc i j :
  (lo <= i <= hi)%Z -> (0 <= j < nc)%Z ->
  let k := Z.to_nat ((i - lo) * nc + j) in
  (k < length (flat_map (fun i => map (fun j => (i, j)) (zseq nc))
                        (zrange lo hi)))%nat /\
  nth k (flat_map (fun i => map (fun j => (i, j)) (zseq nc))
                  (zrange lo hi)) (0, 0)%Z = (i, j).
Proof.
  intros Hi Hj k.
  assert (Hk : k = (Z.to_nat (i - lo) * length (zseq nc) + Z.to_nat j)%nat).
  { unfold k. rewrite zseq_length.
    rewrite Z2Nat.inj_add, Z2Nat.inj_mul by nia. reflexivity. }
  split.
  - rewrite grid_length, Hk, zrange_length, !zseq_length. nia.
  - rewrite Hk, nth_grid by (rewrite ?zrange_length, ?zseq_length; lia).
    rewrite nth_zrange, nth_zseq by lia. simpl. f_equal; lia.
Qed.

Lemma DAVE_k_values_entries NRows NCols row col :
  (2 <= NCols)%Z -> (1 <= row <= NRows - 2)%Z -> (0 <= col < NCols)%Z ->
  let '(k_i_j, k_ip1_j, k_im1_j, k_i_jp1, k_i_jm1) :=
    DAVE_calculate_k_values_for_assembly_matrix NRows NCols in
  let n := Z.to_nat ((row - 1) * NCols + col) in
  nth n k_i_j 0%Z = (NCols * row + col)%Z /\
  nth n k_ip1_j 0%Z = (NCols * (row + 1) + col)%Z /\
  nth n k_im1_j 0%Z = (NCols * (row - 1) + col)%Z /\
  nth n k_i_jp1 0%Z = (NCols * row + (col + 1) mod NCols)%Z /\
  nth n k_i_jm1 0%Z = (NCols * row + (col - 1) mod NCols)%Z.
Proof.
  intros Hnc Hrow Hcol.
  unfold DAVE_calculate_k_values_for_assembly_matrix.
  rewrite DAVE_k_values_fold.
  destruct (nth_band_grid 1 (NRows - 2) NCols row col Hrow Hcol) as [Hk Hn].
  set (l := flat_map (fun i => map (fun j => (i, j)) (zseq NCols))
                     (zrange 1 (NRows - 2))) in *.
  set (n := Z.to_nat ((row - 1) * NCols + col)) in *.
  assert (Hlen : (Z.to_nat 0 + length l <=
                  length (repeat 0%Z (Z.to_nat ((NRows - 2) * NCols))))%nat).
  { rewrite repeat_length. unfold l.
    rewrite grid_length, zrange_length, zseq_length. simpl. nia. }
  assert (Hfill : forall f : Z * Z -> Z,
            nth n (fst (counter_fill f l
                          (repeat 0%Z (Z.to_nat ((NRows - 2) * NCols))) 0)) 0%Z =
            f (row, col)).
  { intros f. change n with (Z.to_nat 0 + n)%nat.
    rewrite (counter_fill_nth f l 0%Z (0, 0)%Z) by (try assumption; lia).
    rewrite Hn. reflexivity. }
  rewrite !Hfill. cbn [fst snd].
  split; [reflexivity|]. split; [reflexivity|]. split; [reflexivity|].
  split.
  - destruct (col =? 0)%Z eqn:E0;
      [apply Z.eqb_eq in E0; rewrite Z.mod_small by lia; lia|].
    apply Z.eqb_neq in E0.
    destruct (col =? NCols - 1)%Z eqn:E1;
      [apply Z.eqb_eq in E1|apply Z.eqb_neq in E1].
    + subst col. replace (NCols - 1 + 1)%Z with NCols by lia.
      rewrite Z.mod_same by lia. lia.
    + rewrite Z.mod_small by lia. lia.
  - destruct (col =? 0)%Z eqn:E0;
      [apply Z.eqb_eq in E0|apply Z.eqb_neq in E0].
    + subst col.
      assert (Hm : ((0 - 1) mod NCols = NCols - 1)%Z)
        by (symmetry; apply (Z.mod_unique _ _ (-1)%Z); lia).
      rewrite Hm. lia.
    + rewrite Z.mod_small by lia. lia.
Qed.

(** X16.  For an interior node [(row, col)] of a raster at least two columns
    wide, the entry [(row - 1) * NCols + col] of the five vectors of
    [DAVE_calculate_k_values_for_assembly_matrix] holds the row-major index
    in the whole raster of the node, of the node one row up and one row
    down, and of its two neighbours in the row with the columns wrapping
    around from one side to the other; all five lie below [NRows * NCols],
    the problem dimension of [DAVE_initiate_assembler_matrix]. *)
Theorem DAVE_k_values_neighbours NRows NCols row col :
  (2 <= NCols)%Z -> (1 <= row <= NRows - 2)%Z -> (0 <= col < NCols)%Z ->
  let '(k_i_j, k_ip1_j, k_im1_j, k_i_jp1, k_i_jm1) :=
    DAVE_calculate_k_values_for_assembly_matrix NRows NCols in
  let n := Z.to_nat ((row - 1) * NCols + col) in
  nth n k_i_j 0%Z = (NCols * row + col)%Z /\
  nth n k_ip1_j 0%Z = (NCols * (row + 1) + col)%Z /\
  nth n k_im1_j 0%Z = (NCols * (row - 1) + col)%Z /\
  nth n k_i_jp1 0%Z = (NCols * row + (col + 1) mod NCols)%Z /\
  nth n k_i_jm1 0%Z = (NCols * row + (col - 1) mod NCols)%Z /\
  Forall (fun k => (0 <= k < NRows * NCols)%Z)
         [nth n k_i_j 0%Z; nth n k_ip1_j 0%Z; nth n k_im1_j 0%Z;
          nth n k_i_jp1 0%Z; nth n k_i_jm1 0%Z].
Proof.
  intros Hnc Hrow Hcol.
  pose proof (DAVE_k_values_entries NRows NCols row col Hnc Hrow Hcol) as H.
  destruct (DAVE_calculate_k_values_for_assembly_matrix NRows NCols)
    as [[[[k_i_j k_ip1_j] k_im1_j] k_i_jp1] k_i_jm1].
  cbv zeta in H |- *.
  destruct H as (H1 & H2 & H3 & H4 & H5).
  split; [exact H1|]. split; [exact H2|]. split; [exact H3|].
  split; [exact H4|]. split; [exact H5|].
  rewrite H1, H2, H3, H4, H5.
  pose proof (Z.mod_pos_bound (col + 1) NCols) as Hp.
  pose proof (Z.mod_pos_bound (col - 1) NCols) as Hm.
  repeat constructor; nia.
Qed.

Lemma DAVE_k_values_neighbours_witness :
  (2 <= 3)%Z /\ (1 <= 2 <= 4 - 2)%Z /\ (0 <= 2 < 3)%Z /\
  nth 5 (snd (fst (DAVE_calculate_k_values_for_assembly_matrix 4 3))) 0%Z = 6%Z.
Proof.
  assert (H1 : (2 <= 3)%Z) by lia.
  assert (H2 : (1 <= 2 <= 4 - 2)%Z) by lia.
  assert (H3 : (0 <= 2 < 3)%Z) by lia.
  split; [exact H1|]. split; [exact H2|]. split; [exact H3|].
  pose proof (DAVE_k_values_neighbours 4 3 2 2 H1 H2 H3) as H.
  destruct (DAVE_calculate_k_values_for_assembly_matrix 4 3)
    as [[[[k_i_j k_ip1_j] k_im1_j] k_i_jp1] k_i_jm1].
  destruct H as (_ & _ & _ & H & _). exact H.
Defined.

Lemma k_values_step_shift NCols st row col :
  DAVE_k_values_step NCols st ((row + 1)%Z, col) =
  k_values_step NCols st (row, col).
Proof.
  destruct st as [[[[[v1 v2] v3] v4] v5] p].
  unfold DAVE_k_values_step, k_values_step.
  replace (row + 1 + 1)%Z with (row + 2)%Z by lia.
  replace (row + 1 - 1)%Z with row by lia.
  reflexivity.
Qed.

Lemma zrange_1_shift n m :
  Z.to_nat n = Z.to_nat m -> zrange 1 m = map (fun k => (k + 1)%Z) (zseq n).
Proof.
  intros H. unfold zrange, zseq. rewrite map_map.
  replace (Z.to_nat (m - 1 + 1)) with (Z.to_nat n) by (rewrite H; f_equal; lia).
  apply map_ext. intros k. lia.
Qed.

(** X17.  The two builders of the index vectors agree:
    [calculate_k_values_for_assembly_matrix] on an [NRows] by [NCols] raster
    produces the vectors [DAVE_calculate_k_values_for_assembly_matrix]
    produces on a raster with two more rows, the rows the first adds as a
    buffer north and south. *)
Theorem calculate_k_values_as_DAVE NRows NCols :
  calculate_k_values_for_assembly_matrix NRows NCols =
  DAVE_calculate_k_values_for_assembly_matrix (NRows + 2) NCols.
Proof.
  unfold calculate_k_values_for_assembly_matrix,
    DAVE_calculate_k_values_for_assembly_matrix, cells.
  replace ((NRows + 2 - 2) * NCols)%Z with (NRows * NCols)%Z by ring.
  rewrite (zrange_1_shift NRows) by (f_equal; lia).
  f_equal.
  generalize (repeat 0%Z (Z.to_nat (NRows * NCols)),
              repeat 0%Z (Z.to_nat (NRows * NCols)),
              repeat 0%Z (Z.to_nat (NRows * NCols)),
              repeat 0%Z (Z.to_nat (NRows * NCols)),
              repeat 0%Z (Z.to_nat (NRows * NCols)), 0%Z).
  generalize (zseq NCols) as cols. generalize (zseq NRows) as rows.
  induction rows as [|r rows IH]; intros cols st; [reflexivity|].
  simpl. rewrite !fold_left_app, IH. f_equal.
  generalize st. clear.
  induction cols as [|c cols IHc]; intros st; [reflexivity|].
  simpl. rewrite k_values_step_shift. apply IHc.
Qed.

(** ** Passes of the adaptive time-step loop *)

Section CreepPassFacts.
Variable sin : Q -> Q.
Variable stream_K_soil : LSDRasterModel -> Q.
Variable assembler_solution :
  LSDRasterModel -> Array2D -> Array2D -> Q * Q * Q * Q -> Q -> Q -> Array2D.
Variables uplift_rate fluvial_erosion_rate : Array2D.
Variable iteration_tolerance : Q.
Variables South North : Q.

Let inner := creep_inner assembler_solution uplift_rate fluvial_erosion_rate
               iteration_tolerance South North.
Let iterations := creep_iterations assembler_solution uplift_rate
                    fluvial_erosion_rate iteration_tolerance South North.
Let pass_result := creep_pass_result assembler_solution uplift_rate
                     fluvial_erosion_rate iteration_tolerance South North.
Let timestep_call := DAVE_nonlinear_creep_timestep sin stream_K_soil
                       assembler_solution uplift_rate fluvial_erosion_rate
                       iteration_tolerance South North.

Lemma creep_inner_step k coeffs md max_residual n :
  inner (S k) coeffs md max_residual n =
  if Qlt_bool iteration_tolerance max_residual && (n <=? max_iterations)%Z
  then
    let md1 := set_zeta_this_iter md
                 (assembler_solution md uplift_rate fluvial_erosion_rate
                    coeffs South North) in
    let max_residual1 :=
      fold_left (residual_cell (zeta_this_iter md1) (zeta_last_iter md1))
                (cells (NRows md1) (NCols md1)) 0 in
    let md2 := set_zeta_last_iter md1 (zeta_this_iter md1) in
    inner k coeffs md2 max_residual1 (n + 1)%Z
  else (md, max_residual, n).
Proof. reflexivity. Qed.

Lemma creep_inner_count k coeffs : forall md max_residual n,
  (n <= snd (inner k coeffs md max_residual n) <=
   Z.max n (max_iterations + 1))%Z.
Proof.
  unfold inner, max_iterations.
  induction k as [|k IH]; intros md mr n; cbn [creep_inner snd]; [lia|].
  unfold max_iterations.
  destruct (Qlt_bool iteration_tolerance mr && (n <=? 10)%Z) eqn:E;
    [|cbn [snd]; lia].
  apply andb_true_iff in E as [_ En]. apply Z.leb_le in En.
  match goal with
  | |- context [creep_inner _ _ _ _ _ _ k coeffs ?m ?r ?c] =>
      specialize (IH m r c)
  end.
  lia.
Qed.

Lemma creep_inner_exit k coeffs : forall md max_residual n,
  (n <= max_iterations + 1)%Z -> (max_iterations + 1 - n <= Z.of_nat k)%Z ->
  snd (fst (inner k coeffs md max_residual n)) <= iteration_tolerance \/
  snd (inner k coeffs md max_residual n) = (max_iterations + 1)%Z.
Proof.
  unfold inner, max_iterations.
  induction k as [|k IH]; intros md mr n Hn Hk; cbn [creep_inner fst snd].
  - right. lia.
  - unfold max_iterations.
    destruct (Qlt_bool iteration_tolerance mr && (n <=? 10)%Z) eqn:E.
    + apply andb_true_iff in E as [_ En]. apply Z.leb_le in En.
      apply IH; lia.
    + cbn [fst snd]. apply andb_false_iff in E as [E|E].
      * left. apply Qlt_bool_false. assumption.
      * apply Z.leb_gt in E. right. lia.
Qed.

Lemma creep_inner_more_fuel k coeffs : forall md max_residual n,
  (max_iterations + 1 - n <= Z.of_nat k)%Z ->
  inner (S k) coeffs md max_residual n = inner k coeffs md max_residual n.
Proof.
  unfold inner, max_iterations.
  induction k as [|k IH]; intros md mr n Hk.
  - cbn [creep_inner]. unfold max_iterations.
    destruct (n <=? 10)%Z eqn:En; [apply Z.leb_le in En; lia|].
    rewrite andb_false_r. reflexivity.
  - change (creep_inner assembler_solution uplift_rate fluvial_erosion_rate
              iteration_tolerance South North (S (S k)) coeffs md mr n)
      with (if Qlt_bool iteration_tolerance mr && (n <=? 10)%Z
            then
              let md1 := set_zeta_this_iter md
                           (assembler_solution md uplift_rate
                              fluvial_erosion_rate coeffs South North) in
              let mr1 := fold_left (residual_cell (zeta_this_iter md1)
                                                  (zeta_last_iter md1))
                                   (cells (NRows md1) (NCols md1)) 0 in
              let md2 := set_zeta_last_iter md1 (zeta_this_iter md1) in
              creep_inner assembler_solution uplift_rate fluvial_erosion_rate
                iteration_tolerance South North (S k) coeffs md2 mr1 (n + 1)%Z
            else (md, mr, n)).
    cbv zeta. rewrite IH by lia. reflexivity.
Qed.

(** X18.  A pass of the adaptive loop makes at most [max_iterations + 1],
    that is 11, solves, however long the inner loop is allowed to run; the
    first pass of a call, entered with [max_residual] above the tolerance,
    makes at least one; and a pass that stops before the eleventh solve has
    brought the largest change between iterates down to the tolerance. *)
Theorem creep_iterations_bounds md coeffs max_residual :
  (0 <= iterations (md, coeffs, max_residual) <= max_iterations + 1)%Z /\
  Z.le 1 (iterations (md, coeffs, iteration_tolerance + 1)) /\
  (forall extra md0 n,
     (0 <= n)%Z ->
     inner (Z.to_nat (max_iterations + 1) + extra) coeffs md0 max_residual n =
     inner (Z.to_nat (max_iterations + 1)) coeffs md0 max_residual n) /\
  ((iterations (md, coeffs, max_residual) <= max_iterations)%Z ->
   snd (pass_result (md, coeffs, max_residual)) <= iteration_tolerance).
Proof.
  split; [|split; [|split]].
  - unfold iterations, creep_iterations.
    match goal with
    | |- context [creep_inner _ _ _ _ _ _ ?k coeffs ?m ?r ?c] =>
        pose proof (creep_inner_count k coeffs m r c) as H
    end.
    unfold inner, max_iterations in *. lia.
  - unfold iterations, creep_iterations.
    change (Z.to_nat (max_iterations + 1)) with 11%nat.
    fold inner. rewrite creep_inner_step.
    assert (Ht : Qlt_bool iteration_tolerance (iteration_tolerance + 1) = true)
      by (apply Qlt_bool_true; lra).
    rewrite Ht. change (0 <=? max_iterations)%Z with true. cbn [andb]. cbv zeta.
    match goal with
    | |- context [inner ?k coeffs ?m ?r ?c] =>
        pose proof (creep_inner_count k coeffs m r c) as H
    end.
    unfold max_iterations in *. lia.
  - intros extra md0 n Hn.
    induction extra as [|extra IH]; [rewrite Nat.add_0_r; reflexivity|].
    rewrite <- plus_n_Sm, creep_inner_more_fuel; [exact IH|].
    unfold max_iterations. lia.
  - intros Hle. unfold iterations, creep_iterations in Hle.
    unfold pass_result, creep_pass_result.
    match goal with
    | |- context [creep_inner _ _ _ _ _ _ ?k coeffs ?m ?r ?c] =>
        destruct (creep_inner_exit k coeffs m r c) as [H|H];
          [unfold max_iterations; lia|unfold max_iterations; lia| |]
    end.
    + exact H.
    + unfold inner, max_iterations in *. lia.
Qed.

(** X19.  When the inner loop of the first pass takes [max_iterations] or
    more solves and ends with the largest change within the tolerance, the
    pass is still counted as too slow and the time step is cut by ten; but
    the next pass, entered with that small [max_residual], makes no solve
    and ends the loop.  The call then returns the last iterate of the first
    pass, computed with the uncut time step, and restores the time step. *)
Theorem creep_late_convergence_skips_reduced_step md coeffs fuel :
  Z.le max_iterations (iterations (md, coeffs, iteration_tolerance + 1)) ->
  snd (pass_result (md, coeffs, iteration_tolerance + 1)) <=
  iteration_tolerance ->
  exists md',
    timestep_call (S (S fuel)) md coeffs = Some md' /\
    RasterData md' =
    zeta_this_iter (fst (pass_result (md, coeffs, iteration_tolerance + 1))) /\
    timeStep md' = timeStep md.
Proof.
  unfold iterations, creep_iterations, pass_result, creep_pass_result,
    timestep_call, DAVE_nonlinear_creep_timestep.
  intros Hn Hr.
  cbn [creep_outer]. unfold creep_attempt at 1.
  set (md0 := set_zeta_last_timestep (set_zeta_last_iter md (RasterData md))
                (RasterData (set_zeta_last_iter md (RasterData md)))) in *.
  destruct (creep_inner assembler_solution uplift_rate fluvial_erosion_rate
              iteration_tolerance South North (Z.to_nat (max_iterations + 1))
              coeffs md0 (iteration_tolerance + 1) 0%Z)
    as [[md1 mr1] n1] eqn:E1.
  cbn [fst snd] in Hn, Hr |- *.
  unfold max_iterations in Hn.
  destruct (n1 =? 1)%Z eqn:En1; [apply Z.eqb_eq in En1; lia|].
  unfold max_iterations at 1.
  destruct (n1 >=? 10)%Z eqn:En10; [|rewrite Z.geb_leb in En10;
                                      apply Z.leb_gt in En10; lia].
  cbn [creep_outer]. unfold creep_attempt.
  change (Z.to_nat (max_iterations + 1)) with 11%nat.
  fold inner. rewrite creep_inner_step.
  assert (Hq : Qlt_bool iteration_tolerance mr1 = false)
    by (apply Qlt_bool_false; exact Hr).
  rewrite Hq. cbn [andb].
  change (0 =? 1)%Z with false. change (0 >=? max_iterations)%Z with false.
  cbv iota.
  eexists. split; [reflexivity|].
  pose proof (creep_inner_frame assembler_solution uplift_rate
                fluvial_erosion_rate iteration_tolerance South North
                (Z.to_nat (max_iterations + 1)) coeffs md0
                (iteration_tolerance + 1) 0%Z) as [Ht _].
  rewrite E1 in Ht. cbn [fst] in Ht.
  split; [reflexivity|]. cbn [timeStep set_timeStep]. reflexivity.
Qed.
(** The retry after a pass that did not converge.  When a pass ends with
    [max_iterations] or more solves and the largest change still above the
    tolerance, the outer loop goes on; the next pass starts from the grid of
    the snapshot, with the time step divided by 10 and the coefficients
    rebuilt from it, and makes at least one solve, the first of them on
    that object with those coefficients. *)
Lemma creep_retry_solves_with_cut_step md coeffs max_residual :
  Z.le max_iterations (iterations (md, coeffs, max_residual)) ->
  iteration_tolerance < snd (pass_result (md, coeffs, max_residual)) ->
  let tried := creep_attempt sin stream_K_soil assembler_solution uplift_rate
                 fluvial_erosion_rate iteration_tolerance South North
                 (md, coeffs, max_residual) in
  let md1 := fst (fst (fst tried)) in
  let coeffs1 := snd (fst (fst tried)) in
  let start := set_zeta_last_timestep (set_zeta_last_iter md1 (RasterData md1))
                 (RasterData md1) in
  snd tried = false /\
  timeStep start = timeStep md / 10 /\
  RasterData start = RasterData md /\
  zeta_last_iter start = RasterData md /\
  zeta_last_timestep start = RasterData md /\
  coeffs1 = DAVE_initiate_assembler_matrix sin stream_K_soil md1 /\
  Z.le 1 (iterations (fst tried)) /\
  zeta_this_iter (fst (fst (inner 1 coeffs1 start (snd (fst tried)) 0%Z))) =
  assembler_solution start uplift_rate fluvial_erosion_rate coeffs1 South North.
Proof.
  unfold iterations, creep_iterations, pass_result, creep_pass_result.
  intros Hn Hr. unfold creep_attempt.
  set (md0 := set_zeta_last_timestep (set_zeta_last_iter md (RasterData md))
                (RasterData (set_zeta_last_iter md (RasterData md)))) in *.
  pose proof (creep_inner_frame assembler_solution uplift_rate
                fluvial_erosion_rate iteration_tolerance South North
                (Z.to_nat (max_iterations + 1)) coeffs md0 max_residual 0%Z)
    as [Ht HR].
  destruct (creep_inner assembler_solution uplift_rate fluvial_erosion_rate
              iteration_tolerance South North (Z.to_nat (max_iterations + 1))
              coeffs md0 max_residual 0%Z) as [[md1 mr1] n1] eqn:E1.
  cbn [fst snd] in Hn, Hr, Ht, HR.
  unfold max_iterations in Hn.
  destruct (n1 =? 1)%Z eqn:En1; [apply Z.eqb_eq in En1; lia|].
  assert (En10 : (n1 >=? max_iterations)%Z = true)
    by (unfold max_iterations; rewrite Z.geb_leb; apply Z.leb_le; lia).
  rewrite !En10. cbn [fst snd].
  assert (Hq : Qlt_bool iteration_tolerance mr1 = true)
    by (apply Qlt_bool_true; exact Hr).
  split; [reflexivity|].
  split; [cbn; rewrite Ht; reflexivity|].
  split; [cbn; rewrite HR; reflexivity|].
  split; [cbn; rewrite HR; reflexivity|].
  split; [cbn; rewrite HR; reflexivity|].
  split; [reflexivity|].
  split.
  - change (Z.to_nat (max_iterations + 1)) with 11%nat.
    fold inner. rewrite creep_inner_step. rewrite Hq.
    change (0 <=? max_iterations)%Z with true. cbn [andb]. cbv zeta.
    match goal with
    | |- context [inner ?k ?c ?m ?r ?x] =>
        pose proof (creep_inner_count k c m r x) as H
    end.
    unfold max_iterations in *. lia.
  - rewrite creep_inner_step. rewrite Hq.
    change (0 <=? max_iterations)%Z with true. cbn [andb]. cbv zeta.
    reflexivity.
Qed.
End CreepPassFacts.

Lemma creep_iterations_bounds_witness :
  Z.le (creep_iterations halving_solution (uplift_field peak_sample)
          (make_array 1 1 0) 1 0 0 (peak_sample, (0, 0, 0, 0), 1 + 1))
       max_iterations /\
  snd (creep_pass_result halving_solution (uplift_field peak_sample)
         (make_array 1 1 0) 1 0 0 (peak_sample, (0, 0, 0, 0), 1 + 1)) <= 1.
Proof.
  assert (Hn : Z.le (creep_iterations halving_solution (uplift_field peak_sample)
                       (make_array 1 1 0) 1 0 0
                       (peak_sample, (0, 0, 0, 0), 1 + 1))
                    max_iterations)
    by (vm_compute; discriminate).
  split; [exact Hn|].
  exact (proj2 (proj2 (proj2
           (creep_iterations_bounds halving_solution (uplift_field peak_sample)
              (make_array 1 1 0) 1 0 0 peak_sample (0, 0, 0, 0) (1 + 1))))
           Hn).
Defined.

Lemma creep_late_convergence_skips_reduced_step_witness :
  Z.le max_iterations
       (creep_iterations halving_solution (uplift_field peak_sample)
          (make_array 1 1 0) 1 0 0 (peak_sample, (0, 0, 0, 0), 1 + 1)) /\
  snd (creep_pass_result halving_solution (uplift_field peak_sample)
         (make_array 1 1 0) 1 0 0 (peak_sample, (0, 0, 0, 0), 1 + 1)) <= 1 /\
  exists md',
    DAVE_nonlinear_creep_timestep sin_sample stream_sample halving_solution
      (uplift_field peak_sample) (make_array 1 1 0) 1 0 0
      2 peak_sample (0, 0, 0, 0) = Some md' /\
    RasterData md' =
    zeta_this_iter
      (fst (creep_pass_result halving_solution (uplift_field peak_sample)
              (make_array 1 1 0) 1 0 0 (peak_sample, (0, 0, 0, 0), 1 + 1))) /\
    timeStep md' = timeStep peak_sample.
Proof.
  assert (Hn : Z.le max_iterations
                 (creep_iterations halving_solution (uplift_field peak_sample)
                    (make_array 1 1 0) 1 0 0
                    (peak_sample, (0, 0, 0, 0), 1 + 1)))
    by (vm_compute; discriminate).
  assert (Hr : snd (creep_pass_result halving_solution (uplift_field peak_sample)
                      (make_array 1 1 0) 1 0 0
                      (peak_sample, (0, 0, 0, 0), 1 + 1)) <= 1)
    by (vm_compute; discriminate).
  split; [exact Hn|]. split; [exact Hr|].
  exact (creep_late_convergence_skips_reduced_step sin_sample stream_sample
           halving_solution (uplift_field peak_sample) (make_array 1 1 0)
           1 0 0 peak_sample (0, 0, 0, 0) 0%nat Hn Hr).
Defined.

(** ** Fluvial erosion rate without moving the surface *)

Lemma aget_make_array_cases nr nc v i j :
  aget (make_array nr nc v) i j = v \/ aget (make_array nr nc v) i j = 0.
Proof.
  unfold aget, make_array.
  destruct ((i <? 0)%Z || (j <? 0)%Z); [right; reflexivity|].
  destruct (Nat.lt_ge_cases (Z.to_nat i) (Z.to_nat nr)) as [Hi|Hi].
  - rewrite nth_repeat_lt by assumption.
    destruct (Nat.lt_ge_cases (Z.to_nat j) (Z.to_nat nc)) as [Hj|Hj].
    + left. apply nth_repeat_lt. assumption.
    + right. apply nth_overflow. rewrite repeat_length. assumption.
  - right. rewrite (nth_overflow (repeat _ _)) by (rewrite repeat_length; assumption).
    destruct (Z.to_nat j); reflexivity.
Qed.

Lemma fluvial_erosion_rate_node_zero_K pow fuel md flow timestep K m_ n_ e node :
  Qabs (n_ - 1) < 1 # 10000 -> K == 0 ->
  exists e',
    fluvial_erosion_rate_node pow fuel md flow timestep K m_ n_ e node = Some e' /\
    forall i j, aget e' i j == 0 \/ aget e' i j = aget e i j.
Proof.
  intros Hn HK. unfold fluvial_erosion_rate_node.
  destruct (retrieve_current_row_and_col flow node) as [row col].
  destruct (retrieve_receiver_information flow node) as [[receiver rr] rc].
  apply Qlt_bool_true in Hn. rewrite Hn.
  destruct (node =? receiver)%Z.
  - eexists. split; [reflexivity|]. intros i j.
    destruct (aget_aset_cases e row col 0 i j) as [(_ & _ & ->)| ->];
      [left; reflexivity|right; reflexivity].
  - eexists. split; [reflexivity|]. intros i j.
    set (spf := K * pow (drainage_area md flow node) m_ *
                (timestep / flow_dx pow md flow node)).
    assert (Hs : spf == 0) by (unfold spf; rewrite HK; ring).
    match goal with
    | |- aget (aset _ _ _ ?v) _ _ == _ \/ _ =>
        destruct (aget_aset_cases e row col v i j) as [(_ & _ & ->)| ->]
    end; [left|right; reflexivity].
    rewrite Hs.
    setoid_replace ((aget (RasterData md) row col +
                     aget (RasterData md) rr rc * 0) / (1 + 0) -
                    aget (RasterData md) row col) with 0 by field.
    unfold Qdiv. ring.
Qed.

(** X20.  With [n] within 0.0001 of 1 and [K = 0], [fluvial_erosion_rate]
    returns, whatever the stack, a raster in which every cell either holds a
    zero rate or still holds the value the raster was created with: no
    erosion is reported anywhere. *)
Theorem fluvial_erosion_rate_linear_zero_K pow fuel md flow timestep K m_ n_ :
  Qabs (n_ - 1) < 1 # 10000 -> K == 0 ->
  exists erosionRate,
    fluvial_erosion_rate pow fuel md flow timestep K m_ n_ = Some erosionRate /\
    forall i j,
      aget erosionRate i j == 0 \/ aget erosionRate i j = NoDataValue md.
Proof.
  intros Hn HK. unfold fluvial_erosion_rate.
  assert (Hinit : forall i j,
            aget (make_array (NRows md) (NCols md) (NoDataValue md)) i j == 0 \/
            aget (make_array (NRows md) (NCols md) (NoDataValue md)) i j =
            NoDataValue md).
  { intros i j.
    destruct (aget_make_array_cases (NRows md) (NCols md) (NoDataValue md) i j)
      as [-> | ->]; [right|left]; reflexivity. }
  revert Hinit.
  generalize (make_array (NRows md) (NCols md) (NoDataValue md)) as e.
  induction (rev (get_SVector flow)) as [|node l IH]; intros e He; simpl.
  - exists e. split; [reflexivity|assumption].
  - destruct (fluvial_erosion_rate_node_zero_K pow fuel md flow timestep K m_ n_
                e node Hn HK) as (e1 & E & Hstep).
    rewrite E. apply IH. intros i j.
    destruct (Hstep i j) as [H0|Hsame]; [left; assumption|].
    rewrite Hsame. apply He.
Qed.

Lemma fluvial_erosion_rate_linear_zero_K_witness :
  Qabs (1 - 1) < 1 # 10000 /\ 0 == 0 /\
  exists erosionRate,
    fluvial_erosion_rate pow_sample 5 column_sample column_flow 100 0
      (1 # 2) 1 = Some erosionRate /\
    forall i j,
      aget erosionRate i j == 0 \/
      aget erosionRate i j = NoDataValue column_sample.
Proof.
  assert (Hn : Qabs (1 - 1) < 1 # 10000) by reflexivity.
  assert (HK : 0 == 0) by reflexivity.
  split; [exact Hn|]. split; [exact HK|].
  exact (fluvial_erosion_rate_linear_zero_K pow_sample 5 column_sample
           column_flow 100 0 (1 # 2) 1 Hn HK).
Defined.

(** ** Uplift from a generated field *)

Lemma generate_uplift_field_cell pow md mode max_uplift i j :
  (0 <= i < NRows md)%Z -> (0 <= j < NCols md)%Z ->
  aget (generate_uplift_field pow md mode max_uplift) i j =
  get_uplift_at_cell pow md i j.
Proof.
  intros Hi Hj. unfold generate_uplift_field.
  apply (write_cells_written _ (NRows md) (NCols md)); try assumption.
  - apply has_dims_make_array; lia.
  - apply In_cells. split; assumption.
  - reflexivity.
Qed.

(** X21.  [get_uplift_at_cell] already multiplies the rate by the time step
    and is 0 on base-level cells, so the field [generate_uplift_field]
    returns holds the uplift of one step: applied by the overload
    [uplift_surface(UpliftRate, dt)] it raises a cell that holds data by
    that uplift times [dt], and with [dt = 1] it gives the surface the
    member [uplift_surface()] gives. *)
Theorem uplift_surface_from_generated_field pow md mode max_uplift dt i j :
  has_dims (RasterData md) (NRows md) (NCols md) ->
  (0 <= i < NRows md)%Z -> (0 <= j < NCols md)%Z ->
  let field := generate_uplift_field pow md mode max_uplift in
  aget (uplift_surface_field md field dt) i j =
  (if Qeq_bool (aget (RasterData md) i j) (NoDataValue md)
   then aget (RasterData md) i j
   else aget (RasterData md) i j + get_uplift_at_cell pow md i j * dt) /\
  aget (uplift_surface_field md field 1) i j ==
  aget (RasterData (uplift_surface pow md)) i j.
Proof.
  intros Hd Hi Hj field.
  assert (Hfield : forall d,
            aget (uplift_surface_field md field d) i j =
            if Qeq_bool (aget (RasterData md) i j) (NoDataValue md)
            then aget (RasterData md) i j
            else aget (RasterData md) i j + get_uplift_at_cell pow md i j * d).
  { intros d. unfold uplift_surface_field.
    rewrite (update_cells_visited _ (NRows md) (NCols md));
      try assumption; [|apply NoDup_cells | apply In_cells; split; assumption].
    cbn [fst snd]. unfold field.
    rewrite generate_uplift_field_cell by assumption.
    destruct (Qeq_bool (aget (RasterData md) i j) (NoDataValue md));
      reflexivity. }
  split; [apply Hfield|].
  rewrite Hfield.
  unfold uplift_surface. cbn [RasterData set_RasterData].
  rewrite uplift_surface_as_update.
  rewrite (update_cells_visited _ (NRows md) (NCols md));
    try assumption; [|apply NoDup_cells | apply In_cells; split; assumption].
  cbn [fst snd].
  destruct (is_base_level md i j) eqn:Eb.
  - unfold get_uplift_at_cell. rewrite Eb.
    destruct (Qeq_bool (aget (RasterData md) i j) (NoDataValue md));
      [reflexivity|ring].
  - destruct (Qeq_bool (aget (RasterData md) i j) (NoDataValue md));
      cbn [negb]; [reflexivity|ring].
Qed.

Lemma uplift_surface_from_generated_field_witness :
  has_dims (RasterData patch_sample) (NRows patch_sample) (NCols patch_sample) /\
  (0 <= 1 < NRows patch_sample)%Z /\ (0 <= 0 < NCols patch_sample)%Z /\
  aget (uplift_surface_field patch_sample
          (generate_uplift_field pow_sample patch_sample 0 0) 1) 1 0 ==
  aget (RasterData (uplift_surface pow_sample patch_sample)) 1 0.
Proof.
  assert (Hd : has_dims (RasterData patch_sample) (NRows patch_sample)
                 (NCols patch_sample)) by apply patch_sample_sized.
  assert (Hi : (0 <= 1 < NRows patch_sample)%Z) by (simpl; lia).
  assert (Hj : (0 <= 0 < NCols patch_sample)%Z) by (simpl; lia).
  split; [exact Hd|]. split; [exact Hi|]. split; [exact Hj|].
  exact (proj2 (uplift_surface_from_generated_field pow_sample patch_sample
                  0 0 1 1 0 Hd Hi Hj)).
Defined.

(** ** Time-varying parameters *)

Lemma Qtrunc_between q k :
  (0 <= k)%Z -> inject_Z k <= q -> q < inject_Z k + 1 -> Qtrunc q = k.
Proof.
  intros Hk Hlo Hhi. unfold Qtrunc.
  assert (Hq : 0 <= q).
  { apply Qle_trans with (inject_Z k); [|assumption].
    change 0 with (inject_Z 0). rewrite <- Zle_Qle. assumption. }
  assert (Hnum : (0 <= Qnum q)%Z).
  { unfold Qle in Hq. simpl in Hq. lia. }
  rewrite Z.quot_div_nonneg by lia.
  replace (Qnum q / Z.pos (Qden q))%Z with (Qfloor q)
    by (destruct q; reflexivity).
  apply Z.le_antisymm.
  - apply Z.lt_succ_r. rewrite Zlt_Qlt.
    apply Qle_lt_trans with q; [apply Qfloor_le|].
    unfold Z.succ. rewrite inject_Z_plus. exact Hhi.
  - rewrite <- (Qfloor_Z k). apply Qfloor_resp_le. assumption.
Qed.

(** X22.  [square_wave_parameter] alternates by half periods: while the
    time since the delays lies in the half period number [k] (counted from
    0) of a positive period, the value is the base value plus the amplitude
    for even [k] and minus the amplitude for odd [k]; [get_K] and [get_D]
    return this value in mode 2 once the initial steady state is reached. *)
Theorem square_wave_parameter_half_periods sin stream_K_fluv stream_K_soil
        md base_param amplitude k :
  0 < periodicity md -> (0 <= k)%Z ->
  inject_Z k * (periodicity md / 2) <=
  current_time md - time_delay md - switch_delay md ->
  current_time md - time_delay md - switch_delay md <
  (inject_Z k + 1) * (periodicity md / 2) ->
  let wave (b a : Q) := if Z.even k then b + a else b - a in
  square_wave_parameter md base_param amplitude == wave base_param amplitude /\
  (K_mode md = 2%Z -> initial_steady_state md = true ->
   get_K sin stream_K_fluv md == wave (K_fluv md) (K_amplitude md)) /\
  (D_mode md = 2%Z -> initial_steady_state md = true ->
   get_D sin stream_K_soil md == wave (K_soil md) (D_amplitude md)).
Proof.
  intros Hp Hk Hlo Hhi wave.
  assert (Hhalf : 0 < periodicity md / 2).
  { apply Qlt_shift_div_l; [reflexivity|]. rewrite Qmult_0_l. assumption. }
  assert (Hw : forall b a, square_wave_parameter md b a == wave b a).
  { intros b a. unfold square_wave_parameter, wave.
    rewrite (Qtrunc_between _ k Hk).
    - rewrite Z.rem_mod_nonneg by lia. rewrite Zmod_even.
      destruct (Z.even k); simpl Z.eqb; cbv iota.
      + change (inject_Z 1) with 1. ring.
      + change (inject_Z (-1)) with (-1). ring.
    - apply Qle_shift_div_l; assumption.
    - apply Qlt_shift_div_r; assumption. }
  split; [apply Hw|]. split.
  - intros Hm Hs. unfold get_K. rewrite Hm, Hs. simpl. apply Hw.
  - intros Hm Hs. unfold get_D. rewrite Hm, Hs. simpl. apply Hw.
Qed.

Lemma square_wave_parameter_half_periods_witness :
  0 < periodicity switching_sample /\
  inject_Z 1 * (periodicity switching_sample / 2) <=
  current_time switching_sample - time_delay switching_sample -
  switch_delay switching_sample /\
  current_time switching_sample - time_delay switching_sample -
  switch_delay switching_sample <
  (inject_Z 1 + 1) * (periodicity switching_sample / 2) /\
  square_wave_parameter switching_sample 5 2 == 5 - 2.
Proof.
  assert (Hp : 0 < periodicity switching_sample) by reflexivity.
  assert (Hk : (0 <= 1)%Z) by lia.
  assert (Hlo : inject_Z 1 * (periodicity switching_sample / 2) <=
                current_time switching_sample - time_delay switching_sample -
                switch_delay switching_sample) by (vm_compute; discriminate).
  assert (Hhi : current_time switching_sample - time_delay switching_sample -
                switch_delay switching_sample <
                (inject_Z 1 + 1) * (periodicity switching_sample / 2))
    by reflexivity.
  split; [exact Hp|]. split; [exact Hlo|]. split; [exact Hhi|].
  exact (proj1 (square_wave_parameter_half_periods sin_sample stream_sample
                  stream_sample switching_sample 5 2 1 Hp Hk Hlo Hhi)).
Defined.

(** X23.  When [check_periodicity_switch] switches, with an end-time mode
    other than 2 and 3, it exchanges the two periods, and the new
    [switch_delay] keeps it from switching again at any later time that is
    no more than [switch_time - timeStep] after the switch. *)
Theorem check_periodicity_switch_holds md later :
  endTime_mode md <> 2%Z -> endTime_mode md <> 3%Z ->
  check_periodicity_switch md <> md ->
  later - current_time md + timeStep md <= switch_time md ->
  let md1 := check_periodicity_switch md in
  periodicity md1 = periodicity_2 md /\
  periodicity_2 md1 = periodicity md /\
  check_periodicity_switch (set_current_time md1 later) =
  set_current_time md1 later.
Proof.
  intros H2 H3 Hsw Hlater md1. unfold md1. clear md1.
  unfold check_periodicity_switch in Hsw |- *.
  apply Z.eqb_neq in H2, H3.
  destruct (((K_mode md =? 0)%Z && (D_mode md =? 0)%Z) ||
            (negb (initial_steady_state md) && negb (cycle_steady_check md)))
    eqn:E0; [contradiction Hsw; reflexivity|].
  destruct ((period_mode md =? 2)%Z || (period_mode md =? 4)%Z) eqn:E1;
    [|contradiction Hsw; reflexivity].
  rewrite H2, H3 in Hsw |- *.
  destruct (Qlt_bool (switch_time md + switch_delay md)
                     (current_time md - time_delay md)) eqn:E2;
    [|contradiction Hsw; reflexivity].
  split; [reflexivity|]. split; [reflexivity|].
  cbn. rewrite E0, E1, H2, H3.
  match goal with
  | |- (if Qlt_bool ?a ?b then _ else _) = _ =>
      assert (Hq : Qlt_bool a b = false) by (apply Qlt_bool_false; lra)
  end.
  rewrite Hq. reflexivity.
Qed.

Lemma check_periodicity_switch_holds_witness :
  endTime_mode switching_sample <> 2%Z /\
  endTime_mode switching_sample <> 3%Z /\
  check_periodicity_switch switching_sample <> switching_sample /\
  6100 - current_time switching_sample + timeStep switching_sample <=
  switch_time switching_sample /\
  periodicity (check_periodicity_switch switching_sample) = 20000.
Proof.
  assert (H2 : endTime_mode switching_sample <> 2%Z) by discriminate.
  assert (H3 : endTime_mode switching_sample <> 3%Z) by discriminate.
  assert (Hsw : check_periodicity_switch switching_sample <> switching_sample).
  { intros Heq. apply (f_equal periodicity) in Heq. discriminate Heq. }
  assert (Hl : 6100 - current_time switching_sample +
               timeStep switching_sample <= switch_time switching_sample)
    by (vm_compute; discriminate).
  split; [exact H2|]. split; [exact H3|]. split; [exact Hsw|].
  split; [exact Hl|].
  exact (proj1 (check_periodicity_switch_holds switching_sample 6100
                  H2 H3 Hsw Hl)).
Defined.

(** ** The creep step as the driver calls it *)

Lemma find_max_boundary_0_spec md :
  find_max_boundary_0 md = find_max_boundary md 0.
Proof.
  unfold find_max_boundary_0, find_max_boundary.
  change (Z.rem 0 2 =? 0)%Z with true. cbv iota.
  generalize 0 as m0. induction (zseq (NCols md)) as [|j l IH]; intros m0;
    [reflexivity|].
  simpl. apply IH.
Qed.

Section CreepWrapperFacts.
Variable sin : Q -> Q.
Variable stream_K_soil : LSDRasterModel -> Q.
Variable assembler_solution :
  LSDRasterModel -> Array2D -> Array2D -> Q * Q * Q * Q -> Q -> Q -> Array2D.
Variables uplift_rate fluvial_erosion_rate : Array2D.
Variable iteration_tolerance : Q.
Variables South North : Q.

Let inner := creep_inner assembler_solution uplift_rate fluvial_erosion_rate
               iteration_tolerance South North.
Let attempt := creep_attempt sin stream_K_soil assembler_solution uplift_rate
                 fluvial_erosion_rate iteration_tolerance South North.
Let outer := creep_outer sin stream_K_soil assembler_solution uplift_rate
               fluvial_erosion_rate iteration_tolerance South North.

(** [zeta_this_iter] holds a result of the solver. *)
Let solved (md : LSDRasterModel) : Prop :=
  exists md_k coeffs_k,
    zeta_this_iter md =
    assembler_solution md_k uplift_rate fluvial_erosion_rate coeffs_k
      South North.

Lemma creep_inner_solved k coeffs : forall md max_residual n,
  solved md \/
  Qlt_bool iteration_tolerance max_residual && (n <=? max_iterations)%Z = true ->
  (0 < k)%nat ->
  solved (fst (fst (inner k coeffs md max_residual n))).
Proof.
  unfold inner.
  induction k as [|k IH]; intros md mr n H Hk; [lia|].
  cbn [creep_inner].
  destruct (Qlt_bool iteration_tolerance mr && (n <=? max_iterations)%Z) eqn:E.
  - destruct k as [|k].
    + cbn [creep_inner fst]. exists md, coeffs. reflexivity.
    + apply IH; [|lia]. left. exists md, coeffs. reflexivity.
  - cbn [fst]. destruct H as [H|H]; [exact H|discriminate].
Qed.

Lemma creep_attempt_solved md coeffs max_residual :
  solved md \/ Qlt_bool iteration_tolerance max_residual = true ->
  solved (fst (fst (fst (attempt (md, coeffs, max_residual))))).
Proof.
  intros H. unfold attempt, creep_attempt.
  set (md0 := set_zeta_last_timestep (set_zeta_last_iter md (RasterData md))
                (RasterData (set_zeta_last_iter md (RasterData md)))).
  assert (H0 : solved (fst (fst (inner (Z.to_nat (max_iterations + 1)) coeffs
                                   md0 max_residual 0%Z)))).
  { apply creep_inner_solved; [|unfold max_iterations; simpl; lia].
    destruct H as [H|H]; [left; exact H|right].
    rewrite H. reflexivity. }
  unfold inner in H0.
  destruct (creep_inner assembler_solution uplift_rate fluvial_erosion_rate
              iteration_tolerance South North (Z.to_nat (max_iterations + 1))
              coeffs md0 max_residual 0%Z) as [[md1 mr1] n1].
  cbn [fst] in H0.
  destruct (n1 =? 1)%Z; [exact H0|].
  destruct (n1 >=? max_iterations)%Z; exact H0.
Qed.

Lemma creep_outer_solved fuel : forall md coeffs max_residual st,
  solved md \/ Qlt_bool iteration_tolerance max_residual = true ->
  outer fuel (md, coeffs, max_residual) = Some st ->
  solved (fst (fst st)).
Proof.
  unfold outer.
  induction fuel as [|fuel IH]; intros md coeffs mr st H Hrun; [discriminate|].
  cbn [creep_outer] in Hrun.
  pose proof (creep_attempt_solved md coeffs mr H) as Hs. unfold attempt in Hs.
  destruct (creep_attempt sin stream_K_soil assembler_solution uplift_rate
              fluvial_erosion_rate iteration_tolerance South North
              (md, coeffs, mr)) as [[[md1 c1] r1] sw].
  cbn [fst] in Hs.
  destruct sw.
  - inversion Hrun; subst. exact Hs.
  - apply (IH md1 c1 r1); [left; exact Hs|exact Hrun].
Qed.

Lemma DAVE_timestep_solved fuel md coeffs md' :
  DAVE_nonlinear_creep_timestep sin stream_K_soil assembler_solution
    uplift_rate fluvial_erosion_rate iteration_tolerance South North
    fuel md coeffs = Some md' ->
  timeStep md' = timeStep md /\
  exists md_k coeffs_k,
    RasterData md' =
    assembler_solution md_k uplift_rate fluvial_erosion_rate coeffs_k
      South North.
Proof.
  unfold DAVE_nonlinear_creep_timestep. intros Hrun.
  destruct (creep_outer sin stream_K_soil assembler_solution uplift_rate
              fluvial_erosion_rate iteration_tolerance South North fuel
              (md, coeffs, iteration_tolerance + 1)) as [[[m c] r]|] eqn:E;
    [|discriminate].
  inversion Hrun; subst. split; [reflexivity|].
  apply (creep_outer_solved fuel md coeffs (iteration_tolerance + 1) (m, c, r));
    [|exact E].
  right. apply Qlt_bool_true. lra.
Qed.

End CreepWrapperFacts.

(** X24.  Whenever [DAVE_wrapper] returns, the time step is the one it was
    called with, whatever the adaptive loop did to it on the way, and the
    surface is a result of the solver for the uplift field of the object, no
    fluvial erosion, a south boundary elevation of 0 and a north boundary
    elevation of [find_max_boundary(0)], which is at least 0: every call
    makes at least one solve and returns an iterate of its own. *)
Theorem DAVE_wrapper_returns_solution sin stream_K_soil assembler_solution
        fuel md md' :
  DAVE_wrapper sin stream_K_soil assembler_solution fuel md = Some md' ->
  timeStep md' = timeStep md /\
  0 <= find_max_boundary md 0 /\
  exists md_k coeffs_k,
    RasterData md' =
    assembler_solution md_k (uplift_field md)
      (make_array (NRows md) (NCols md) 0) coeffs_k 0 (find_max_boundary md 0).
Proof.
  unfold DAVE_wrapper. rewrite find_max_boundary_0_spec. intros Hrun.
  destruct (DAVE_timestep_solved _ _ _ _ _ _ _ _ _ _ _ _ Hrun) as [Ht Hs].
  split; [exact Ht|]. split; [|exact Hs].
  unfold find_max_boundary. change (Z.rem 0 2 =? 0)%Z with true. cbv iota.
  match goal with
  | |- 0 <= fold_left ?f ?l 0 =>
      exact (proj1 (boundary_scan_bounds (RasterData md) l 0))
  end.
Qed.

Lemma DAVE_wrapper_returns_solution_witness :
  exists md',
    DAVE_wrapper sin_sample stream_sample settled_solution 1 flat_sample =
    Some md' /\
    timeStep md' = timeStep flat_sample.
Proof.
  exists (match DAVE_wrapper sin_sample stream_sample settled_solution 1
                  flat_sample with
          | Some md' => md'
          | None => flat_sample
          end).
  assert (Hrun : DAVE_wrapper sin_sample stream_sample settled_solution 1
                   flat_sample =
                 Some (match DAVE_wrapper sin_sample stream_sample
                               settled_solution 1 flat_sample with
                       | Some md' => md'
                       | None => flat_sample
                       end)) by reflexivity.
  split; [exact Hrun|].
  exact (proj1 (DAVE_wrapper_returns_solution sin_sample stream_sample
                  settled_solution 1 flat_sample _ Hrun)).
Defined.
